(** * SpeedClone: a shallow embedding of [speedclone.py]

    The program bootstraps a working directory from a GitHub snapshot
    archive.  This development embeds its functions over an explicit world
    (file system, network oracle, environment) and settles the properties
    stated for it.

    Modelling conventions.
    - Python [str] values are byte strings (their UTF-8 encoding).
    - The file system holds directories and regular files only, keyed by
      their absolute, normalised location.  The extractor creates no
      links, and [main] empties the destination before it is used, so
      symbolic links are left out; permission checks are left out as well.
    - Library code (HTTP transport, gzip/tar/zip/json decoding) is seen
      through its observations: what a request answers, what an archive
      lists, what reading a member gives.
    - Status lines printed on standard output are not part of the model;
      diagnostics on standard error are, as the text handed to [print].
      Printing itself never raises.
    - The working directory is an existing directory. *)

From Stdlib Require Import ZArith Ascii String List Lia Bool.
From stdpp Require Import base option list gmap strings sorting.

Local Open Scope Z_scope.
Local Open Scope stdpp_scope.

(** ** Python string operations *)

Module PyStr.

(** [s.startswith(p)] *)
Definition startswith (p s : string) : bool := String.prefix p s.

(** [s[n:]] *)
Fixpoint drop (n : nat) (s : string) : string :=
  match n, s with
  | O, _ => s
  | S n', String _ t => drop n' t
  | S _, EmptyString => EmptyString
  end.

(** [s[:n]] *)
Fixpoint take (n : nat) (s : string) : string :=
  match n, s with
  | O, _ => EmptyString
  | S n', String a t => String a (take n' t)
  | S _, EmptyString => EmptyString
  end.

(** [s[:n]] counted in characters, on a text held as UTF-8: the bytes
    [10xxxxxx] continue the character before them. *)
Definition is_continuation (a : ascii) : bool :=
  let n := nat_of_ascii a in ((128 <=? n) && (n <? 192))%nat.

Fixpoint take_chars (n : nat) (s : string) : string :=
  match s with
  | EmptyString => EmptyString
  | String a t =>
      if is_continuation a then String a (take_chars n t)
      else match n with
           | O => EmptyString
           | S n' => String a (take_chars n' t)
           end
  end.

(** [s.endswith(suf)] *)
Definition endswith (suf s : string) : bool :=
  (String.length suf <=? String.length s)%nat
  && String.eqb (drop (String.length s - String.length suf) s) suf.

(** [s.rstrip(c)] for a single character [c] *)
Fixpoint rstrip (c : ascii) (s : string) : string :=
  match s with
  | EmptyString => EmptyString
  | String a t =>
      let t' := rstrip c t in
      if String.eqb t' EmptyString && Ascii.eqb a c then EmptyString
      else String a t'
  end.

(** [s.split(c)] for a single character [c]; never the empty list *)
Fixpoint split (c : ascii) (s : string) : list string :=
  match s with
  | EmptyString => [EmptyString]
  | String a t =>
      if Ascii.eqb a c then EmptyString :: split c t
      else match split c t with
           | h :: r => String a h :: r
           | [] => [String a EmptyString]
           end
  end.

(** [c in s] *)
Fixpoint contains (c : ascii) (s : string) : bool :=
  match s with
  | EmptyString => false
  | String a t => Ascii.eqb a c || contains c t
  end.

(** [s.split(c, 1)[0]]: the text before the first [c] *)
Fixpoint before_first (c : ascii) (s : string) : string :=
  match s with
  | EmptyString => EmptyString
  | String a t => if Ascii.eqb a c then EmptyString else String a (before_first c t)
  end.

(** [sep.join(l)] *)
Definition join (sep : string) (l : list string) : string := String.concat sep l.

(** Truthiness of a string: non-empty *)
Definition nonempty (s : string) : bool := negb (String.eqb s EmptyString).

(** ASCII lower case of one character, as [str.lower] does on ASCII *)
Definition lower_ascii (a : ascii) : ascii :=
  let n := nat_of_ascii a in
  if ((65 <=? n) && (n <=? 90))%nat then ascii_of_nat (n + 32) else a.

Fixpoint lower (s : string) : string :=
  match s with
  | EmptyString => EmptyString
  | String a t => String (lower_ascii a) (lower t)
  end.

(** Every character of [s] satisfies [f] *)
Fixpoint all_chars (f : ascii -> bool) (s : string) : bool :=
match s with
| EmptyString => true
| String a t => f a && all_chars f t
end.

(** [sub in s] for a substring *)
Fixpoint has_substring (sub s : string) : bool :=
  startswith sub s
  || match s with
     | EmptyString => false
     | String _ t => has_substring sub t
     end.

End PyStr.

(** ** Exceptions *)

(** The exception classes the program can meet.  [LibraryError] stands for
    any [Exception] raised inside library code (HTTP, archive and JSON
    decoding); [SystemExit] is not an [Exception]. *)
Inductive Exn :=
| FileNotFoundError (msg : string)
| FileExistsError (msg : string)
| NotADirectoryError (msg : string)
| IsADirectoryError (msg : string)
| UnicodeEncodeError (msg : string)
| TypeError (msg : string)
| KeyError (msg : string)
| AttributeError (msg : string)
| RuntimeError (msg : string)
| LibraryError (msg : string)
| SystemExit (arg : string + Z).

(** [isinstance(e, Exception)] *)
Definition is_Exception (e : Exn) : bool :=
  match e with SystemExit _ => false | _ => true end.

(** [isinstance(e, OSError)] for the errors the file-system model raises *)
Definition is_OSError (e : Exn) : bool :=
  match e with
  | FileNotFoundError _ | FileExistsError _
  | NotADirectoryError _ | IsADirectoryError _ => true
  | _ => false
  end.

(** [str(e)]; the wording of library messages is whatever the library gave *)
Definition str_exn (e : Exn) : string :=
  match e with
  | FileNotFoundError m | FileExistsError m | NotADirectoryError m
  | IsADirectoryError m | UnicodeEncodeError m | TypeError m | KeyError m
  | AttributeError m | RuntimeError m | LibraryError m => m
  | SystemExit (inl m) => m
  | SystemExit (inr _) => ""
  end.

(** ** Paths ([pathlib.PurePosixPath]) *)

(** A path is its anchor and its parts; parsing drops empty and [.] parts
    and keeps [..].  A root written with two slashes is read as [/]. *)
Record Path := mkPath { p_abs : bool; p_parts : list string }.

Global Instance Path_eq_dec : EqDecision Path.
Proof. solve_decision. Defined.

Definition keep_part (x : string) : bool :=
  negb (String.eqb x "") && negb (String.eqb x ".").

(** [Path(s)] *)
Definition parse_path (s : string) : Path :=
  {| p_abs := PyStr.startswith "/" s;
     p_parts := List.filter keep_part (PyStr.split "/" s) |}.

(** [a / b] for two paths: an absolute right operand replaces the left *)
Definition path_join (a b : Path) : Path :=
  if p_abs b then b else {| p_abs := p_abs a; p_parts := p_parts a ++ p_parts b |}.

(** [a / s] for a string *)
Definition path_div (a : Path) (s : string) : Path := path_join a (parse_path s).

(** [p.parent] *)
Definition path_parent (p : Path) : Path :=
  {| p_abs := p_abs p; p_parts := removelast (p_parts p) |}.

(** [str(p)] *)
Definition path_str (p : Path) : string :=
  if p_abs p then "/" +:+ PyStr.join "/" (p_parts p)
  else match p_parts p with
       | [] => "."
       | _ => PyStr.join "/" (p_parts p)
       end.

(** Absolute, normalised locations: the keys of the file system *)
Abbreviation Loc := (list string).

(** One step of normalisation: [..] climbs (and stays at the root) *)
Definition loc_step (cur : Loc) (x : string) : Loc :=
  if decide (x = "..") then removelast cur else cur ++ [x].

(** [p.resolve(strict=False)] in a file system without symbolic links:
    made absolute with the working directory, then [..] collapsed
    lexically, whether or not the components exist. *)
Definition resolve (cwd : Loc) (p : Path) : Loc :=
  fold_left loc_step (p_parts p) (if p_abs p then [] else cwd).

Definition loc_str (l : Loc) : string := "/" +:+ PyStr.join "/" l.

(** A path with an embedded NUL is refused by every call that hands it
    to the operating system, [resolve] among them, with
    [ValueError: embedded null byte]. *)
Definition NUL : ascii := "000"%char.

Definition has_nul (p : Path) : bool := existsb (PyStr.contains NUL) (p_parts p).

Definition embedded_null : Exn := LibraryError "embedded null byte".

(** [p.resolve(strict=False)] as a call: it raises on an embedded NUL. *)
Definition Path_resolve (cwd : Loc) (p : Path) : Exn + Loc :=
  if has_nul p then inl embedded_null else inr (resolve cwd p).

(** [_is_within(base, target)]: both resolved, then a test on their
    strings; when a resolution raises, the [except] branch answers
    [False]. *)
Definition _is_within (cwd : Loc) (base target : Path) : bool :=
  match Path_resolve cwd base, Path_resolve cwd target with
  | inr base, inr target => PyStr.startswith (loc_str base +:+ "/") (loc_str target)
  | _, _ => false
  end.

Definition VERSION : string := "1.0".
Definition UA : string := "speedclone/" +:+ VERSION.

(** ** The world: file system, network, environment *)

Inductive Node :=
| Dir
| File (content : string) (mode : Z).

Global Instance Node_eq_dec : EqDecision Node.
Proof. solve_decision. Defined.

Abbreviation FS := (gmap Loc Node).

(** The root directory always exists. *)
Definition node_at (fs : FS) (l : Loc) : option Node :=
  match l with
  | [] => Some Dir
  | _ => fs !! l
  end.

(** A Python value as decoded from JSON, seen through what the program
    does with it: truth value, subscripting, formatting with [str()]; of a
    list also the text of its slice [v[:12]]. *)
Inductive PyVal :=
| PyStr (s : string)
| PyList (is_empty : bool) (text : string) (head_text : string)
| PyAtom (truthy : bool) (text : string).   (* None, booleans, numbers, inner objects *)

(** What [json.loads] gives: an object with its members, or another value. *)
Inductive Json :=
| JObject (items : list (string * PyVal))
| JValue (v : PyVal).

(** The member types of [tarfile] *)
Inductive TarType :=
| REGTYPE | AREGTYPE | LNKTYPE | SYMTYPE | CHRTYPE | BLKTYPE
| DIRTYPE | FIFOTYPE | CONTTYPE | GNUTYPE_SPARSE.

(** A member of an opened tar archive ([tarfile.TarInfo]) with what
    reading its data gives: the bytes, or the error raised. *)
Record TarInfo := mkTarInfo {
  tm_name : string;
  tm_type : TarType;
  tm_mode : Z;
  tm_data : Exn + string
}.

(** An entry of an opened zip archive ([zipfile.ZipInfo]).  Opening the
    entry can raise; if it opens, reading it can raise. *)
Inductive ZipData :=
| ZipOpenFails (e : Exn)
| ZipReadFails (e : Exn)
| ZipBytes (data : string).

Record ZipInfo := mkZipInfo {
  z_filename : string;
  z_external_attr : Z;
  z_data : ZipData
}.

(** The body of an HTTP response, seen through the decoders applied to it. *)
Record Body := mkBody {
  body_is_empty : bool;                       (* [not data] *)
  body_text : string;                         (* [data.decode("utf-8","ignore")], as UTF-8 *)
  body_json : Exn + Json;                     (* [json.loads(...)] *)
  body_tar_stream : Exn + list TarInfo;       (* [tarfile.open(mode="r|gz")], members listed *)
  body_tar : Exn + list TarInfo;              (* [tarfile.open(mode="r:gz")], members listed *)
  body_zip : Exn + list ZipInfo               (* [zipfile.ZipFile(...)] *)
}.

Record Request := mkRequest {
  rq_url : string;
  rq_user_agent : string;
  rq_accept : option string;
  rq_token : option string
}.

Inductive Response :=
| HttpFails (e : Exn)
| HttpOk (b : Body).

(** The libraries are seen through what they give: [urlopen] through the
    outcome of each call and the redirections it follows on the way, the
    [print] of [rich] through its verdict on the markup of a text. *)
Record World := mkWorld {
  w_fs : FS;
  w_cwd : Loc;
  w_umask : Z;
  w_token : option string;                    (* [os.environ.get("GITHUB_TOKEN")] *)
  w_net : nat -> Request -> Response;         (* outcome of the n-th call of [urlopen] *)
  w_redirects : nat -> Request -> list string; (* URLs the n-th call is redirected to, in turn *)
  w_markup : string -> option string;         (* the [MarkupError] of [rich] for a text, if any *)
  w_requests : list Request;                  (* calls of [urlopen] so far *)
  w_sent : list Request;                      (* requests sent so far, redirections included *)
  w_stderr : list string
}.

Definition set_fs (fs : FS) (w : World) : World :=
  {| w_fs := fs; w_cwd := w_cwd w; w_umask := w_umask w; w_token := w_token w;
     w_net := w_net w; w_redirects := w_redirects w; w_markup := w_markup w;
     w_requests := w_requests w; w_sent := w_sent w; w_stderr := w_stderr w |}.

(** The redirect handler of [urlopen] builds the next request from the
    headers of the one it answers to, [Authorization] included. *)
Definition redirect_of (rq : Request) (url : string) : Request :=
  {| rq_url := url; rq_user_agent := rq_user_agent rq;
     rq_accept := rq_accept rq; rq_token := rq_token rq |}.

(** What goes out for a call of [urlopen] made in [w]: the request, then
    one request for each redirection followed. *)
Definition wire (w : World) (rq : Request) : list Request :=
  rq :: map (redirect_of rq) (w_redirects w (List.length (w_requests w)) rq).

Definition log_request (r : Request) (w : World) : World :=
  {| w_fs := w_fs w; w_cwd := w_cwd w; w_umask := w_umask w; w_token := w_token w;
     w_net := w_net w; w_redirects := w_redirects w; w_markup := w_markup w;
     w_requests := w_requests w ++ [r]; w_sent := w_sent w ++ wire w r;
     w_stderr := w_stderr w |}.

Definition log_stderr (s : string) (w : World) : World :=
  {| w_fs := w_fs w; w_cwd := w_cwd w; w_umask := w_umask w; w_token := w_token w;
     w_net := w_net w; w_redirects := w_redirects w; w_markup := w_markup w;
     w_requests := w_requests w; w_sent := w_sent w; w_stderr := w_stderr w ++ [s] |}.

(** ** Computations that change the world and may raise *)

Definition M (A : Type) : Type := World -> World * (Exn + A).

Definition ret {A} (a : A) : M A := fun w => (w, inr a).
Definition raise {A} (e : Exn) : M A := fun w => (w, inl e).

Definition bind {A B} (m : M A) (k : A -> M B) : M B :=
  fun w => match m w with
           | (w', inr a) => k a w'
           | (w', inl e) => (w', inl e)
           end.

Notation "x <- m ;; k" := (bind m (fun x => k))
  (at level 100, m at level 99, k at level 200, right associativity).
Notation "m ;;; k" := (bind m (fun _ => k))
  (at level 100, k at level 200, right associativity).

(** [try: m  except Exception as e: h e]; anything else propagates *)
Definition try_except {A} (m : M A) (h : Exn -> M A) : M A :=
  fun w => match m w with
           | (w', inr a) => (w', inr a)
           | (w', inl e) => if is_Exception e then h e w' else (w', inl e)
           end.

Definition get_world : M World := fun w => (w, inr w).
Definition modify (f : World -> World) : M unit := fun w => (f w, inr tt).
Definition lift_result {A} (r : Exn + A) : M A := fun w => (w, r).

(** [print(text)] of [rich] with a text that holds values of the run:
    the markup of the text is parsed, and a closing tag without its
    opening tag raises [MarkupError] before anything is written.  The
    prints of fixed texts, whose markup is well formed, and what goes to
    standard output are not modelled. *)
Definition rich_print (text : string) : M unit := fun w =>
  match w_markup w text with
  | Some msg => (w, inl (LibraryError msg))
  | None => (w, inr tt)
  end.

(** [print(text, file=sys.stderr)] *)
Definition rich_print_stderr (text : string) : M unit := fun w =>
  match w_markup w text with
  | Some msg => (w, inl (LibraryError msg))
  | None => (log_stderr text w, inr tt)
  end.

(** ** File-system calls *)

Module OS.

Definition start (w : World) (p : Path) : Loc :=
  if p_abs p then [] else w_cwd w.

(** Walks [parts] from [cur], each component having to be an existing
    directory; [..] climbs. *)
Fixpoint walk (fs : FS) (cur : Loc) (parts : list string) : Exn + Loc :=
  match parts with
  | [] => inr cur
  | x :: rest =>
      if decide (x = "..") then walk fs (removelast cur) rest
      else match node_at fs (cur ++ [x]) with
           | Some Dir => walk fs (cur ++ [x]) rest
           | Some (File _ _) => inl (NotADirectoryError "Not a directory")
           | None => inl (FileNotFoundError "No such file or directory")
           end
  end.

(** Where the last component of a path would live: the location of its
    parent directory and its name; [None] for a path without parts. *)
Definition split_last (parts : list string) : option (list string * string) :=
  match List.rev parts with
  | [] => None
  | x :: r => Some (List.rev r, x)
  end.

(** [os.stat(p)]: the node a path leads to *)
Definition stat (w : World) (p : Path) : Exn + (Loc * Node) :=
  match split_last (p_parts p) with
  | None => inr (start w p, Dir)
  | Some (init, name) =>
      match walk (w_fs w) (start w p) init with
      | inl e => inl e
      | inr d =>
          if decide (name = "..") then inr (removelast d, Dir)
          else match node_at (w_fs w) (d ++ [name]) with
               | Some n => inr (d ++ [name], n)
               | None => inl (FileNotFoundError "No such file or directory")
               end
      end
  end.

(** [p.exists()] *)
Definition exists_ (w : World) (p : Path) : bool :=
  match stat w p with inr _ => true | inl _ => false end.

(** [p.is_dir()] *)
Definition is_dir (w : World) (p : Path) : bool :=
  match stat w p with inr (_, Dir) => true | _ => false end.

(** [os.mkdir(p)] *)
Definition mkdir (p : Path) : M unit := fun w =>
  match split_last (p_parts p) with
  | None => (w, inl (FileExistsError "File exists"))
  | Some (init, name) =>
      match walk (w_fs w) (start w p) init with
      | inl e => (w, inl e)
      | inr d =>
          if decide (name = "..") then (w, inl (FileExistsError "File exists"))
          else match node_at (w_fs w) (d ++ [name]) with
               | Some _ => (w, inl (FileExistsError "File exists"))
               | None => (set_fs (<[d ++ [name] := Dir]> (w_fs w)) w, inr tt)
               end
      end
  end.

(** [open(p, "wb")]: creates or truncates a regular file and gives its
    location as the handle. *)
Definition open_wb (p : Path) : M Loc := fun w =>
  match split_last (p_parts p) with
  | None => (w, inl (IsADirectoryError "Is a directory"))
  | Some (init, name) =>
      match walk (w_fs w) (start w p) init with
      | inl e => (w, inl e)
      | inr d =>
          if decide (name = "..") then (w, inl (IsADirectoryError "Is a directory"))
          else match node_at (w_fs w) (d ++ [name]) with
               | Some Dir => (w, inl (IsADirectoryError "Is a directory"))
               | Some (File _ m) =>
                   (set_fs (<[d ++ [name] := File "" m]> (w_fs w)) w, inr (d ++ [name]))
               | None =>
                   (set_fs (<[d ++ [name] := File "" (Z.land 438 (Z.lnot (w_umask w)))]>
                              (w_fs w)) w, inr (d ++ [name]))
               end
      end
  end.

(** [f.write(data)] on a handle, then closing it *)
Definition write (h : Loc) (data : string) : M unit := fun w =>
  match w_fs w !! h with
  | Some (File _ m) => (set_fs (<[h := File data m]> (w_fs w)) w, inr tt)
  | _ => (w, inr tt)
  end.

(** [os.chmod(p, mode)]; the mode of a directory is not recorded *)
Definition chmod (p : Path) (mode : Z) : M unit := fun w =>
  match stat w p with
  | inl e => (w, inl e)
  | inr (l, File c _) => (set_fs (<[l := File c mode]> (w_fs w)) w, inr tt)
  | inr (_, Dir) => (w, inr tt)
  end.

End OS.

(** The handler [except OSError: if not exist_ok or not self.is_dir():
    raise] of [Path.mkdir] *)
Definition mkdir_except_OSError (exist_ok : bool) (self : Path) (e : Exn) : M unit :=
  fun w =>
    if is_OSError e then
      if negb exist_ok || negb (OS.is_dir w self) then (w, inl e) else (w, inr tt)
    else (w, inl e).

(** [self.mkdir(mode, parents=False, exist_ok=exist_ok)] *)
Definition Path_mkdir_flat (exist_ok : bool) (self : Path) : M unit :=
  fun w =>
    match OS.mkdir self w with
    | (w', inr tt) => (w', inr tt)
    | (w', inl (FileNotFoundError m)) => (w', inl (FileNotFoundError m))
    | (w', inl e) => mkdir_except_OSError exist_ok self e w'
    end.

(** [p.mkdir(parents=..., exist_ok=...)], on the reversed parts of [p] so
    that the recursion on [p.parent] is structural.  [self.parent == self]
    holds exactly when there are no parts. *)
Fixpoint Path_mkdir_rev (parents exist_ok : bool) (abs : bool) (rparts : list string)
  : M unit :=
  fun w =>
    let self := mkPath abs (List.rev rparts) in
    match OS.mkdir self w with
    | (w', inr tt) => (w', inr tt)
    | (w', inl (FileNotFoundError m)) =>
        match rparts with
        | [] => (w', inl (FileNotFoundError m))
        | _ :: rparent =>
            if parents then
              (Path_mkdir_rev true true abs rparent ;;; Path_mkdir_flat exist_ok self) w'
            else (w', inl (FileNotFoundError m))
        end
    | (w', inl e) => mkdir_except_OSError exist_ok self e w'
    end.

Definition Path_mkdir (parents exist_ok : bool) (p : Path) : M unit :=
  Path_mkdir_rev parents exist_ok (p_abs p) (List.rev (p_parts p)).

(** [p.write_text(data, encoding=...)]: the file is opened for writing
    (a path with an embedded NUL is refused), then the text is encoded and
    written; [ascii] refuses any byte above 127, leaving the opened file
    empty. *)
Inductive Encoding := Utf8 | AsciiEnc.

Fixpoint is_ascii_str (s : string) : bool :=
  match s with
  | EmptyString => true
  | String a t => (nat_of_ascii a <? 128)%nat && is_ascii_str t
  end.

Definition Path_write_text (p : Path) (data : string) (enc : Encoding) : M unit :=
  if has_nul p then raise embedded_null
  else
    f <- OS.open_wb p ;;
    match enc with
    | AsciiEnc =>
        if is_ascii_str data then OS.write f data
        else raise (UnicodeEncodeError "'ascii' codec can't encode character")
    | Utf8 => OS.write f data
    end.

(** [for x in l: body(x)] *)
Fixpoint for_each {A} (l : list A) (body : A -> M unit) : M unit :=
  match l with
  | [] => ret tt
  | x :: r => body x ;;; for_each r body
  end.

(** ** Archive extraction *)

Module Tar.

Definition isdir (m : TarInfo) : bool :=
  match tm_type m with DIRTYPE => true | _ => false end.

(** [isfile()] is [isreg()]: the type is one of [REGULAR_TYPES] *)
Definition isfile (m : TarInfo) : bool :=
  match tm_type m with
  | REGTYPE | AREGTYPE | CONTTYPE | GNUTYPE_SPARSE => true
  | _ => false
  end.

Definition issym (m : TarInfo) : bool :=
  match tm_type m with SYMTYPE => true | _ => false end.

Definition islnk (m : TarInfo) : bool :=
  match tm_type m with LNKTYPE => true | _ => false end.

(** [tf.extractfile(m)] for a member that is not a link: a reader for a
    regular member, [None] for the other types. *)
Definition extractfile (m : TarInfo) : option (Exn + string) :=
  if isfile m then Some (tm_data m) else None.

End Tar.

(** The first loop of [_extract_tar_to]: the prefix given by the first
    directory member. *)
Fixpoint tar_prefix (members : list TarInfo) : option string :=
  match members with
  | [] => None
  | m :: rest =>
      if Tar.isdir m then Some (PyStr.rstrip "/" (tm_name m) +:+ "/")
      else tar_prefix rest
  end.

(** The path computed for a member in the second loop, up to the test
    [_is_within]; [None] when the member is passed over before. *)
Definition tar_out (prefix : string) (dst : Path) (m : TarInfo) : option Path :=
  if negb (PyStr.startswith prefix (tm_name m)) then None
  else
    let rel := PyStr.drop (String.length prefix) (tm_name m) in
    if negb (PyStr.nonempty rel) then None
    else Some (path_div dst rel).

(** The body of the second loop of [_extract_tar_to] *)
Definition extract_tar_member (prefix : string) (dst : Path) (m : TarInfo) : M unit :=
  match tar_out prefix dst m with
  | None => ret tt
  | Some out =>
      w <- get_world ;;
      if negb (_is_within (w_cwd w) dst out) then ret tt
      else if Tar.issym m || Tar.islnk m then ret tt
      else if Tar.isdir m then Path_mkdir true true out
      else if Tar.isfile m then
        Path_mkdir true true (path_parent out) ;;;
        match Tar.extractfile m with
        | None => ret tt
        | Some src =>
            f <- OS.open_wb out ;;
            data <- lift_result src ;;
            OS.write f data ;;;
            try_except (OS.chmod out (Z.land (tm_mode m) 511)) (fun _ => ret tt)
        end
      else ret tt
  end.

Definition _extract_tar_to (tf : list TarInfo) (dst : Path) : M unit :=
  match tar_prefix tf with
  | None =>
      raise (RuntimeError "tarの解凍時にエラー: 構造が不正です。")
  | Some prefix => for_each tf (extract_tar_member prefix dst)
  end.

Module Zip.

(** [zf.namelist()] *)
Definition namelist (zf : list ZipInfo) : list string := map z_filename zf.

(** [zf.getinfo(name)]: the archive's name table keeps the last entry
    added under a name. *)
Definition getinfo (zf : list ZipInfo) (name : string) : option ZipInfo :=
  List.find (fun z => String.eqb (z_filename z) name) (List.rev zf).

(** The Unix file type kept in the high half of [external_attr] says
    symbolic link ([S_IFLNK]); this is how archivers record links. *)
Definition is_symlink (z : ZipInfo) : bool :=
  Z.eqb (Z.land (Z.shiftr (z_external_attr z) 16) 61440) 40960.

End Zip.

(** [name.split('/',1)[0]+'/'] *)
Definition zip_root_of (name : string) : string := PyStr.before_first "/" name +:+ "/".

(** [sorted({name.split('/',1)[0]+'/' for name in names if '/' in name})] *)
Definition zip_roots (names : list string) : list string :=
  merge_sort String.le
    (remove_dups (map zip_root_of (List.filter (PyStr.contains "/") names))).

(** All names lie under one and the same top-level segment; stated for
    comparison with [zip_prefix]. *)
Definition common_top_level (names : list string) : bool :=
  match names with
  | [] => false
  | n :: _ =>
      forallb (fun m => PyStr.contains "/" m
                        && String.eqb (zip_root_of m) (zip_root_of n)) names
  end.

(** [roots[0] if roots else ''] *)
Definition zip_prefix (names : list string) : string :=
  match zip_roots names with
  | r :: _ => r
  | [] => EmptyString
  end.

(** The relative name computed for an entry; [None] when the entry is
    passed over before a path is built. *)
Definition zip_rel (prefix name : string) : option string :=
  if PyStr.nonempty prefix && negb (PyStr.startswith prefix name) then None
  else
    let rel := PyStr.drop (String.length prefix) name in
    if negb (PyStr.nonempty rel) then None else Some rel.

(** The body of the loop of [_extract_zip_to] *)
Definition extract_zip_entry (zf : list ZipInfo) (prefix : string) (dst : Path)
    (name : string) : M unit :=
  match zip_rel prefix name with
  | None => ret tt
  | Some rel =>
      w <- get_world ;;
      l <- lift_result (Path_resolve (w_cwd w) (path_div dst rel)) ;;
      let out := mkPath true l in
      if negb (_is_within (w_cwd w) dst out) then ret tt
      else if PyStr.endswith "/" name then Path_mkdir true true out
      else
        Path_mkdir true true (path_parent out) ;;;
        match Zip.getinfo zf name with
        | None => raise (KeyError name)
        | Some info =>
            match z_data info with
            | ZipOpenFails e => raise e
            | ZipReadFails e => OS.open_wb out ;;; raise e
            | ZipBytes data => f <- OS.open_wb out ;; OS.write f data
            end ;;;
            let perm := Z.land (Z.shiftr (z_external_attr info) 16) 511 in
            if Z.eqb perm 0 then ret tt
            else try_except (OS.chmod out perm) (fun _ => ret tt)
        end
  end.

Definition _extract_zip_to (zf : list ZipInfo) (dst : Path) : M unit :=
  let prefix := zip_prefix (Zip.namelist zf) in
  for_each (Zip.namelist zf) (extract_zip_entry zf prefix dst).

(** ** HTTP *)

(** A header is sent when its value is given and not empty. *)
Definition header (v : option string) : option string :=
  match v with
  | Some s => if PyStr.nonempty s then Some s else None
  | None => None
  end.

(** [_http(url, accept, token)]: one call of [urlopen], whose request
    carries the [User-Agent] header [UA]; the call is noted in
    [w_requests], and what [urlopen] sends for it, the redirections it
    follows included, in [w_sent]. *)
Definition _http (url : string) (accept token : option string) : M Body := fun w =>
  let rq := {| rq_url := url; rq_user_agent := UA;
               rq_accept := header accept; rq_token := header token |} in
  match w_net w (List.length (w_requests w)) rq with
  | HttpFails e => (log_request rq w, inl e)
  | HttpOk b => (log_request rq w, inr b)
  end.

(** [_json(url, token)] *)
Definition _json (url : string) (token : option string) : M Json :=
  r <- _http url (Some "application/vnd.github+json") token ;;
  lift_result (body_json r).

(** [_read(url)] *)
Definition _read (url : string) : M Body := _http url None None.

(** ** Python values *)

Definition py_truthy (v : PyVal) : bool :=
  match v with
  | PyStr s => PyStr.nonempty s
  | PyList e _ _ => negb e
  | PyAtom t _ => t
  end.

(** [str(v)], as an f-string formats it *)
Definition py_str (v : PyVal) : string :=
  match v with
  | PyStr s => s
  | PyList _ t _ => t
  | PyAtom _ t => t
  end.

Definition PyNone : PyVal := PyAtom false "None".

Fixpoint assoc (k : string) (items : list (string * PyVal)) : option PyVal :=
  match items with
  | [] => None
  | (k', v) :: r => if String.eqb k k' then Some v else assoc k r
  end.

(** [meta.get(k)] *)
Definition json_get (j : Json) (k : string) : Exn + PyVal :=
  match j with
  | JObject items => inr (default PyNone (assoc k items))
  | JValue _ => inl (AttributeError "object has no attribute 'get'")
  end.

(** [tip[k]] *)
Definition json_index (j : Json) (k : string) : Exn + PyVal :=
  match j with
  | JObject items =>
      match assoc k items with
      | Some v => inr v
      | None => inl (KeyError k)
      end
  | JValue _ => inl (TypeError "indices must be integers")
  end.

(** Whether [v[:12]] can be evaluated *)
Definition py_sliceable (v : PyVal) : Exn + unit :=
  match v with
  | PyStr _ | PyList _ _ _ => inr tt
  | PyAtom _ _ => inl (TypeError "object is not subscriptable")
  end.

(** [v[:12]] as an f-string formats it: twelve characters of a string,
    the slice of a list; other values cannot be sliced. *)
Definition py_head12 (v : PyVal) : Exn + string :=
  match v with
  | PyStr s => inr (PyStr.take_chars 12 s)
  | PyList _ _ h => inr h
  | PyAtom _ _ => inl (TypeError "object is not subscriptable")
  end.

(** [p / v]: only a string can be joined to a path *)
Definition path_div_val (p : Path) (v : PyVal) : Exn + Path :=
  match v with
  | PyStr s => inr (path_div p s)
  | _ => inl (TypeError "unsupported operand type(s) for /")
  end.

(** [v + s] for a string [s] *)
Definition py_add_str (v : PyVal) (s : string) : Exn + string :=
  match v with
  | PyStr t => inr (t +:+ s)
  | _ => inl (TypeError "can only concatenate str to str")
  end.

(** ** Snapshot acquisition *)

Definition codeload (owner repo kind : string) (ref : PyVal) : string :=
  "https://codeload.github.com/" +:+ owner +:+ "/" +:+ repo +:+ "/" +:+ kind
    +:+ "/" +:+ py_str ref.

(** [_download_tar_stream(url, dst)] *)
Definition _download_tar_stream (url : string) (dst : Path) : M unit :=
  resp <- _http url None None ;;
  tf <- lift_result (body_tar_stream resp) ;;
  _extract_tar_to tf dst.

(** The local function [fetch_bytes] of [_download_snapshot] *)
Definition fetch_bytes (url : string) : M Body :=
  data <- _read url ;;
  if body_is_empty data then raise (RuntimeError "空の応答が返されました。")
  else ret data.

(** One [try: ...; return / except Exception as e: errs.append(...)] block:
    a normal end of [m] returns from the function, an [Exception] is noted
    under [label] and the code after the block runs. *)
Definition attempt (m : M unit) (label : string) (errs : list string)
    (next : list string -> M unit) : M unit :=
  fun w =>
    match m w with
    | (w', inr tt) => (w', inr tt)
    | (w', inl e) =>
        if is_Exception e then next (errs ++ [label +:+ ": " +:+ str_exn e]) w'
        else (w', inl e)
    end.

Definition snapshot_failed (errs : list string) : Exn :=
  RuntimeError ("スナップショットのダウンロードに失敗しました: " +:+ PyStr.join "; " errs).

Definition _download_snapshot (dst : Path) (owner repo : string)
    (ref_sha branch_name : PyVal) : M unit :=
  attempt (_download_tar_stream (codeload owner repo "tar.gz" ref_sha) dst)
    "tar.gz(stream)@sha" [] (fun errs =>
  attempt (_download_tar_stream (codeload owner repo "tar.gz" branch_name) dst)
    "tar.gz(stream)@branch" errs (fun errs =>
  attempt (data <- fetch_bytes (codeload owner repo "tar.gz" ref_sha) ;;
           tf <- lift_result (body_tar data) ;;
           _extract_tar_to tf dst)
    "tar.gz@sha" errs (fun errs =>
  attempt (data <- fetch_bytes (codeload owner repo "tar.gz" branch_name) ;;
           tf <- lift_result (body_tar data) ;;
           _extract_tar_to tf dst)
    "tar.gz@branch" errs (fun errs =>
  attempt (data <- fetch_bytes (codeload owner repo "zip" ref_sha) ;;
           zf <- lift_result (body_zip data) ;;
           _extract_zip_to zf dst)
    "zip@sha" errs (fun errs =>
  attempt (data <- fetch_bytes (codeload owner repo "zip" branch_name) ;;
           zf <- lift_result (body_zip data) ;;
           _extract_zip_to zf dst)
    "zip@branch" errs (fun errs =>
  raise (snapshot_failed errs))))))).

(** The six tiers as data, for stating what the cascade does. *)
Inductive Format := TarGz | ZipFmt.
Inductive Mode := Streamed | Buffered.
Inductive Address := CommitId | BranchName.

Record Tier := mkTier { t_format : Format; t_mode : Mode; t_address : Address }.

Definition six_tiers : list Tier :=
  [ mkTier TarGz Streamed CommitId; mkTier TarGz Streamed BranchName;
    mkTier TarGz Buffered CommitId; mkTier TarGz Buffered BranchName;
    mkTier ZipFmt Buffered CommitId; mkTier ZipFmt Buffered BranchName ].

Section Cascade.

Variables (dst : Path) (owner repo : string) (ref_sha branch_name : PyVal).

Definition tier_url (t : Tier) : string :=
  codeload owner repo
    (match t_format t with TarGz => "tar.gz" | ZipFmt => "zip" end)
    (match t_address t with CommitId => ref_sha | BranchName => branch_name end).

Definition tier_label (t : Tier) : string :=
  (match t_format t, t_mode t with
   | TarGz, Streamed => "tar.gz(stream)"
   | TarGz, Buffered => "tar.gz"
   | ZipFmt, _ => "zip"
   end) +:+
  (match t_address t with CommitId => "@sha" | BranchName => "@branch" end).

(** What one tier does: download by its mode, decode by its format, extract. *)
Definition run_tier (t : Tier) : M unit :=
  match t_format t, t_mode t with
  | TarGz, Streamed => _download_tar_stream (tier_url t) dst
  | TarGz, Buffered =>
      data <- fetch_bytes (tier_url t) ;;
      tf <- lift_result (body_tar data) ;;
      _extract_tar_to tf dst
  | ZipFmt, _ =>
      data <- fetch_bytes (tier_url t) ;;
      zf <- lift_result (body_zip data) ;;
      _extract_zip_to zf dst
  end.

(** The request a tier sends *)
Definition tier_request (t : Tier) : Request :=
  {| rq_url := tier_url t; rq_user_agent := UA; rq_accept := None; rq_token := None |}.

(** Trying a list of tiers in order, stopping at the first that ends
    normally, noting each failure. *)
Fixpoint try_tiers (ts : list Tier) (errs : list string) : M unit :=
  match ts with
  | [] => raise (snapshot_failed errs)
  | t :: rest => attempt (run_tier t) (tier_label t) errs (try_tiers rest)
  end.

(** The world after the tiers of [ts] have run one after the other *)
Fixpoint after_tiers (ts : list Tier) (w : World) : World :=
  match ts with
  | [] => w
  | t :: rest => after_tiers rest (fst (run_tier t w))
  end.

(** A tier fails when it raises an [Exception]. *)
Definition tier_fails (t : Tier) (w : World) : bool :=
  match snd (run_tier t w) with
  | inl e => is_Exception e
  | inr _ => false
  end.

Definition tier_succeeds (t : Tier) (w : World) : bool :=
  match snd (run_tier t w) with
  | inl _ => false
  | inr _ => true
  end.

(** Every tier of [ts] fails, each run in the world its predecessor left *)
Fixpoint tiers_fail (ts : list Tier) (w : World) : bool :=
  match ts with
  | [] => true
  | t :: rest => tier_fails t w && tiers_fail rest (fst (run_tier t w))
  end.

(** The failure details of the tiers of [ts], one per tier, in order *)
Fixpoint failure_notes (ts : list Tier) (w : World) : list string :=
  match ts with
  | [] => []
  | t :: rest =>
      match run_tier t w with
      | (w', inl e) => (tier_label t +:+ ": " +:+ str_exn e) :: failure_notes rest w'
      | (w', inr _) => []
      end
  end.

End Cascade.

(** ** Reference resolution from HTML *)

Module Re.

Definition dquote : ascii := "034"%char.
Definition dq : string := String dquote EmptyString.

(** [[0-9a-f]] under [re.I] *)
Definition is_hex (a : ascii) : bool :=
  let n := nat_of_ascii a in
  ((48 <=? n) && (n <=? 57) || (97 <=? n) && (n <=? 102)
   || (65 <=? n) && (n <=? 70))%nat.

(** Two characters of ASCII agree under [re.I] *)
Definition ci_eqb (a b : ascii) : bool :=
  Ascii.eqb (PyStr.lower_ascii a) (PyStr.lower_ascii b).

(** The characters outside ASCII that [re.I] lets a letter of ASCII
    match, in UTF-8: U+0130 and U+0131 for [i], U+212A for [k], U+017F
    for [s]; no other letter of ASCII has any. *)
Definition utf8 (bytes : list nat) : string :=
  string_of_list_ascii (map ascii_of_nat bytes).

Definition folded_to (a : ascii) : list string :=
  let l := PyStr.lower_ascii a in
  if Ascii.eqb l "i" then [utf8 [196; 176]; utf8 [196; 177]]%nat
  else if Ascii.eqb l "k" then [utf8 [226; 132; 170]]%nat
  else if Ascii.eqb l "s" then [utf8 [197; 191]]%nat
  else [].

(** One character of a literal pattern at the start of [s]: what follows
    it in [s] when it matches. *)
Definition literal_char (a : ascii) (s : string) : option string :=
  match s with
  | EmptyString => None
  | String b s' =>
      if ci_eqb a b then Some s'
      else match List.find (fun alt => PyStr.startswith alt s) (folded_to a) with
           | Some alt => Some (PyStr.drop (String.length alt) s)
           | None => None
           end
  end.

(** Matches the literal [lit] at the start of [s], ignoring case; gives
    what follows.  Letters outside ASCII in [lit] are compared as they
    are. *)
Fixpoint literal (lit s : string) : option string :=
  match lit with
  | EmptyString => Some s
  | String a lit' =>
      match literal_char a s with
      | Some s' => literal lit' s'
      | None => None
      end
  end.

(** Exactly [n] hexadecimal characters at the start of [s] *)
Fixpoint hex_exact (n : nat) (s : string) : option (string * string) :=
  match n with
  | O => Some (EmptyString, s)
  | S n' =>
      match s with
      | String a t =>
          if is_hex a then
            match hex_exact n' t with
            | Some (h, rest) => Some (String a h, rest)
            | None => None
            end
          else None
      | EmptyString => None
      end
  end.

(** [([0-9a-f]{n})c]: the group, then the character [c] *)
Definition hex_then (n : nat) (c : ascii) (s : string) : option string :=
  match hex_exact n s with
  | Some (h, String b _) => if Ascii.eqb b c then Some h else None
  | _ => None
  end.

(** [([0-9a-f]{lo,lo+extra})c], greedy: the longest count first *)
Fixpoint hex_range_then (lo extra : nat) (c : ascii) (s : string) : option string :=
  match hex_then (lo + extra) c s with
  | Some h => Some h
  | None =>
      match extra with
      | O => None
      | S extra' => hex_range_then lo extra' c s
      end
  end.

(** [re.search]: the first position of [s] at which [here] matches *)
Fixpoint search (here : string -> option string) (s : string) : option string :=
  match here s with
  | Some g => Some g
  | None =>
      match s with
      | EmptyString => None
      | String _ t => search here t
      end
  end.

(** [href="/OWNER/REPO/commit/([0-9a-f]{40})"] with [re.I]; owner and
    repository are escaped in the pattern, so they match literally. *)
Definition commit_link_here (owner repo : string) (s : string) : option string :=
  match literal ("href=" +:+ String dquote "/" +:+ owner +:+ "/" +:+ repo +:+ "/commit/") s with
  | Some rest => hex_then 40 dquote rest
  | None => None
  end.

Definition search_commit_link (owner repo html : string) : option string :=
  search (commit_link_here owner repo) html.

(** [.*?>([0-9a-f]{7,40})<] with [re.S]: the shortest skip first *)
Definition tease_tail_here (s : string) : option string :=
  match s with
  | String a t => if Ascii.eqb a ">" then hex_range_then 7 33 "<" t else None
  | EmptyString => None
  end.

(** [data-test-selector="commit-tease-sha".*?>([0-9a-f]{7,40})<] with
    [re.I | re.S] *)
Definition commit_tease_here (s : string) : option string :=
  match literal ("data-test-selector=" +:+ String dquote "commit-tease-sha"
                   +:+ String dquote EmptyString) s with
  | Some rest => search tease_tail_here rest
  | None => None
  end.

Definition search_commit_tease (html : string) : option string :=
  search commit_tease_here html.

End Re.

(** The local function [scrape] of [_guess_default_sha_html] *)
Definition scrape (owner repo path : string) : M string :=
  b <- _read ("https://github.com/" +:+ owner +:+ "/" +:+ repo +:+ "/" +:+ path) ;;
  ret (body_text b).

(** [([branch_hint] if branch_hint else []) + ["main","master"]] *)
Definition candidates (branch_hint : option string) : list string :=
  (match branch_hint with
   | Some b => if PyStr.nonempty b then [b] else []
   | None => []
   end) ++ ["main"; "master"].

(** The body of the first loop: the commit-history page of one branch.
    Any [Exception] is swallowed. *)
Definition probe_commits (owner repo b : string) : M (option string) :=
  try_except
    (html <- scrape owner repo ("commits/" +:+ b) ;;
     ret (Re.search_commit_link owner repo html))
    (fun _ => ret None).

(** The body of the second loop: the tree page of one branch *)
Definition probe_tree (owner repo b : string) : M (option string) :=
  try_except
    (html <- scrape owner repo ("tree/" +:+ b) ;;
     ret (Re.search_commit_tease html))
    (fun _ => ret None).

(** [for b in bs: m = probe(b); if m: return b, m] followed by [after] *)
Fixpoint first_branch (probe : string -> M (option string)) (bs : list string)
    (after : M (string * string)) : M (string * string) :=
  match bs with
  | [] => after
  | b :: rest =>
      m <- probe b ;;
      match m with
      | Some sha => ret (b, sha)
      | None => first_branch probe rest after
      end
  end.

Definition _guess_default_sha_html (owner repo : string) (branch_hint : option string)
  : M (string * string) :=
  first_branch (probe_commits owner repo) (candidates branch_hint)
    (first_branch (probe_tree owner repo) (candidates branch_hint)
       (raise (RuntimeError "HTMLから最新SHAを取得できませんでした。"))).

(** A string of hexadecimal digits *)
Definition hex_string (s : string) : Prop := PyStr.all_chars Re.is_hex s = true.

(** The pages of the HTML tier, for stating the order in which they are
    read. *)
Inductive Page :=
| CommitsPage (b : string)
| TreePage (b : string).

Definition page_branch (pg : Page) : string :=
  match pg with CommitsPage b | TreePage b => b end.

Definition probe_page (owner repo : string) (pg : Page) : M (option string) :=
  match pg with
  | CommitsPage b => probe_commits owner repo b
  | TreePage b => probe_tree owner repo b
  end.

(** The commit-history pages of all candidates, then their tree pages *)
Definition pages_in_order (branch_hint : option string) : list Page :=
  map CommitsPage (candidates branch_hint) ++ map TreePage (candidates branch_hint).

Definition resolution_failed : Exn :=
  RuntimeError "HTMLから最新SHAを取得できませんでした。".

(** The first page of a list that yields a match decides; none: failure. *)
Fixpoint first_page (owner repo : string) (pgs : list Page) : M (string * string) :=
  match pgs with
  | [] => raise resolution_failed
  | pg :: rest =>
      m <- probe_page owner repo pg ;;
      match m with
      | Some sha => ret (page_branch pg, sha)
      | None => first_page owner repo rest
      end
  end.

(** The order as the specification words it, for comparison: branch by
    branch, the commit-history page of a branch and then its tree page. *)
Definition pages_branch_by_branch (branch_hint : option string) : list Page :=
  flat_map (fun b => [CommitsPage b; TreePage b]) (candidates branch_hint).

(** ** Repository locator *)

(** [urllib.parse.urlparse], as far as the locator depends on it.  The
    checks of the host part that only reject further inputs with
    [ValueError] (normalisation of the host, contents of a bracketed host)
    are not modelled. *)
Module Url.

Record ParseResult := mkParseResult {
  scheme : string; netloc : string; path : string;
  params : string; query : string; fragment : string
}.

Definition is_c0_or_space (a : ascii) : bool := (nat_of_ascii a <=? 32)%nat.

Fixpoint lstrip_c0 (s : string) : string :=
  match s with
  | String a t => if is_c0_or_space a then lstrip_c0 t else s
  | EmptyString => EmptyString
  end.

(** Tab, line feed and carriage return are removed wherever they are. *)
Fixpoint remove_unsafe (s : string) : string :=
  match s with
  | EmptyString => EmptyString
  | String a t =>
      let n := nat_of_ascii a in
      if ((n =? 9) || (n =? 10) || (n =? 13))%nat then remove_unsafe t
      else String a (remove_unsafe t)
  end.

Definition is_alpha (a : ascii) : bool :=
  let n := nat_of_ascii a in
  ((65 <=? n) && (n <=? 90) || (97 <=? n) && (n <=? 122))%nat.

Definition is_scheme_char (a : ascii) : bool :=
  let n := nat_of_ascii a in
  (is_alpha a || (48 <=? n) && (n <=? 57) || (n =? 43) || (n =? 45) || (n =? 46))%nat.

Fixpoint all_chars (f : ascii -> bool) (s : string) : bool :=
  match s with
  | EmptyString => true
  | String a t => f a && all_chars f t
  end.

(** [s.split(c, 1)]: the text before the first [c], and the text after
    it when there is one *)
Fixpoint split1 (c : ascii) (s : string) : string * option string :=
  match s with
  | EmptyString => (EmptyString, None)
  | String a t =>
      if Ascii.eqb a c then (EmptyString, Some t)
      else let '(h, r) := split1 c t in (String a h, r)
  end.

(** The scheme, when the text before the first colon is one *)
Definition split_scheme (url : string) : string * string :=
  match split1 ":" url with
  | (String a pre, Some rest) =>
      if is_alpha a && PyStr.all_chars is_scheme_char (String a pre)
      then (PyStr.lower (String a pre), rest)
      else (EmptyString, url)
  | _ => (EmptyString, url)
  end.

(** [_splitnetloc(url, 2)] on the text after the two slashes: up to the
    first of [/], [?], [#] *)
Fixpoint split_netloc (s : string) : string * string :=
  match s with
  | EmptyString => (EmptyString, EmptyString)
  | String a t =>
      if Ascii.eqb a "/" || Ascii.eqb a "?" || Ascii.eqb a "#" then (EmptyString, s)
      else let '(h, r) := split_netloc t in (String a h, r)
  end.

(** [_splitparams]: the path up to the first [;] of its last segment *)
Fixpoint cut_params (s : string) : string * string :=
  match s with
  | EmptyString => (EmptyString, EmptyString)
  | String a t =>
      if PyStr.contains "/" t then let '(h, r) := cut_params t in (String a h, r)
      else if Ascii.eqb a ";" then (EmptyString, t)
      else let '(h, r) := cut_params t in (String a h, r)
  end.

Definition uses_params : list string :=
  [ EmptyString; "ftp"; "hdl"; "prospero"; "http"; "imap"; "https"; "shttp";
    "rtsp"; "rtspu"; "sip"; "sips"; "mms"; "sftp"; "tel" ].

Definition urlparse (url : string) : Exn + ParseResult :=
  let url := remove_unsafe (lstrip_c0 url) in
  let '(scheme, url) := split_scheme url in
  let '(netloc, url) :=
    match url with
    | String "/" (String "/" rest) => split_netloc rest
    | _ => (EmptyString, url)
    end in
  if xorb (PyStr.contains "[" netloc) (PyStr.contains "]" netloc)
  then inl (LibraryError "Invalid IPv6 URL")
  else
    let '(url, fragment) := split1 "#" url in
    let '(url, query) := split1 "?" url in
    let '(url, params) :=
      if existsb (String.eqb scheme) uses_params && PyStr.contains ";" url
      then cut_params url else (url, EmptyString) in
    inr {| scheme := scheme; netloc := netloc; path := url; params := params;
           query := default EmptyString query;
           fragment := default EmptyString fragment |}.

End Url.

(** [_owner_repo(url)] *)
Definition _owner_repo (url : string) : Exn + (string * string) :=
  match Url.urlparse url with
  | inl e => inl e
  | inr u =>
      if negb (PyStr.has_substring "github.com" (PyStr.lower (Url.netloc u)))
      then inl (SystemExit (inl "GitHub HTTPS URLのみ対応しています。"))
      else
        let parts := List.filter PyStr.nonempty (PyStr.split "/" (Url.path u)) in
        match List.rev parts with
        | last :: before :: _ =>
            let owner := before in
            let repo := last in
            let repo :=
              if PyStr.endswith ".git" repo
              then PyStr.take (String.length repo - 4) repo else repo in
            inr (owner, repo)
        | _ => inl (SystemExit (inl "不正なURLです。"))
        end
  end.

(** ** Git skeleton *)

Definition nl : string := String "010"%char EmptyString.
Definition tab : string := String "009"%char EmptyString.

(** The configuration text, after [lstrip()] has removed its leading line
    break *)
Definition git_config (remote_url : string) (default_branch : PyVal) : string :=
  "[core]" +:+ nl +:+
  tab +:+ "repositoryformatversion = 0" +:+ nl +:+
  tab +:+ "filemode = true" +:+ nl +:+
  tab +:+ "bare = false" +:+ nl +:+
  tab +:+ "logallrefupdates = true" +:+ nl +:+
  "[remote " +:+ Re.dq +:+ "origin" +:+ Re.dq +:+ "]" +:+ nl +:+
  tab +:+ "url = " +:+ remote_url +:+ nl +:+
  tab +:+ "fetch = +refs/heads/*:refs/remotes/origin/*" +:+ nl +:+
  tab +:+ "promisor = true" +:+ nl +:+
  tab +:+ "partialclonefilter = blob:none" +:+ nl +:+
  "[remote " +:+ Re.dq +:+ "upstream" +:+ Re.dq +:+ "]" +:+ nl +:+
  tab +:+ "url = " +:+ remote_url +:+ nl +:+
  tab +:+ "fetch = +refs/heads/*:refs/remotes/upstream/*" +:+ nl +:+
  tab +:+ "promisor = true" +:+ nl +:+
  tab +:+ "partialclonefilter = blob:none" +:+ nl +:+
  "[branch " +:+ Re.dq +:+ py_str default_branch +:+ Re.dq +:+ "]" +:+ nl +:+
  tab +:+ "remote = origin" +:+ nl +:+
  tab +:+ "merge = refs/heads/" +:+ py_str default_branch +:+ nl +:+
  "[extensions]" +:+ nl +:+
  tab +:+ "partialClone = origin" +:+ nl.

(** One line [(base / default_branch).write_text(head_sha + "\n",
    encoding="ascii")]: the path is built, then the text, then the file
    is written. *)
Definition write_ref (base : Path) (default_branch head_sha : PyVal) : M unit :=
  p <- lift_result (path_div_val base default_branch) ;;
  text <- lift_result (py_add_str head_sha nl) ;;
  Path_write_text p text AsciiEnc.

Definition _write_git_skeleton (dst : Path) (remote_url : string)
    (default_branch head_sha : PyVal) : M unit :=
  let git := path_div dst ".git" in
  Path_mkdir true true (path_div git "refs/heads") ;;;
  Path_mkdir true true (path_div git "refs/remotes/origin") ;;;
  Path_mkdir true true (path_div git "refs/remotes/upstream") ;;;
  Path_mkdir true true (path_div git "objects/info") ;;;
  Path_write_text (path_div git "HEAD")
    ("ref: refs/heads/" +:+ py_str default_branch +:+ nl) Utf8 ;;;
  write_ref (path_div git "refs/heads") default_branch head_sha ;;;
  write_ref (path_div git "refs/remotes/origin") default_branch head_sha ;;;
  write_ref (path_div git "refs/remotes/upstream") default_branch head_sha ;;;
  Path_write_text (path_div git "config") (git_config remote_url default_branch) Utf8 ;;;
  Path_write_text (path_div git "objects/info/promisor") ("promisor" +:+ nl) Utf8.

(** ** The whole run *)

(** The reference resolver of [bootstrap], API tier: the default branch,
    then the commit at its tip, then the line that shows both, all inside
    the [try] block. *)
Definition resolve_api (owner repo : string) (token : option string)
  : M (PyVal * PyVal) :=
  meta <- _json ("https://api.github.com/repos/" +:+ owner +:+ "/" +:+ repo) token ;;
  v <- lift_result (json_get meta "default_branch") ;;
  let default_branch := if py_truthy v then v else PyStr "master" in
  tip <- _json ("https://api.github.com/repos/" +:+ owner +:+ "/" +:+ repo
                  +:+ "/commits/" +:+ py_str default_branch) token ;;
  head_sha <- lift_result (json_index tip "sha") ;;
  shown <- lift_result (py_head12 head_sha) ;;
  rich_print ("[purple](i)[/purple] default_branch: " +:+ py_str default_branch
                +:+ ", head: " +:+ shown +:+ "… (APIで取得)") ;;;
  ret (default_branch, head_sha).

(** The [try] / [except Exception] of [bootstrap]: the API tier, and the
    HTML tier when it raises. *)
Definition resolve_ref (owner repo : string) : M (PyVal * PyVal) :=
  w <- get_world ;;
  try_except (resolve_api owner repo (w_token w))
    (fun _ =>
       r <- _guess_default_sha_html owner repo None ;;
       rich_print ("[purple](i)[/purple] default_branch: " +:+ fst r
                     +:+ ", head: " +:+ PyStr.take_chars 12 (snd r)
                     +:+ "… (HTMLで取得)") ;;;
       ret (PyStr (fst r), PyStr (snd r))).

Definition bootstrap (repo_url : string) (dst : Path) : M unit :=
  o <- lift_result (_owner_repo repo_url) ;;
  let '(owner, repo) := o in
  rich_print ("[purple](i)[/purple] owner: " +:+ owner +:+ ", repo: " +:+ repo) ;;;
  r <- resolve_ref owner repo ;;
  let '(default_branch, head_sha) := r in
  _download_snapshot dst owner repo head_sha default_branch ;;;
  _write_git_skeleton dst repo_url default_branch head_sha.

Record Args := mkArgs { a_url : string; a_target : string; a_force : bool }.

(** [l] lies strictly below [base] *)
Definition strictly_under (base l : Loc) : bool :=
  (List.length base <? List.length l)%nat
  && bool_decide (List.firstn (List.length base) l = base).

(** The two loops of [main] under [--force]: every file below the
    destination is unlinked, then every directory below it is removed,
    deepest first. *)
Definition clear_tree (dst : Path) : M unit := fun w =>
  match OS.stat w dst with
  | inr (l, Dir) =>
      let files_gone :=
        filter (fun kv : Loc * Node =>
                  (strictly_under l kv.1 && bool_decide (kv.2 ≠ Dir)) = false) (w_fs w) in
      let dirs_gone :=
        filter (fun kv : Loc * Node => strictly_under l kv.1 = false) files_gone in
      (set_fs dirs_gone w, inr tt)
  | _ => (w, inr tt)
  end.

(** The beginning of [main]: an existing destination is refused without
    [--force] (the line that says so is printed first, and [rich] may
    refuse it) and emptied with it; then the destination is created. *)
Definition prepare_destination (args : Args) : M Path :=
  let dst := parse_path (a_target args) in
  w <- get_world ;;
  (if OS.exists_ w dst then
     if negb (a_force args) then
       rich_print_stderr ("[yellow](!)[/yellow] ディレクトリが既に存在しています: "
                            +:+ path_str dst) ;;;
       raise (SystemExit (inr 1))
     else clear_tree dst
   else ret tt) ;;;
  Path_mkdir true true dst ;;;
  ret dst.

(** The handler [except Exception as e] of [main] *)
Definition report_failure (e : Exn) : M unit :=
  modify (log_stderr ("[red](!)[/red] 例外が発生しました: " +:+ str_exn e)) ;;;
  raise (SystemExit (inr 2)).

Definition main (args : Args) : M unit :=
  dst <- prepare_destination args ;;
  try_except (bootstrap (a_url args) dst) report_failure.

(** The branch and commit a run resolves, when it gets that far *)
Definition resolved_by_run (args : Args) (w : World) : option (PyVal * PyVal) :=
  match prepare_destination args w with
  | (w1, inr _) =>
      match _owner_repo (a_url args) with
      | inr (owner, repo) =>
          match (rich_print ("[purple](i)[/purple] owner: " +:+ owner +:+ ", repo: "
                               +:+ repo) ;;;
                 resolve_ref owner repo) w1 with
          | (_, inr r) => Some r
          | (_, inl _) => None
          end
      | inl _ => None
      end
  | (_, inl _) => None
  end.

(** The exit status of the process: 0 when [main] returns, the argument
    of [sys.exit], and 1 for [SystemExit] raised with a message (which is
    printed) or for an exception nobody caught. *)
Definition run (args : Args) (w : World) : World * Z :=
  match main args w with
  | (w', inr tt) => (w', 0)
  | (w', inl (SystemExit (inr n))) => (w', n)
  | (w', inl (SystemExit (inl msg))) => (log_stderr msg w', 1)
  | (w', inl e) => (log_stderr ("Traceback (most recent call last): " +:+ str_exn e) w', 1)
  end.

(** The segments of a branch name that stays below the directory it is
    joined to: a relative path, not empty, without [..] *)
Definition branch_segments (b : string) : option (list string) :=
  let p := parse_path b in
  if p_abs p || bool_decide (p_parts p = []) || bool_decide (".." ∈ p_parts p)
  then None else Some (p_parts p).

(** The content of the regular file at a location *)
Definition content_at (w : World) (l : Loc) : option string :=
  match w_fs w !! l with
  | Some (File c _) => Some c
  | _ => None
  end.

(** ** What stays true of the file system *)

(** Every entry of [fs] is still there in [fs'], with its kind. *)
Definition same_kind (n n' : Node) : bool :=
  match n, n' with
  | Dir, Dir => true
  | File _ _, File _ _ => true
  | _, _ => false
  end.

Definition fs_le (fs fs' : FS) : Prop :=
  forall l n, fs !! l = Some n -> exists n', fs' !! l = Some n' /\ same_kind n n' = true.

(** Only the file system changed, and nothing was removed from it: the
    environment, the libraries' answers and what was requested, sent and
    printed are the same. *)
Definition grows (w w' : World) : Prop :=
  w_cwd w' = w_cwd w /\ w_umask w' = w_umask w /\ w_token w' = w_token w
  /\ (w_net w' = w_net w /\ w_redirects w' = w_redirects w /\ w_markup w' = w_markup w)
  /\ (w_requests w' = w_requests w /\ w_sent w' = w_sent w)
  /\ w_stderr w' = w_stderr w
  /\ fs_le (w_fs w) (w_fs w').

(** A path segment: not empty, without a slash *)
Definition seg_ok (x : string) : bool :=
  PyStr.nonempty x && negb (PyStr.contains "/" x).

(** A normalised location: segments, none of them [..] *)
Definition loc_ok (l : Loc) : Prop :=
  Forall (fun x => seg_ok x = true /\ x <> "..") l.

(** Every entry lies in a directory. *)
Definition fs_wf (fs : FS) : Prop :=
  forall l x n, fs !! (l ++ [x]) = Some n -> node_at fs l = Some Dir.

(** At [l] nothing changed, or a directory appeared where nothing was. *)
Definition same_or_new_dir (fs fs' : FS) (l : Loc) : Prop :=
  fs' !! l = fs !! l \/ (fs !! l = None /\ fs' !! l = Some Dir).

(** From a world whose working directory is [cwd0]: it stays, and
    outside [B] nothing changes but for directories that appear. *)
Definition outside_dirs_only (cwd0 B : Loc) (w w' : World) : Prop :=
  w_cwd w = cwd0 ->
  w_cwd w' = cwd0
  /\ forall l, strictly_under B l = false -> same_or_new_dir (w_fs w) (w_fs w') l.

(** From a world whose working directory is [cwd0], whose file system is
    well formed and holds the directory [B]: all this stays, and outside
    [B] nothing changes. *)
Definition outside_unchanged (cwd0 B : Loc) (w w' : World) : Prop :=
  w_cwd w = cwd0 -> fs_wf (w_fs w) -> node_at (w_fs w) B = Some Dir ->
  w_cwd w' = cwd0 /\ fs_wf (w_fs w') /\ node_at (w_fs w') B = Some Dir
  /\ forall l, strictly_under B l = false -> w_fs w' !! l = w_fs w !! l.

(** The working directory is the same. *)
Definition same_cwd (w w' : World) : Prop := w_cwd w' = w_cwd w.

(** A computation all of whose runs relate the world before and after by [R] *)
Definition preserves (R : World -> World -> Prop) {A} (m : M A) : Prop :=
  forall w w' r, m w = (w', r) -> R w w'.

(** ** Sample worlds *)

Module Sample.

Definition sha : string := "deadbeefdeadbeefdeadbeefdeadbeefdeadbeef".

Definition not_found : Response := HttpFails (LibraryError "HTTP Error 404: Not Found").

Definition tar_body (streamed buffered : list TarInfo) : Body :=
  {| body_is_empty := false; body_text := EmptyString;
     body_json := inl (LibraryError "Expecting value");
     body_tar_stream := inr streamed;
     body_tar := inr buffered;
     body_zip := inl (LibraryError "File is not a zip file") |}.

Definition zip_body (zf : list ZipInfo) : Body :=
  {| body_is_empty := false; body_text := EmptyString;
     body_json := inl (LibraryError "Expecting value");
     body_tar_stream := inl (LibraryError "not a gzip file");
     body_tar := inl (LibraryError "not a gzip file");
     body_zip := inr zf |}.

Definition json_body (j : Json) : Body :=
  {| body_is_empty := false; body_text := EmptyString;
     body_json := inr j;
     body_tar_stream := inl (LibraryError "not a gzip file");
     body_tar := inl (LibraryError "not a gzip file");
     body_zip := inl (LibraryError "File is not a zip file") |}.

Definition html_body (html : string) : Body :=
  {| body_is_empty := false; body_text := html;
     body_json := inl (LibraryError "Expecting value");
     body_tar_stream := inl (LibraryError "not a gzip file");
     body_tar := inl (LibraryError "not a gzip file");
     body_zip := inl (LibraryError "File is not a zip file") |}.

(** A home directory [/home/u] holding an empty directory [widget] *)
Definition home_fs : FS :=
  {[ ["home"] := Dir; ["home"; "u"] := Dir; ["home"; "u"; "widget"] := Dir ]}.

Definition world (fs : FS) (net : nat -> Request -> Response) : World :=
  {| w_fs := fs; w_cwd := ["home"; "u"]; w_umask := 18; w_token := None;
     w_net := net; w_redirects := fun _ _ => []; w_markup := fun _ => None;
     w_requests := []; w_sent := []; w_stderr := [] |}.

Definition widget : Path := parse_path "widget".

(** The usual snapshot: one top directory, a directory and a file in it *)
Definition snapshot : list TarInfo :=
  [ mkTarInfo "widget-deadbee/" DIRTYPE 493 (inr EmptyString);
    mkTarInfo "widget-deadbee/src/" DIRTYPE 493 (inr EmptyString);
    mkTarInfo "widget-deadbee/src/a.txt" REGTYPE 420 (inr "hello") ].

(** The same archive as the streamed reader hands it over when the data
    of its members can no longer be reached, with one more file *)
Definition snapshot_unreadable : list TarInfo :=
  [ mkTarInfo "widget-deadbee/" DIRTYPE 493 (inr EmptyString);
    mkTarInfo "widget-deadbee/old/" DIRTYPE 493 (inr EmptyString);
    mkTarInfo "widget-deadbee/old/b.txt" REGTYPE 420
      (inl (LibraryError "seeking backwards is not allowed")) ].

(** First answer: an archive that breaks while it is unpacked; second:
    an error; third: a sound archive. *)
Definition net_third_tier (n : nat) (rq : Request) : Response :=
  match n with
  | 0%nat => HttpOk (tar_body snapshot_unreadable snapshot_unreadable)
  | 2%nat => HttpOk (tar_body snapshot snapshot)
  | _ => not_found
  end.

Definition w_third_tier : World := world home_fs net_third_tier.

Definition net_down (n : nat) (rq : Request) : Response := not_found.

Definition w_offline : World := world home_fs net_down.

(** A tar archive with a directory member whose name climbs out of the
    destination and comes back into it by its name *)
Definition tar_detour : list TarInfo :=
  [ mkTarInfo "p" DIRTYPE 493 (inr EmptyString);
    mkTarInfo "p/../evil/../widget/sub" DIRTYPE 493 (inr EmptyString) ].

(** A zip archive with an entry recorded as a symbolic link (mode
    [0o120777]) to [../../etc/passwd] *)
Definition zip_link : ZipInfo :=
  mkZipInfo "widget-main/link" (Z.shiftl 41471 16) (ZipBytes "../../etc/passwd").

Definition zip_with_link : list ZipInfo :=
  [ mkZipInfo "widget-main/" (Z.shiftl 16877 16) (ZipBytes EmptyString); zip_link ].

(** A zip archive whose entries share no top-level segment *)
Definition zip_two_roots : list ZipInfo :=
  [ mkZipInfo "a/x" 0 (ZipBytes "1"); mkZipInfo "b/y" 0 (ZipBytes "2") ].

(** GitHub pages: nothing to match in the history of [main], a commit
    marker on the tree page of [main], a commit link in the history of
    [master]. *)
Definition sha_master : string := "0123456789abcdef0123456789abcdef01234567".

Definition net_pages (n : nat) (rq : Request) : Response :=
  if String.eqb (rq_url rq) "https://github.com/acme/widget/commits/main"
  then HttpOk (html_body "<html>rate limited</html>")
  else if String.eqb (rq_url rq) "https://github.com/acme/widget/tree/main"
  then HttpOk (html_body ("<a data-test-selector=" +:+ Re.dq +:+ "commit-tease-sha" +:+ Re.dq
                            +:+ " href=" +:+ Re.dq +:+ "/acme/widget/commit/deadbee" +:+ Re.dq
                            +:+ ">deadbee</a>"))
  else if String.eqb (rq_url rq) "https://github.com/acme/widget/commits/master"
  then HttpOk (html_body ("<a href=" +:+ Re.dq +:+ "/acme/widget/commit/" +:+ sha_master
                            +:+ Re.dq +:+ ">fix</a>"))
  else not_found.

Definition w_pages : World := world home_fs net_pages.

(** The API names [branch] as the default branch and [sha] as its tip;
    the archive service delivers the usual snapshot. *)
Definition net_api (branch : string) (n : nat) (rq : Request) : Response :=
  if String.eqb (rq_url rq) "https://api.github.com/repos/acme/widget"
  then HttpOk (json_body (JObject [("default_branch", PyStr branch)]))
  else if String.eqb (rq_url rq)
            ("https://api.github.com/repos/acme/widget/commits/" +:+ branch)
  then HttpOk (json_body (JObject [("sha", PyStr sha)]))
  else if String.eqb (rq_url rq)
            ("https://codeload.github.com/acme/widget/tar.gz/" +:+ sha)
  then HttpOk (tar_body snapshot snapshot)
  else not_found.

(** The home directory with a regular file [widget/a.txt] *)
Definition home_with_file : FS := <[ ["home"; "u"; "widget"; "a.txt"] := File "x" 420 ]> home_fs.

(** A home directory without [widget] *)
Definition bare_fs : FS := {[ ["home"] := Dir; ["home"; "u"] := Dir ]}.

Definition w_api (branch : string) : World := world bare_fs (net_api branch).

(** A home directory holding the directory [a[] with the directory [b]]
    in it, and the verdict of [rich] on a text that holds the closing tag
    [[/b]] without its opening tag *)
Definition bracket_fs : FS :=
  {[ ["home"] := Dir; ["home"; "u"] := Dir; ["home"; "u"; "a["] := Dir;
     ["home"; "u"; "a["; "b]"] := Dir ]}.

Definition markup_closing_b (text : string) : option string :=
  if String.eqb text "[yellow](!)[/yellow] ディレクトリが既に存在しています: a[/b]"
  then Some "closing tag '[/b]' at position 40 doesn't match any open tag"
  else None.

Definition w_bracket : World :=
  {| w_fs := bracket_fs; w_cwd := ["home"; "u"]; w_umask := 18; w_token := None;
     w_net := net_down; w_redirects := fun _ _ => []; w_markup := markup_closing_b;
     w_requests := []; w_sent := []; w_stderr := [] |}.

Definition clone_widget : Args :=
  {| a_url := "https://github.com/acme/widget.git"; a_target := "widget";
     a_force := false |}.

End Sample.

(** ** Further notions for stating what the code does *)

(** A test for [fs_wf]: the parent of every key is a directory. *)
Definition fs_wf_b (fs : FS) : bool :=
  bool_decide (map_Forall (fun (k : Loc) (_ : Node) =>
                             node_at fs (removelast k) = Some Dir) fs).

(** A tar member that the second loop of [_extract_tar_to] can act on: a
    directory or a regular file *)
Definition tar_effective (m : TarInfo) : bool := Tar.isdir m || Tar.isfile m.

(** The request the HTML tier sends for a page *)
Definition page_url (owner repo : string) (pg : Page) : string :=
  "https://github.com/" +:+ owner +:+ "/" +:+ repo +:+ "/"
    +:+ match pg with
        | CommitsPage b => "commits/" +:+ b
        | TreePage b => "tree/" +:+ b
        end.

Definition page_request (owner repo : string) (pg : Page) : Request :=
  {| rq_url := page_url owner repo pg; rq_user_agent := UA;
     rq_accept := None; rq_token := None |}.

(** A call of [urlopen] with the redirections it followed, and what
    went out for it: the request of the call, then one request with the
    same headers for each redirection. *)
Definition chain_requests (c : Request * list string) : list Request :=
  c.1 :: map (redirect_of c.1) c.2.

(** Between [w] and [w'] these calls were made, in this order, and what
    went out is what went out for them. *)
Definition made_calls (chains : list (Request * list string)) (w w' : World) : Prop :=
  w_requests w' = w_requests w ++ map fst chains
  /\ w_sent w' = w_sent w ++ flat_map chain_requests chains.

(** A call as the program may make it when the environment holds
    [token]: it names the client, and it carries a credential only if it
    goes to the API, and then the one of the environment. *)
Definition request_ok (token : option string) (rq : Request) : Prop :=
  rq_user_agent rq = UA
  /\ (rq_token rq = None
      \/ (rq_token rq = header token
          /\ PyStr.startswith "https://api.github.com/repos/" (rq_url rq) = true)).

(** From a world whose credential is [token]: the credential stays, and
    the calls made are all as [request_ok] says. *)
Definition sends_ok (token : option string) (w w' : World) : Prop :=
  w_token w = token ->
  w_token w' = token
  /\ exists chains,
      made_calls chains w w' /\ Forall (fun c => request_ok token c.1) chains.

(** From a world whose working directory is [cwd0]: it stays, and every
    entry at a location that [P] selects is still there, with its kind. *)
Definition keeps (cwd0 : Loc) (P : Loc -> bool) (w w' : World) : Prop :=
  w_cwd w = cwd0 ->
  w_cwd w' = cwd0
  /\ forall l n, P l = true -> w_fs w !! l = Some n ->
       exists n', w_fs w' !! l = Some n' /\ same_kind n n' = true.

(** Whether a tier gets as far as unpacking: the request is answered, the
    body is not empty where that is tested, it decodes in the tier's
    format, and a tar archive has a directory member. *)
Definition tier_opens (owner repo : string) (ref_sha branch_name : PyVal)
    (t : Tier) (w : World) : bool :=
  match w_net w (List.length (w_requests w)) (tier_request owner repo ref_sha branch_name t) with
  | HttpFails _ => false
  | HttpOk b =>
      match t_format t, t_mode t with
      | TarGz, Streamed =>
          match body_tar_stream b with
          | inr tf => bool_decide (tar_prefix tf <> None)
          | inl _ => false
          end
      | TarGz, Buffered =>
          negb (body_is_empty b)
          && match body_tar b with
             | inr tf => bool_decide (tar_prefix tf <> None)
             | inl _ => false
             end
      | ZipFmt, _ =>
          negb (body_is_empty b)
          && match body_zip b with inr _ => true | inl _ => false end
      end
  end.

(** No tier that the cascade attempts from [w] gets as far as unpacking:
    each is looked at in the world its predecessor left, and the tiers
    after one that raised something other than an [Exception] are not
    attempted. *)
Fixpoint none_opens (dst : Path) (owner repo : string) (ref_sha branch_name : PyVal)
    (ts : list Tier) (w : World) : bool :=
  match ts with
  | [] => true
  | t :: rest =>
      negb (tier_opens owner repo ref_sha branch_name t w)
      && (if tier_fails dst owner repo ref_sha branch_name t w
          then none_opens dst owner repo ref_sha branch_name rest
                 (fst (run_tier dst owner repo ref_sha branch_name t w))
          else true)
  end.

(* ================================================================== *)
(** * Properties *)

(** ** Relations kept by every step *)

Section Preserves.

Variable R : World -> World -> Prop.
Hypothesis R_refl : forall w, R w w.
Hypothesis R_trans : forall w1 w2 w3, R w1 w2 -> R w2 w3 -> R w1 w3.

Lemma preserves_ret {A} (a : A) : preserves R (ret a).
Proof. intros w w' r H. inversion H; subst. apply R_refl. Qed.

Lemma preserves_raise {A} (e : Exn) : preserves R (@raise A e).
Proof. intros w w' r H. inversion H; subst. apply R_refl. Qed.

Lemma preserves_lift_result {A} (x : Exn + A) : preserves R (lift_result x).
Proof. intros w w' r H. inversion H; subst. apply R_refl. Qed.

Lemma preserves_get_world : preserves R get_world.
Proof. intros w w' r H. inversion H; subst. apply R_refl. Qed.

Lemma preserves_bind {A B} (m : M A) (k : A -> M B) :
  preserves R m -> (forall a, preserves R (k a)) -> preserves R (bind m k).
Proof.
  intros Hm Hk w w' r H. unfold bind in H.
  destruct (m w) as [w1 [e | a]] eqn:E.
  - inversion H; subst. eapply Hm; eauto.
  - eapply R_trans; [eapply Hm; eauto | eapply Hk; eauto].
Qed.

Lemma preserves_try_except {A} (m : M A) (h : Exn -> M A) :
  preserves R m -> (forall e, preserves R (h e)) -> preserves R (try_except m h).
Proof.
  intros Hm Hh w w' r H. unfold try_except in H.
  destruct (m w) as [w1 [e | a]] eqn:E.
  - destruct (is_Exception e).
    + eapply R_trans; [eapply Hm; eauto | eapply Hh; eauto].
    + inversion H; subst. eapply Hm; eauto.
  - inversion H; subst. eapply Hm; eauto.
Qed.

Lemma preserves_for_each {A} (l : list A) (body : A -> M unit) :
  (forall x, preserves R (body x)) -> preserves R (for_each l body).
Proof.
  intros Hb. induction l as [| x l IH]; simpl.
  - apply preserves_ret.
  - apply preserves_bind; auto.
Qed.

Lemma preserves_attempt (m : M unit) label errs next :
  preserves R m -> (forall es, preserves R (next es)) ->
  preserves R (attempt m label errs next).
Proof.
  intros Hm Hn w w' r H. unfold attempt in H.
  destruct (m w) as [w1 [e | []]] eqn:E.
  - destruct (is_Exception e).
    + eapply R_trans; [eapply Hm; eauto | eapply Hn; eauto].
    + inversion H; subst. eapply Hm; eauto.
  - inversion H; subst. eapply Hm; eauto.
Qed.

Lemma preserves_first_branch probe bs after :
  (forall b, preserves R (probe b)) -> preserves R after ->
  preserves R (first_branch probe bs after).
Proof.
  intros Hp Ha. induction bs as [| b bs IH]; simpl; [exact Ha |].
  apply preserves_bind; [apply Hp |].
  intros [sha |]; [apply preserves_ret | exact IH].
Qed.

End Preserves.

Lemma fs_le_refl fs : fs_le fs fs.
Proof. intros l n H. exists n. split; [done | by destruct n]. Qed.

Lemma same_kind_trans n1 n2 n3 :
  same_kind n1 n2 = true -> same_kind n2 n3 = true -> same_kind n1 n3 = true.
Proof. by destruct n1, n2, n3. Qed.

Lemma fs_le_trans fs1 fs2 fs3 : fs_le fs1 fs2 -> fs_le fs2 fs3 -> fs_le fs1 fs3.
Proof.
  intros H12 H23 l n H.
  destruct (H12 l n H) as (n2 & H2 & K2).
  destruct (H23 l n2 H2) as (n3 & H3 & K3).
  exists n3. split; [done | by eapply same_kind_trans].
Qed.

Lemma fs_le_insert_new (fs : FS) l n :
  fs !! l = None -> fs_le fs (<[l := n]> fs).
Proof.
  intros Hn l' n' H. exists n'.
  rewrite lookup_insert_ne; [split; [done | by destruct n'] | congruence].
Qed.

Lemma fs_le_insert_same (fs : FS) l n n' :
  fs !! l = Some n -> same_kind n n' = true -> fs_le fs (<[l := n']> fs).
Proof.
  intros Hl Hk l' m H. destruct (decide (l = l')) as [<- | Hne].
  - rewrite lookup_insert_eq. exists n'. split; [done | congruence].
  - rewrite lookup_insert_ne by done. exists m. split; [done | by destruct m].
Qed.

Lemma grows_refl w : grows w w.
Proof. unfold grows. repeat split; try done. apply fs_le_refl. Qed.

Lemma grows_trans w1 w2 w3 : grows w1 w2 -> grows w2 w3 -> grows w1 w3.
Proof.
  unfold grows. intros (?&?&?&(?&?&?)&(?&?)&?&?) (?&?&?&(?&?&?)&(?&?)&?&?).
  repeat split; try congruence. by eapply fs_le_trans.
Qed.

Lemma grows_set_fs w fs : fs_le (w_fs w) fs -> grows w (set_fs fs w).
Proof. intros H. unfold grows. simpl. by repeat split. Qed.

Lemma node_at_nonroot (fs : FS) d name : node_at fs (d ++ [name]) = fs !! (d ++ [name]).
Proof. unfold node_at. by destruct d. Qed.

(** ** File-system calls only add to the file system *)

Lemma mkdir_grows p : preserves grows (OS.mkdir p).
Proof.
  intros w w' r H. unfold OS.mkdir in H.
  destruct (OS.split_last (p_parts p)) as [[init name] |];
    [| inversion H; subst; apply grows_refl].
  destruct (OS.walk (w_fs w) (OS.start w p) init) as [e | d];
    [inversion H; subst; apply grows_refl |].
  destruct (decide (name = "..")); [inversion H; subst; apply grows_refl |].
  rewrite node_at_nonroot in H.
  destruct (w_fs w !! (d ++ [name])) eqn:E; inversion H; subst.
  - apply grows_refl.
  - apply grows_set_fs. by apply fs_le_insert_new.
Qed.

Lemma open_wb_grows p : preserves grows (OS.open_wb p).
Proof.
  intros w w' r H. unfold OS.open_wb in H.
  destruct (OS.split_last (p_parts p)) as [[init name] |];
    [| inversion H; subst; apply grows_refl].
  destruct (OS.walk (w_fs w) (OS.start w p) init) as [e | d];
    [inversion H; subst; apply grows_refl |].
  destruct (decide (name = "..")); [inversion H; subst; apply grows_refl |].
  rewrite node_at_nonroot in H.
  destruct (w_fs w !! (d ++ [name])) as [[| c m] |] eqn:E; inversion H; subst.
  - apply grows_refl.
  - apply grows_set_fs. by eapply fs_le_insert_same.
  - apply grows_set_fs. by apply fs_le_insert_new.
Qed.

Lemma write_grows h data : preserves grows (OS.write h data).
Proof.
  intros w w' r H. unfold OS.write in H.
  destruct (w_fs w !! h) as [[| c m] |] eqn:E; inversion H; subst;
    try apply grows_refl.
  apply grows_set_fs. by eapply fs_le_insert_same.
Qed.

Lemma stat_lookup w p l c m :
  OS.stat w p = inr (l, File c m) -> w_fs w !! l = Some (File c m).
Proof.
  unfold OS.stat. destruct (OS.split_last (p_parts p)) as [[init name] |]; [| done].
  destruct (OS.walk (w_fs w) (OS.start w p) init) as [e | d]; [done |].
  destruct (decide (name = "..")); [done |].
  rewrite node_at_nonroot.
  destruct (w_fs w !! (d ++ [name])) eqn:E; [| done].
  intros H. inversion H; subst. done.
Qed.

Lemma chmod_grows p mode : preserves grows (OS.chmod p mode).
Proof.
  intros w w' r H. unfold OS.chmod in H.
  destruct (OS.stat w p) as [e | [l [| c m]]] eqn:E; inversion H; subst;
    try apply grows_refl.
  apply grows_set_fs. eapply fs_le_insert_same; [by eapply stat_lookup | done].
Qed.

Lemma mkdir_except_OSError_grows exist_ok self e :
  preserves grows (mkdir_except_OSError exist_ok self e).
Proof.
  intros w w' r H. unfold mkdir_except_OSError in H.
  destruct (is_OSError e); [destruct (_ || _) |]; inversion H; subst; apply grows_refl.
Qed.

Lemma Path_mkdir_flat_grows exist_ok self : preserves grows (Path_mkdir_flat exist_ok self).
Proof.
  intros w w' r H. unfold Path_mkdir_flat in H.
  destruct (OS.mkdir self w) as [w1 [e | []]] eqn:E1; apply mkdir_grows in E1.
  - destruct e; try (inversion H; subst; done);
      (eapply grows_trans; [exact E1 | by eapply mkdir_except_OSError_grows]).
  - inversion H; subst. done.
Qed.

Lemma Path_mkdir_rev_unfold parents exist_ok abs rparts w :
  Path_mkdir_rev parents exist_ok abs rparts w =
  let self := mkPath abs (List.rev rparts) in
  match OS.mkdir self w with
  | (w', inr tt) => (w', inr tt)
  | (w', inl (FileNotFoundError m)) =>
      match rparts with
      | [] => (w', inl (FileNotFoundError m))
      | _ :: rparent =>
          if parents then
            (Path_mkdir_rev true true abs rparent ;;; Path_mkdir_flat exist_ok self) w'
          else (w', inl (FileNotFoundError m))
      end
  | (w', inl e) => mkdir_except_OSError exist_ok self e w'
  end.
Proof. destruct rparts; reflexivity. Qed.

Lemma Path_mkdir_rev_grows parents exist_ok abs rparts :
  preserves grows (Path_mkdir_rev parents exist_ok abs rparts).
Proof.
  revert parents exist_ok.
  induction rparts as [| x rp IH]; intros parents exist_ok w w' r H;
    rewrite Path_mkdir_rev_unfold in H; cbv zeta in H;
    destruct (OS.mkdir _ w) as [w1 [e | []]] eqn:E1; apply mkdir_grows in E1;
    try (inversion H; subst; done).
  - destruct e; try (inversion H; subst; done);
      (eapply grows_trans; [exact E1 | by eapply mkdir_except_OSError_grows]).
  - destruct e;
      try (eapply grows_trans; [exact E1 | by eapply mkdir_except_OSError_grows]).
    destruct parents; [| inversion H; subst; done].
    eapply grows_trans; [exact E1 |].
    eapply (preserves_bind grows grows_trans); [apply IH | | exact H].
    intros ?. apply Path_mkdir_flat_grows.
Qed.

Lemma Path_mkdir_grows parents exist_ok p : preserves grows (Path_mkdir parents exist_ok p).
Proof. apply Path_mkdir_rev_grows. Qed.

Lemma grows_bind {A B} (m : M A) (k : A -> M B) :
  preserves grows m -> (forall a, preserves grows (k a)) -> preserves grows (bind m k).
Proof. apply preserves_bind, grows_trans. Qed.

Lemma grows_try_except {A} (m : M A) (h : Exn -> M A) :
  preserves grows m -> (forall e, preserves grows (h e)) -> preserves grows (try_except m h).
Proof. apply preserves_try_except, grows_trans. Qed.

Lemma grows_pure {A} (r : Exn + A) : preserves grows (lift_result r).
Proof. apply preserves_lift_result, grows_refl. Qed.

Lemma grows_get_world : preserves grows get_world.
Proof. apply preserves_get_world, grows_refl. Qed.

Lemma rich_print_grows text : preserves grows (rich_print text).
Proof.
  intros w w' r H. unfold rich_print in H.
  destruct (w_markup w text); inversion H; subst; apply grows_refl.
Qed.

Ltac grows_step :=
  first
    [ apply grows_bind; [| intros ?]
    | apply grows_try_except; [| intros ?]
    | apply (grows_pure (inr _))
    | apply (grows_pure (inl _))
    | apply grows_pure
    | apply grows_get_world
    | apply mkdir_grows | apply open_wb_grows | apply write_grows
    | apply chmod_grows | apply Path_mkdir_grows ].

Lemma Path_write_text_grows p data enc : preserves grows (Path_write_text p data enc).
Proof.
  unfold Path_write_text. destruct (has_nul p); [grows_step |].
  grows_step; [grows_step |].
  destruct enc; [grows_step |]. destruct (is_ascii_str data); grows_step.
Qed.

Lemma extract_tar_member_grows prefix dst m :
  preserves grows (extract_tar_member prefix dst m).
Proof.
  unfold extract_tar_member.
  destruct (tar_out prefix dst m) as [out |]; [| grows_step].
  grows_step; [grows_step |].
  destruct (negb _); [grows_step |].
  destruct (_ || _); [grows_step |].
  destruct (Tar.isdir m); [grows_step |].
  destruct (Tar.isfile m); [| grows_step].
  grows_step; [grows_step |].
  destruct (Tar.extractfile m) as [src |]; [| grows_step].
  repeat grows_step.
Qed.

Lemma for_each_grows {A} (l : list A) (body : A -> M unit) :
  (forall x, preserves grows (body x)) -> preserves grows (for_each l body).
Proof. apply preserves_for_each; [apply grows_refl | apply grows_trans]. Qed.

Lemma _extract_tar_to_grows tf dst : preserves grows (_extract_tar_to tf dst).
Proof.
  unfold _extract_tar_to. destruct (tar_prefix tf); [| grows_step].
  apply for_each_grows. intros m. apply extract_tar_member_grows.
Qed.

Lemma extract_zip_entry_grows zf prefix dst name :
  preserves grows (extract_zip_entry zf prefix dst name).
Proof.
  unfold extract_zip_entry.
  destruct (zip_rel prefix name) as [rel |]; [| grows_step].
  grows_step; [grows_step |].
  grows_step; [grows_step |].
  destruct (negb _); [grows_step |].
  destruct (PyStr.endswith "/" name); [grows_step |].
  grows_step; [grows_step |].
  destruct (Zip.getinfo zf name) as [info |]; [| grows_step].
  grows_step.
  - destruct (z_data info).
    + grows_step.
    + grows_step; [grows_step | grows_step].
    + grows_step; [grows_step | grows_step].
  - destruct (Z.eqb _ 0); [grows_step |].
    grows_step; [grows_step | grows_step].
Qed.

Lemma _extract_zip_to_grows zf dst : preserves grows (_extract_zip_to zf dst).
Proof.
  unfold _extract_zip_to.
  apply for_each_grows. intros name. apply extract_zip_entry_grows.
Qed.

(** ** The acquisition cascade *)

Lemma bind_assoc {A B C} (m : M A) (f : A -> M B) (g : B -> M C) w :
  bind (bind m f) g w = bind m (fun x => bind (f x) g) w.
Proof. unfold bind. destruct (m w) as [w1 [e | a]]; reflexivity. Qed.

Lemma http_logs url accept token w :
  fst (_http url accept token w)
  = log_request {| rq_url := url; rq_user_agent := UA;
                   rq_accept := header accept; rq_token := header token |} w.
Proof. unfold _http. by destruct (w_net w _ _). Qed.

(** After one request, a computation that only adds to the file system
    leaves the request noted and the earlier file system in place. *)
Lemma after_http_grows {A} url (k : Body -> M A) w :
  (forall b, preserves grows (k b)) ->
  let w' := fst (bind (_http url None None) k w) in
  w_requests w' = w_requests w ++ [mkRequest url UA None None]
  /\ w_cwd w' = w_cwd w /\ w_net w' = w_net w /\ w_token w' = w_token w
  /\ w_umask w' = w_umask w /\ w_stderr w' = w_stderr w
  /\ fs_le (w_fs w) (w_fs w').
Proof.
  intros Hk. unfold bind. pose proof (http_logs url None None w) as Hl.
  destruct (_http url None None w) as [w1 [e | b]]; simpl in *; subst w1.
  - repeat split; try done. apply fs_le_refl.
  - destruct (k b _) as [w2 r] eqn:E. apply Hk in E.
    destruct E as (? & ? & ? & (? & ? & ?) & (? & ?) & ? & ?). simpl in *.
    by repeat split.
Qed.

(** The same for what goes out: the requests of that one call. *)
Lemma after_http_sent {A} url (k : Body -> M A) w :
  (forall b, preserves grows (k b)) ->
  let w' := fst (bind (_http url None None) k w) in
  w_sent w' = w_sent w ++ wire w (mkRequest url UA None None)
  /\ w_redirects w' = w_redirects w /\ w_markup w' = w_markup w.
Proof.
  intros Hk. unfold bind. pose proof (http_logs url None None w) as Hl.
  destruct (_http url None None w) as [w1 [e | b]]; simpl in *; subst w1.
  - by repeat split.
  - destruct (k b _) as [w2 r] eqn:E. apply Hk in E.
    destruct E as (? & ? & ? & (? & ? & ?) & (? & ?) & ? & ?). simpl in *.
    by repeat split.
Qed.

Section CascadeProps.

Variables (dst : Path) (owner repo : string) (ref_sha branch_name : PyVal).

Local Abbreviation run1 := (run_tier dst owner repo ref_sha branch_name).
Local Abbreviation after := (after_tiers dst owner repo ref_sha branch_name).
Local Abbreviation fails := (tiers_fail dst owner repo ref_sha branch_name).
Local Abbreviation succeeds := (tier_succeeds dst owner repo ref_sha branch_name).
Local Abbreviation notes := (failure_notes dst owner repo ref_sha branch_name).
Local Abbreviation request := (tier_request owner repo ref_sha branch_name).
Local Abbreviation try_all := (try_tiers dst owner repo ref_sha branch_name).
Local Abbreviation cascade := (_download_snapshot dst owner repo ref_sha branch_name).

Lemma run_tier_effect t w :
let w' := fst (run1 t w) in
w_requests w' = w_requests w ++ [request t]
/\ w_cwd w' = w_cwd w /\ w_net w' = w_net w /\ w_token w' = w_token w
/\ w_umask w' = w_umask w /\ w_stderr w' = w_stderr w
/\ fs_le (w_fs w) (w_fs w').
Proof.
destruct t as [[] [] a]; unfold run_tier, tier_request; cbn [t_format t_mode];
  unfold _download_tar_stream, fetch_bytes, _read;
  repeat rewrite bind_assoc;
  apply after_http_grows; intros b.
- grows_step; [grows_step | apply _extract_tar_to_grows].
- grows_step; [destruct (body_is_empty b); grows_step |].
  grows_step; [grows_step | apply _extract_tar_to_grows].
- grows_step; [destruct (body_is_empty b); grows_step |].
  grows_step; [grows_step | apply _extract_zip_to_grows].
- grows_step; [destruct (body_is_empty b); grows_step |].
  grows_step; [grows_step | apply _extract_zip_to_grows].
Qed.

Lemma run_tier_sent t w :
let w' := fst (run1 t w) in
w_sent w' = w_sent w ++ wire w (request t)
/\ w_redirects w' = w_redirects w /\ w_markup w' = w_markup w.
Proof.
destruct t as [[] [] a]; unfold run_tier, tier_request; cbn [t_format t_mode];
  unfold _download_tar_stream, fetch_bytes, _read;
  repeat rewrite bind_assoc;
  apply after_http_sent; intros b.
- grows_step; [grows_step | apply _extract_tar_to_grows].
- grows_step; [destruct (body_is_empty b); grows_step |].
  grows_step; [grows_step | apply _extract_tar_to_grows].
- grows_step; [destruct (body_is_empty b); grows_step |].
  grows_step; [grows_step | apply _extract_zip_to_grows].
- grows_step; [destruct (body_is_empty b); grows_step |].
  grows_step; [grows_step | apply _extract_zip_to_grows].
Qed.

Lemma after_tiers_app ts1 ts2 w : after (ts1 ++ ts2) w = after ts2 (after ts1 w).
Proof. revert w. induction ts1 as [| t ts1 IH]; intros w; simpl; [done | apply IH]. Qed.

Lemma after_tiers_requests ts w :
w_requests (after ts w) = w_requests w ++ map request ts.
Proof.
revert w. induction ts as [| t ts IH]; intros w; simpl.
- by rewrite app_nil_r.
- rewrite IH. destruct (run_tier_effect t w) as (-> & _). by rewrite <- app_assoc.
Qed.

Lemma after_tiers_fs_le ts w : fs_le (w_fs w) (w_fs (after ts w)).
Proof.
revert w. induction ts as [| t ts IH]; intros w; simpl; [apply fs_le_refl |].
eapply fs_le_trans; [| apply IH]. apply run_tier_effect.
Qed.

Lemma tiers_fail_app ts1 ts2 w :
fails (ts1 ++ ts2) w = fails ts1 w && fails ts2 (after ts1 w).
Proof.
revert w. induction ts1 as [| t ts1 IH]; intros w; simpl; [done |].
rewrite IH. by rewrite andb_assoc.
Qed.

Lemma failure_notes_app ts1 ts2 w :
fails ts1 w = true -> notes (ts1 ++ ts2) w = notes ts1 w ++ notes ts2 (after ts1 w).
Proof.
revert w. induction ts1 as [| t ts1 IH]; intros w; simpl; [done |].
unfold tier_fails. destruct (run1 t w) as [w1 [e | []]]; simpl; [| done].
intros [_ H]%andb_prop. by rewrite IH.
Qed.

Lemma failure_notes_length ts w :
fails ts w = true -> List.length (notes ts w) = List.length ts.
Proof.
revert w. induction ts as [| t ts IH]; intros w; simpl; [done |].
unfold tier_fails. destruct (run1 t w) as [w1 [e | []]]; simpl; [| done].
intros [_ H]%andb_prop. by rewrite IH.
Qed.

(** Failing tiers are passed one after the other, each leaving its note. *)
Lemma try_tiers_skip_failed pre rest errs w :
fails pre w = true ->
try_all (pre ++ rest) errs w = try_all rest (errs ++ notes pre w) (after pre w).
Proof.
revert errs w. induction pre as [| t pre IH]; intros errs w; simpl.
- by rewrite app_nil_r.
- unfold tier_fails, attempt.
  destruct (run1 t w) as [w1 [e | []]]; simpl; [| done].
  intros [He H]%andb_prop. rewrite He. rewrite IH by done.
  by rewrite <- app_assoc.
Qed.

Lemma try_tiers_stop t rest errs w :
succeeds t w = true ->
try_all (t :: rest) errs w = (fst (run1 t w), inr tt).
Proof.
simpl. unfold tier_succeeds, attempt.
destruct (run1 t w) as [w1 [e | []]]; simpl; [done | done].
Qed.

(** What trying a list of tiers amounts to *)
Lemma try_tiers_outcome ts errs w :
(fails ts w = true
 /\ try_all ts errs w = (after ts w, inl (snapshot_failed (errs ++ notes ts w))))
\/ (fails ts w = false
    /\ (snd (try_all ts errs w) = inr tt
        \/ exists e, snd (try_all ts errs w) = inl e /\ is_Exception e = false)).
Proof.
revert errs w. induction ts as [| t ts IH]; intros errs w; simpl.
- left. by rewrite app_nil_r.
- unfold tier_fails, attempt.
  destruct (run1 t w) as [w1 [e | []]]; simpl.
  + destruct (is_Exception e) eqn:He; simpl.
    * destruct (IH (errs ++ [tier_label t +:+ ": " +:+ str_exn e]) w1)
        as [[Hf Ht] | [Hf Ht]].
      -- left. split; [done |]. rewrite Ht. by rewrite <- app_assoc.
      -- right. done.
    * right. split; [done |]. right. by exists e.
  + right. split; [done |]. by left.
Qed.

Lemma download_snapshot_unfold w :
cascade w = try_all six_tiers [] w.
Proof. reflexivity. Qed.

(** C3.  The six tiers are tried in their fixed order and the cascade
  stops at the first that ends normally: when the first [k] tiers fail,
  each in the world its predecessor left, and the next one succeeds, the
  cascade returns normally in the world that tier left, having sent
  exactly the requests of these [k + 1] tiers, in order, and none of a
  later tier. *)
Theorem cascade_stops_at_first_success (w : World) (k : nat) (t : Tier) :
six_tiers !! k = Some t ->
fails (take k six_tiers) w = true ->
succeeds t (after (take k six_tiers) w) = true ->
cascade w = (after (take (S k) six_tiers) w, inr tt)
/\ w_requests (fst (cascade w))
   = w_requests w ++ map request (take (S k) six_tiers).
Proof.
intros Hk Hfail Hok.
assert (Hrun : cascade w = (after (take (S k) six_tiers) w, inr tt)).
{ rewrite download_snapshot_unfold.
  rewrite <- (take_drop_middle six_tiers k t Hk) at 1.
  rewrite try_tiers_skip_failed by done.
  rewrite try_tiers_stop by done.
  rewrite (take_S_r six_tiers k t Hk), after_tiers_app. reflexivity. }
split; [exact Hrun |]. rewrite Hrun. cbn [fst]. apply after_tiers_requests.
Qed.

(** C5.  The cascade raises its own error exactly when all six tiers
  fail, and the error then carries, after its heading, the six notes
  [label: detail] of the tiers, in order, joined by [; ]. *)
Theorem cascade_fails_iff_all_tiers_fail (w : World) :
((exists msg, snd (cascade w) = inl (RuntimeError msg))
 <-> fails six_tiers w = true)
/\ (fails six_tiers w = true ->
    snd (cascade w)
    = inl (RuntimeError
             ("スナップショットのダウンロードに失敗しました: "
                +:+ PyStr.join "; " (notes six_tiers w)))
    /\ List.length (notes six_tiers w) = 6%nat).
Proof.
rewrite download_snapshot_unfold.
destruct (try_tiers_outcome six_tiers [] w) as [[Hf Ht] | [Hf Ht]].
- split.
  + split; [done |]. intros _. rewrite Ht. simpl. eexists. reflexivity.
  + intros _. rewrite Ht. split; [reflexivity |].
    by rewrite failure_notes_length.
- split; [| congruence].
  split; [| congruence].
  intros [msg Hm]. destruct Ht as [Ht | (e & Ht & He)]; [congruence |].
  rewrite Hm in Ht. by inversion Ht; subst.
Qed.

(** C10.  Nothing is cleaned up between tiers: when the first [k] tiers
  have failed, every entry the destination then holds (what was there
  before and what the failed tiers wrote) is handed as it is to the
  remaining tiers, and is still there, with its kind, when the cascade
  ends. *)
Theorem cascade_keeps_partial_output (w : World) (k : nat) :
fails (take k six_tiers) w = true ->
let wk := after (take k six_tiers) w in
fs_le (w_fs w) (w_fs wk)
/\ cascade w = try_all (drop k six_tiers) (notes (take k six_tiers) w) wk
/\ fs_le (w_fs wk) (w_fs (fst (cascade w))).
Proof.
intros Hfail wk.
assert (Hrun : cascade w = try_all (drop k six_tiers) (notes (take k six_tiers) w) wk).
{ rewrite download_snapshot_unfold.
  rewrite <- (take_drop k six_tiers) at 1.
  by rewrite try_tiers_skip_failed. }
split; [apply after_tiers_fs_le |]. split; [exact Hrun |].
rewrite Hrun. generalize (notes (take k six_tiers) w) as errs.
generalize (drop k six_tiers) as ts. generalize wk as w0. clear.
intros w0 ts. revert w0. induction ts as [| t ts IH]; intros w0 errs; simpl.
- apply fs_le_refl.
- unfold attempt. pose proof (run_tier_effect t w0) as (_ & _ & _ & _ & _ & _ & Hle).
  destruct (run1 t w0) as [w1 [e | []]]; simpl in *; [| done].
  destruct (is_Exception e); [| done].
  eapply fs_le_trans; [exact Hle | apply IH].
Qed.

End CascadeProps.

Lemma cascade_stops_at_first_success_witness :
  let w := Sample.w_third_tier in
  let dst := Sample.widget in
  let t := mkTier TarGz Buffered CommitId in
  six_tiers !! 2%nat = Some t
  /\ _download_snapshot dst "acme" "widget" (PyStr Sample.sha) (PyStr "main") w
     = (after_tiers dst "acme" "widget" (PyStr Sample.sha) (PyStr "main")
          (take 3 six_tiers) w, inr tt)
  /\ w_requests
       (fst (_download_snapshot dst "acme" "widget" (PyStr Sample.sha) (PyStr "main") w))
     = map (tier_request "acme" "widget" (PyStr Sample.sha) (PyStr "main"))
         (take 3 six_tiers).
Proof.
  intros w dst t. split; [reflexivity |].
  apply (cascade_stops_at_first_success dst "acme" "widget" (PyStr Sample.sha)
           (PyStr "main") w 2 t); vm_compute; reflexivity.
Defined.

Lemma cascade_keeps_partial_output_witness :
  let w := Sample.w_third_tier in
  let dst := Sample.widget in
  let wk := after_tiers dst "acme" "widget" (PyStr Sample.sha) (PyStr "main")
              (take 2 six_tiers) w in
  w_fs wk !! ["home"; "u"; "widget"; "old"; "b.txt"] = Some (File EmptyString 420)
  /\ fs_le (w_fs wk)
       (w_fs (fst (_download_snapshot dst "acme" "widget" (PyStr Sample.sha)
                     (PyStr "main") w))).
Proof.
  intros w dst wk. split; [vm_compute; reflexivity |].
  apply (cascade_keeps_partial_output dst "acme" "widget" (PyStr Sample.sha)
           (PyStr "main") w 2). vm_compute; reflexivity.
Defined.

(** The file a failed first tier left behind is part of the tree the
    third tier completes. *)
Example partial_output_survives :
  let w' := fst (_download_snapshot Sample.widget "acme" "widget" (PyStr Sample.sha)
                   (PyStr "main") Sample.w_third_tier) in
  w_fs w' !! ["home"; "u"; "widget"; "old"; "b.txt"] = Some (File EmptyString 420)
  /\ w_fs w' !! ["home"; "u"; "widget"; "src"; "a.txt"] = Some (File "hello" 420).
Proof. vm_compute. split; reflexivity. Qed.

(** ** Strings *)

Lemma str_app_cons a s t : String a s +:+ t = String a (s +:+ t).
Proof. reflexivity. Qed.

Lemma str_app_nil s : EmptyString +:+ s = s.
Proof. reflexivity. Qed.

Lemma str_app_nil_r s : s +:+ EmptyString = s.
Proof. induction s as [| a s IH]; [done | rewrite str_app_cons; by f_equal]. Qed.

Lemma str_app_assoc (a m t : string) : (a +:+ m) +:+ t = a +:+ (m +:+ t).
Proof. induction a as [| c a IH]; [done | rewrite !str_app_cons; by rewrite IH]. Qed.

Lemma startswith_app p s :
  PyStr.startswith p s = true -> s = p +:+ PyStr.drop (String.length p) s.
Proof.
  unfold PyStr.startswith. revert s.
  induction p as [| a p IH]; intros s H; simpl in *.
  - by destruct s.
  - destruct s as [| b s]; [done |]. simpl in H.
    destruct (ascii_dec a b) as [-> |]; [| done].
    rewrite str_app_cons. f_equal. by apply IH.
Qed.

Lemma startswith_refl_app p s : PyStr.startswith p (p +:+ s) = true.
Proof.
  unfold PyStr.startswith. induction p as [| a p IH].
  - rewrite str_app_nil. by destruct s.
  - rewrite str_app_cons. simpl. destruct (ascii_dec a a); [exact IH | done].
Qed.

Lemma drop_app_length p s : PyStr.drop (String.length p) (p +:+ s) = s.
Proof. induction p as [| a p IH]; [done | rewrite str_app_cons; exact IH]. Qed.

Lemma nonempty_true s : PyStr.nonempty s = true <-> s <> EmptyString.
Proof.
  unfold PyStr.nonempty. destruct (String.eqb_spec s EmptyString); simpl; split; congruence.
Qed.

Lemma contains_false_before_first c s :
  PyStr.contains c s = false -> PyStr.before_first c s = s.
Proof.
  induction s as [| a s IH]; simpl; [done |].
  destruct (Ascii.eqb a c); simpl; [done |]. intros H. by rewrite IH.
Qed.

Lemma contains_false_split c s : PyStr.contains c s = false -> PyStr.split c s = [s].
Proof.
  induction s as [| a s IH]; simpl; [done |].
  destruct (Ascii.eqb a c); simpl; [done |]. intros H. by rewrite IH.
Qed.

(** ** Common prefix of an archive *)

Lemma tar_prefix_none tf :
  tar_prefix tf = None <-> Forall (fun m => Tar.isdir m = false) tf.
Proof.
  induction tf as [| m tf IH]; simpl.
  - split; [constructor | done].
  - destruct (Tar.isdir m) eqn:E.
    + split; [done |]. intros H. inversion H; subst. congruence.
    + rewrite IH. split; [by constructor | by inversion 1].
Qed.

Lemma tar_prefix_first pre d post :
  Forall (fun m => Tar.isdir m = false) pre -> Tar.isdir d = true ->
  tar_prefix (pre ++ d :: post) = Some (PyStr.rstrip "/" (tm_name d) +:+ "/").
Proof.
  intros Hpre Hd. induction Hpre as [| m pre Hm Hpre IH]; simpl.
  - by rewrite Hd.
  - by rewrite Hm.
Qed.

Lemma tar_out_strips prefix dst m out :
  tar_out prefix dst m = Some out ->
  exists rel, tm_name m = prefix +:+ rel /\ rel <> EmptyString /\ out = path_div dst rel.
Proof.
  unfold tar_out. destruct (PyStr.startswith prefix (tm_name m)) eqn:Hs; cbn [negb]; [| done].
  destruct (PyStr.nonempty (PyStr.drop (String.length prefix) (tm_name m))) eqn:Hn;
    cbn [negb]; [| done].
  intros [= <-]. eexists. split; [by apply startswith_app |].
  split; [by apply nonempty_true | done].
Qed.

Lemma zip_rel_strips prefix name rel :
  zip_rel prefix name = Some rel -> name = prefix +:+ rel /\ rel <> EmptyString.
Proof.
  unfold zip_rel.
  destruct (PyStr.nonempty prefix) eqn:Hp;
    destruct (PyStr.startswith prefix name) eqn:Hs; cbn [negb andb]; try done;
    destruct (PyStr.nonempty (PyStr.drop (String.length prefix) name)) eqn:Hn;
    cbn [negb]; try done; intros [= <-].
  - split; [by apply startswith_app | by apply nonempty_true].
  - split; [by apply startswith_app | by apply nonempty_true].
  - assert (prefix = EmptyString) as ->.
    { unfold PyStr.nonempty in Hp. by destruct (String.eqb_spec prefix EmptyString). }
    split; [done | by apply nonempty_true].
Qed.

Lemma zip_rel_empty_prefix name :
  name <> EmptyString -> zip_rel EmptyString name = Some name.
Proof.
  intros H. unfold zip_rel. simpl. apply nonempty_true in H. by rewrite H.
Qed.

Lemma zip_roots_elem names r :
  r ∈ zip_roots names
  <-> exists name, name ∈ names /\ PyStr.contains "/" name = true /\ r = zip_root_of name.
Proof.
  unfold zip_roots. rewrite merge_sort_Permutation, elem_of_remove_dups.
  rewrite list_elem_of_fmap. split.
  - intros (name & -> & Hin). apply list_elem_of_In, filter_In in Hin as [Hin Hc].
    exists name. split; [by apply list_elem_of_In | done].
  - intros (name & Hin & Hc & ->). exists name. split; [done |].
    apply list_elem_of_In, filter_In. split; [by apply list_elem_of_In | done].
Qed.

Lemma zip_prefix_empty names :
  Forall (fun name => PyStr.contains "/" name = false) names ->
  zip_prefix names = EmptyString.
Proof.
  intros H. unfold zip_prefix.
  destruct (zip_roots names) as [| r rs] eqn:E; [done |].
  assert (Hr : r ∈ zip_roots names) by (rewrite E; left).
  apply zip_roots_elem in Hr as (name & Hin & Hc & _).
  rewrite Forall_forall in H. apply H in Hin. congruence.
Qed.

Lemma zip_prefix_least names name :
  name ∈ names -> PyStr.contains "/" name = true ->
  zip_prefix names ∈ zip_roots names
  /\ forall r, r ∈ zip_roots names -> String.le (zip_prefix names) r.
Proof.
  intros Hin Hc. unfold zip_prefix.
  assert (Hne : zip_root_of name ∈ zip_roots names).
  { apply zip_roots_elem. by exists name. }
  pose proof (StronglySorted_merge_sort String.le
                (remove_dups (map zip_root_of (List.filter (PyStr.contains "/") names))))
    as Hs.
  fold (zip_roots names) in Hs.
  destruct (zip_roots names) as [| r rs]; [by apply elem_of_nil in Hne |].
  split; [left |].
  intros r' [-> | Hr']%elem_of_cons; [reflexivity |].
  inversion Hs as [| ? ? _ Hall]; subst.
  rewrite Forall_forall in Hall. by apply Hall.
Qed.

Lemma extract_tar_without_directory tf dst w :
  Forall (fun m => Tar.isdir m = false) tf ->
  _extract_tar_to tf dst w
  = (w, inl (RuntimeError "tarの解凍時にエラー: 構造が不正です。")).
Proof. intros H. apply tar_prefix_none in H. unfold _extract_tar_to. by rewrite H. Qed.



(** ** The HTML tier *)

Lemma first_branch_commits owner repo bs after pgs w :
  (forall w0, after w0 = first_page owner repo pgs w0) ->
  first_branch (probe_commits owner repo) bs after w
  = first_page owner repo (map CommitsPage bs ++ pgs) w.
Proof.
  intros Ha. revert w. induction bs as [| b bs IH]; intros w; simpl; [apply Ha |].
  unfold bind. destruct (probe_commits owner repo b w) as [w1 [e | [sha |]]]; auto.
Qed.

Lemma first_branch_tree owner repo bs after pgs w :
  (forall w0, after w0 = first_page owner repo pgs w0) ->
  first_branch (probe_tree owner repo) bs after w
  = first_page owner repo (map TreePage bs ++ pgs) w.
Proof.
  intros Ha. revert w. induction bs as [| b bs IH]; intros w; simpl; [apply Ha |].
  unfold bind. destruct (probe_tree owner repo b w) as [w1 [e | [sha |]]]; auto.
Qed.

Lemma guess_default_sha_html_pages owner repo hint w :
  _guess_default_sha_html owner repo hint w
  = first_page owner repo (pages_in_order hint) w.
Proof.
  unfold _guess_default_sha_html, pages_in_order.
  apply first_branch_commits. intros w0.
  rewrite <- (app_nil_r (map TreePage (candidates hint))).
  apply first_branch_tree. reflexivity.
Qed.

Lemma hex_exact_shape n s h rest :
  Re.hex_exact n s = Some (h, rest) -> String.length h = n /\ hex_string h.
Proof.
  revert s h rest. induction n as [| n IH]; intros s h rest; simpl.
  - intros [= <- <-]. done.
  - destruct s as [| a t]; [done |].
    destruct (Re.is_hex a) eqn:Ha; [| done].
    destruct (Re.hex_exact n t) as [[h' r'] |] eqn:E; [| done].
    intros [= <- <-]. destruct (IH _ _ _ E) as [Hl Hh].
    split; [simpl; by rewrite Hl |]. unfold hex_string. simpl. by rewrite Ha.
Qed.

Lemma hex_then_shape n c s h :
  Re.hex_then n c s = Some h -> String.length h = n /\ hex_string h.
Proof.
  unfold Re.hex_then. destruct (Re.hex_exact n s) as [[h' [| b r]] |] eqn:E; try done.
  destruct (Ascii.eqb b c); [| done]. intros [= <-]. by eapply hex_exact_shape.
Qed.

Lemma hex_range_then_shape lo extra c s h :
  Re.hex_range_then lo extra c s = Some h ->
  (lo <= String.length h <= lo + extra)%nat /\ hex_string h.
Proof.
  induction extra as [| extra IH]; simpl.
  - destruct (Re.hex_then (lo + 0) c s) eqn:E; [| done].
    intros [= <-]. apply hex_then_shape in E as [? ?]. split; [lia | done].
  - destruct (Re.hex_then (lo + S extra) c s) eqn:E.
    + intros [= <-]. apply hex_then_shape in E as [? ?]. split; [lia | done].
    + intros H. apply IH in H as [? ?]. split; [lia | done].
Qed.

Lemma search_found here s g :
  Re.search here s = Some g -> exists t, here t = Some g.
Proof.
  induction s as [| a s IH]; simpl.
  - destruct (here EmptyString) eqn:E; [| done]. intros [= <-]. eauto.
  - destruct (here (String a s)) eqn:E; [intros [= <-]; eauto | exact IH].
Qed.

Lemma search_commit_link_shape owner repo html sha :
  Re.search_commit_link owner repo html = Some sha ->
  String.length sha = 40%nat /\ hex_string sha.
Proof.
  intros (t & H)%search_found. unfold Re.commit_link_here in H.
  destruct (Re.literal _ t); [| done]. by eapply hex_then_shape.
Qed.

Lemma search_commit_tease_shape html sha :
  Re.search_commit_tease html = Some sha ->
  (7 <= String.length sha <= 40)%nat /\ hex_string sha.
Proof.
  intros (t & H)%search_found. unfold Re.commit_tease_here in H.
  destruct (Re.literal _ t) as [rest |]; [| done].
  apply search_found in H as (u & H). unfold Re.tease_tail_here in H.
  destruct u as [| a u]; [done |]. destruct (Ascii.eqb a ">"); [| done].
  by apply hex_range_then_shape in H.
Qed.

Lemma probe_page_shape owner repo pg w w' sha :
  probe_page owner repo pg w = (w', inr (Some sha)) ->
  hex_string sha
  /\ match pg with
     | CommitsPage _ => String.length sha = 40%nat
     | TreePage _ => (7 <= String.length sha <= 40)%nat
     end.
Proof.
  destruct pg as [b | b]; simpl; unfold probe_commits, probe_tree, try_except, bind, scrape, _read;
    unfold bind; destruct (_http _ None None w) as [w1 [e | body]]; simpl.
  - destruct (is_Exception e); [intros [= _ ?] | intros [= _ ?]]; done.
  - intros [= _ H]. apply search_commit_link_shape in H. tauto.
  - destruct (is_Exception e); [intros [= _ ?] | intros [= _ ?]]; done.
  - intros [= _ H]. apply search_commit_tease_shape in H. tauto.
Qed.

Lemma probe_page_exception owner repo pg w w' e :
  probe_page owner repo pg w = (w', inl e) -> is_Exception e = false.
Proof.
  destruct pg as [b | b]; simpl; unfold probe_commits, probe_tree, try_except, bind, scrape, _read;
    unfold bind; destruct (_http _ None None w) as [w1 [e1 | body]]; simpl;
    try done; destruct (is_Exception e1) eqn:He; try done; by intros [= _ <-].
Qed.

Lemma first_page_result owner repo pgs w w' r :
  first_page owner repo pgs w = (w', r) ->
  match r with
  | inr (b, sha) =>
      exists pg w1 w2, pg ∈ pgs /\ b = page_branch pg
                       /\ probe_page owner repo pg w1 = (w2, inr (Some sha))
  | inl e => is_Exception e = true -> e = resolution_failed
  end.
Proof.
  revert w. induction pgs as [| pg pgs IH]; intros w; simpl.
  - intros [= <- <-]. done.
  - unfold bind. destruct (probe_page owner repo pg w) as [w1 [e | [sha |]]] eqn:E.
    + intros [= <- <-]. apply probe_page_exception in E. congruence.
    + intros [= <- <-]. exists pg, w, w1. split; [left | done].
    + intros H. apply IH in H. destruct r as [e | [b sha]]; [done |].
      destruct H as (pg' & wa & wb & Hin & ? & ?). exists pg', wa, wb.
      split; [by right | done].
Qed.

(** C6, as stated, fails: with nothing to match in the history of [main],
    a commit marker on the tree page of [main] and a commit link in the
    history of [master], the code answers [master] with the linked commit,
    where reading the pages branch by branch answers [main] with the
    marker of its tree page. *)
Lemma html_resolution_not_branch_by_branch :
  snd (_guess_default_sha_html "acme" "widget" None Sample.w_pages)
  = inr ("master", Sample.sha_master)
  /\ snd (first_page "acme" "widget" (pages_branch_by_branch None) Sample.w_pages)
     = inr ("main", "deadbee").
Proof. vm_compute. split; reflexivity. Qed.

(** C6, amended.  The HTML tier reads the commit-history pages of all
    candidate branches in turn (hint if given, [main], [master]) and only
    then their tree pages, in the same order; the first page that yields a
    match decides the answer: the branch of that page, and an id of 40
    hexadecimal characters from a history page or of 7 to 40 from a tree
    page.  When no page yields a match the error raised is the resolution
    failure. *)
Theorem html_resolution_order (owner repo : string) (hint : option string) (w : World) :
  _guess_default_sha_html owner repo hint w
  = first_page owner repo (pages_in_order hint) w
  /\ (forall w' b sha,
         _guess_default_sha_html owner repo hint w = (w', inr (b, sha)) ->
         b ∈ candidates hint
         /\ hex_string sha
         /\ exists pg w1 w2,
             pg ∈ pages_in_order hint /\ b = page_branch pg
             /\ probe_page owner repo pg w1 = (w2, inr (Some sha))
             /\ match pg with
                | CommitsPage _ => String.length sha = 40%nat
                | TreePage _ => (7 <= String.length sha <= 40)%nat
                end)
  /\ (forall w' e,
         _guess_default_sha_html owner repo hint w = (w', inl e) ->
         is_Exception e = true -> e = resolution_failed).
Proof.
  split; [apply guess_default_sha_html_pages |]. split.
  - intros w' b sha H. rewrite guess_default_sha_html_pages in H.
    apply first_page_result in H as (pg & w1 & w2 & Hin & -> & Hp).
    destruct (probe_page_shape _ _ _ _ _ _ Hp) as [Hh Hl].
    split; [| split; [done | by exists pg, w1, w2]].
    unfold pages_in_order in Hin.
    apply elem_of_app in Hin as [Hin | Hin];
      apply list_elem_of_fmap in Hin as (b & -> & Hb); exact Hb.
  - intros w' e H. rewrite guess_default_sha_html_pages in H.
    by apply first_page_result in H.
Qed.

(** ** Entries that are passed over *)

(** A member whose path is not inside the destination is passed over:
    nothing changes and nothing is raised. *)
Lemma tar_member_outside_skipped prefix dst m out w :
  tar_out prefix dst m = Some out ->
  _is_within (w_cwd w) dst out = false ->
  extract_tar_member prefix dst m w = (w, inr tt).
Proof.
  intros Ho Hw. unfold extract_tar_member. rewrite Ho.
  unfold bind, get_world. by rewrite Hw.
Qed.

Lemma zip_entry_outside_skipped zf prefix dst name rel w :
  zip_rel prefix name = Some rel ->
  has_nul (path_div dst rel) = false ->
  _is_within (w_cwd w) dst (mkPath true (resolve (w_cwd w) (path_div dst rel))) = false ->
  extract_zip_entry zf prefix dst name w = (w, inr tt).
Proof.
  intros Ho Hn Hw. unfold extract_zip_entry. rewrite Ho.
  unfold bind, get_world, lift_result, Path_resolve. by rewrite Hn, Hw.
Qed.

(** A symbolic or hard link of a tar archive is passed over. *)
Lemma tar_link_skipped prefix dst m w :
  Tar.issym m || Tar.islnk m = true ->
  extract_tar_member prefix dst m w = (w, inr tt).
Proof.
  intros Hl. unfold extract_tar_member.
  destruct (tar_out prefix dst m) as [out |]; [| done].
  unfold bind, get_world. destruct (negb _); [done |]. by rewrite Hl.
Qed.

(** C1, on the code: a tar member can make the extractor create a
    directory outside the destination.  The member's resolved path is
    inside [/home/u/widget], so it is not passed over; its unresolved path
    [widget/../evil/../widget/sub] is then created with its parents, and
    [/home/u/evil], which did not exist, is one of them. *)
Theorem tar_member_creates_directory_outside :
  let w := Sample.w_offline in
  let dst := Sample.widget in
  let out := path_div dst "../evil/../widget/sub" in
  tar_out "p/" dst (mkTarInfo "p/../evil/../widget/sub" DIRTYPE 493 (inr EmptyString))
  = Some out
  /\ _is_within (w_cwd w) dst out = true
  /\ w_fs w !! ["home"; "u"; "evil"] = None
  /\ snd (_extract_tar_to Sample.tar_detour dst w) = inr tt
  /\ w_fs (fst (_extract_tar_to Sample.tar_detour dst w)) !! ["home"; "u"; "evil"]
     = Some Dir
  /\ strictly_under (resolve (w_cwd w) dst) ["home"; "u"; "evil"] = false.
Proof. vm_compute. repeat split; reflexivity. Qed.

(** C2, on the code: a zip entry recorded as a symbolic link is written
    as a regular file holding the link's target. *)
Theorem zip_symlink_written_as_file :
  let w' := fst (_extract_zip_to Sample.zip_with_link Sample.widget Sample.w_offline) in
  Zip.is_symlink Sample.zip_link = true
  /\ snd (_extract_zip_to Sample.zip_with_link Sample.widget Sample.w_offline) = inr tt
  /\ w_fs w' !! ["home"; "u"; "widget"; "link"] = Some (File "../../etc/passwd" 511).
Proof. vm_compute. repeat split; reflexivity. Qed.

(** ** Repository locator *)

Lemma split_no_sep c s : Forall (fun x => PyStr.contains c x = false) (PyStr.split c s).
Proof.
  induction s as [| a s IH]; simpl.
  - by constructor.
  - destruct (Ascii.eqb a c) eqn:E.
    + by constructor.
    + destruct (PyStr.split c s) as [| h r]; inversion IH; subst;
        constructor; simpl; try rewrite E; done.
Qed.

Lemma take_no_sep c n s : PyStr.contains c s = false -> PyStr.contains c (PyStr.take n s) = false.
Proof.
  revert s. induction n as [| n IH]; intros [| a s]; simpl; try done.
  destruct (Ascii.eqb a c); simpl; [done | apply IH].
Qed.

Lemma take_drop_str n s : PyStr.take n s +:+ PyStr.drop n s = s.
Proof.
  revert s. induction n as [| n IH]; intros [| a s]; try done.
  simpl. rewrite str_app_cons. by rewrite IH.
Qed.

Lemma take_empty n s : PyStr.take n s = EmptyString -> n = 0%nat \/ s = EmptyString.
Proof. destruct n, s; simpl; try done; auto. Qed.

(** What the locator returns when it accepts: the owner is a non-empty
    segment, neither part holds a slash, and the name is the last segment
    without a final [.git]; it is empty exactly when that segment is
    [.git] itself. *)
Lemma owner_repo_accepted url owner repo :
  _owner_repo url = inr (owner, repo) ->
  owner <> EmptyString
  /\ PyStr.contains "/" owner = false
  /\ PyStr.contains "/" repo = false
  /\ exists last,
      last <> EmptyString
      /\ repo = (if PyStr.endswith ".git" last
                 then PyStr.take (String.length last - 4) last else last)
      /\ (repo = EmptyString <-> last = ".git").
Proof.
  unfold _owner_repo. destruct (Url.urlparse url) as [e | u]; [done |].
  destruct (negb _); [done |].
  pose proof (split_no_sep "/" (Url.path u)) as Hsep.
  set (segs := PyStr.split "/" (Url.path u)) in *.
  assert (Hparts : Forall (fun x => PyStr.contains "/" x = false /\ x <> EmptyString)
                     (List.rev (List.filter PyStr.nonempty segs))).
  { apply Forall_forall. intros x Hx.
    apply list_elem_of_In, in_rev, filter_In in Hx as [Hx Hn].
    rewrite Forall_forall in Hsep. split; [by apply Hsep, list_elem_of_In |].
    by apply nonempty_true. }
  destruct (List.rev (List.filter PyStr.nonempty segs)) as [| last [| before rest]];
    [done | done |].
  inversion Hparts as [| ? ? [Hl1 Hl2] Hrest]; subst.
  inversion Hrest as [| ? ? [Hb1 Hb2] _]; subst.
  intros [= <- <-]. split; [done |]. split; [done |].
  split; [destruct (PyStr.endswith ".git" last); [by apply take_no_sep | done] |].
  exists last. split; [done |]. split; [done |].
  destruct (PyStr.endswith ".git" last) eqn:He.
  - unfold PyStr.endswith in He. apply andb_prop in He as [Hlen Hd].
    apply Nat.leb_le in Hlen. apply String.eqb_eq in Hd. simpl in Hlen.
    split.
    + intros Ht. pose proof (take_drop_str (String.length last - 4) last) as Htd.
      rewrite Ht, str_app_nil in Htd. simpl in Hd. congruence.
    + intros ->. reflexivity.
  - split; [done |]. intros ->. done.
Qed.

(** C7, on the code: a URL whose last segment is [.git] is accepted and
    gives an empty repository name. *)
Theorem owner_repo_empty_name :
  _owner_repo "https://github.com/acme/.git" = inr ("acme", EmptyString).
Proof. vm_compute. reflexivity. Qed.

(** ** Where a write lands *)

Lemma bind_ok {A B} (m : M A) (k : A -> M B) w w' (b : B) :
  bind m k w = (w', inr b) ->
  exists w1 a, m w = (w1, inr a) /\ k a w1 = (w', inr b).
Proof.
  unfold bind. destruct (m w) as [w1 [e | a]]; [done |]. intros H. by exists w1, a.
Qed.

Lemma walk_resolve fs cur parts l :
  OS.walk fs cur parts = inr l -> l = fold_left loc_step parts cur.
Proof.
  revert cur. induction parts as [| x parts IH]; intros cur; simpl.
  - by intros [= <-].
  - unfold loc_step at 2. destruct (decide (x = "..")); [apply IH |].
    destruct (node_at fs (cur ++ [x])) as [[| c m] |];
      [apply IH | intros; discriminate | intros; discriminate].
Qed.

Lemma split_last_snoc init name : OS.split_last (init ++ [name]) = Some (init, name).
Proof. unfold OS.split_last. rewrite rev_app_distr. simpl. by rewrite rev_involutive. Qed.

Lemma resolve_snoc cwd abs init name :
  name <> ".." ->
  resolve cwd (mkPath abs (init ++ [name])) = resolve cwd (mkPath abs init) ++ [name].
Proof.
  intros Hn. unfold resolve. simpl. rewrite fold_left_app. simpl.
  unfold loc_step at 1. by destruct (decide (name = "..")).
Qed.

Lemma resolve_app cwd abs parts more :
  ".." ∉ more ->
  resolve cwd (mkPath abs (parts ++ more)) = resolve cwd (mkPath abs parts) ++ more.
Proof.
  induction more as [| x more IH] using rev_ind; intros Hn.
  - by rewrite !app_nil_r.
  - rewrite app_assoc, resolve_snoc, IH, <- app_assoc; [done | |].
    + intros H. apply Hn. apply elem_of_app. by left.
    + intros ->. apply Hn. apply elem_of_app. right. left.
Qed.

(** A successful [write_text] changes the world at one location only: the
    resolved path, which then holds the text. *)
Lemma Path_write_text_ok abs init name data enc w w' :
  name <> ".." ->
  Path_write_text (mkPath abs (init ++ [name])) data enc w = (w', inr tt) ->
  exists m,
    w' = set_fs (<[resolve (w_cwd w) (mkPath abs (init ++ [name])) := File data m]> (w_fs w)) w.
Proof.
  intros Hn H. unfold Path_write_text in H.
  destruct (has_nul _); [done |].
  apply bind_ok in H as (w1 & h & Hopen & Hwrite).
  unfold OS.open_wb in Hopen. cbn [p_parts] in Hopen.
  rewrite split_last_snoc in Hopen.
  destruct (OS.walk (w_fs w) _ init) as [e | d] eqn:Hwalk; [done |].
  apply walk_resolve in Hwalk.
  destruct (decide (name = "..")); [done |].
  assert (Hloc : d ++ [name] = resolve (w_cwd w) (mkPath abs (init ++ [name]))).
  { rewrite resolve_snoc by done. unfold resolve, OS.start in *. simpl in *. by subst d. }
  rewrite node_at_nonroot in Hopen.
  assert (Hw : forall m0, w1 = set_fs (<[h := File EmptyString m0]> (w_fs w)) w ->
                          h = d ++ [name] ->
                          exists m, w' = set_fs (<[d ++ [name] := File data m]> (w_fs w)) w).
  { intros m0 -> ->. exists m0.
    assert (OS.write (d ++ [name]) data
              (set_fs (<[d ++ [name] := File EmptyString m0]> (w_fs w)) w)
            = (set_fs (<[d ++ [name] := File data m0]> (w_fs w)) w, inr tt)) as Hwr.
    { unfold OS.write. simpl. rewrite lookup_insert_eq. unfold set_fs. simpl.
      by rewrite insert_insert_eq. }
    destruct enc; [| destruct (is_ascii_str data); [| done]];
      rewrite Hwr in Hwrite; by inversion Hwrite. }
  rewrite <- Hloc.
  destruct (w_fs w !! (d ++ [name])) as [[| c m0] |]; [done | |];
    inversion Hopen; subst; eapply Hw; reflexivity.
Qed.

Lemma grows_cwd w w' : grows w w' -> w_cwd w' = w_cwd w.
Proof. by intros (? & _). Qed.

Lemma branch_segments_path base b parts :
  branch_segments b = Some parts ->
  path_div base b = mkPath (p_abs base) (p_parts base ++ parts)
  /\ parts <> [] /\ ".." ∉ parts.
Proof.
  unfold branch_segments.
  destruct (p_abs (parse_path b)) eqn:Ha; [done |].
  destruct (bool_decide (p_parts (parse_path b) = [])) eqn:He; [done |].
  destruct (bool_decide (".." ∈ p_parts (parse_path b))) eqn:Hd; [done |].
  cbn. intros [= <-]. apply bool_decide_eq_false in He, Hd.
  unfold path_div, path_join. by rewrite Ha.
Qed.

(** One reference file: written below [base], at the segments of the
    branch name, holding the commit id and a line break. *)
Lemma write_ref_ok base b s parts w w' :
  branch_segments b = Some parts ->
  write_ref base (PyStr b) (PyStr s) w = (w', inr tt) ->
  exists m,
    w' = set_fs (<[resolve (w_cwd w) base ++ parts := File (s +:+ nl) m]> (w_fs w)) w.
Proof.
  intros Hb H. unfold write_ref, path_div_val, py_add_str in H.
  apply bind_ok in H as (w1 & p & [= <- <-] & H).
  apply bind_ok in H as (w2 & t & [= <- <-] & H).
  destruct (branch_segments_path base b parts Hb) as (Hp & Hne & Hdots).
  rewrite Hp in H. clear Hp.
  destruct (exists_last Hne) as (init & name & ->).
  rewrite app_assoc in H. apply Path_write_text_ok in H as [m ->].
  - exists m. rewrite <- app_assoc. rewrite resolve_app by done. by destruct base.
  - intros ->. apply Hdots. apply elem_of_app. right. left.
Qed.

(** ** Git skeleton *)

Lemma Path_mkdir_ok_cwd parents exist_ok p w w' r :
  Path_mkdir parents exist_ok p w = (w', r) -> w_cwd w' = w_cwd w.
Proof. intros H. by apply Path_mkdir_grows, grows_cwd in H. Qed.

Ltac distinct_locs :=
  let H := fresh in
  intros H; apply app_inv_head in H; simpl in H; discriminate H.

(** The references written by [_write_git_skeleton] when it ends
    normally, for a branch name that stays below the directory it is
    joined to. *)
Lemma write_git_skeleton_refs dst url b s parts w w' :
  branch_segments b = Some parts ->
  _write_git_skeleton dst url (PyStr b) (PyStr s) w = (w', inr tt) ->
  let git := resolve (w_cwd w) dst ++ [".git"] in
  content_at w' (git ++ ["HEAD"]) = Some ("ref: refs/heads/" +:+ b +:+ nl)
  /\ content_at w' (git ++ ["refs"; "heads"] ++ parts) = Some (s +:+ nl)
  /\ content_at w' (git ++ ["refs"; "remotes"; "origin"] ++ parts) = Some (s +:+ nl)
  /\ content_at w' (git ++ ["refs"; "remotes"; "upstream"] ++ parts) = Some (s +:+ nl).
Proof.
  intros Hb H git. unfold _write_git_skeleton in H.
  apply bind_ok in H as (w1 & [] & H1 & H). apply Path_mkdir_ok_cwd in H1.
  apply bind_ok in H as (w2 & [] & H2 & H). apply Path_mkdir_ok_cwd in H2.
  apply bind_ok in H as (w3 & [] & H3 & H). apply Path_mkdir_ok_cwd in H3.
  apply bind_ok in H as (w4 & [] & H4 & H). apply Path_mkdir_ok_cwd in H4.
  assert (Hcwd : w_cwd w4 = w_cwd w) by congruence. clear H1 H2 H3 H4 w1 w2 w3.
  destruct dst as [abs dparts].
  set (gparts := dparts ++ [".git"]) in *.
  assert (Hgit : resolve (w_cwd w) (mkPath abs gparts) = git).
  { unfold gparts, git. apply resolve_app. by intros ?%list_elem_of_singleton. }
  apply bind_ok in H as (w5 & [] & H5 & H).
  change (path_div (path_div (mkPath abs dparts) ".git") "HEAD")
    with (mkPath abs (gparts ++ ["HEAD"])) in H5.
  apply Path_write_text_ok in H5 as [m5 ->]; [| done].
  apply bind_ok in H as (w6 & [] & H6 & H).
  change (path_div (path_div (mkPath abs dparts) ".git") "refs/heads")
    with (mkPath abs (gparts ++ ["refs"; "heads"])) in H6.
  apply (write_ref_ok _ _ _ parts) in H6 as [m6 ->]; [| done].
  apply bind_ok in H as (w7 & [] & H7 & H).
  change (path_div (path_div (mkPath abs dparts) ".git") "refs/remotes/origin")
    with (mkPath abs (gparts ++ ["refs"; "remotes"; "origin"])) in H7.
  apply (write_ref_ok _ _ _ parts) in H7 as [m7 ->]; [| done].
  apply bind_ok in H as (w8 & [] & H8 & H).
  change (path_div (path_div (mkPath abs dparts) ".git") "refs/remotes/upstream")
    with (mkPath abs (gparts ++ ["refs"; "remotes"; "upstream"])) in H8.
  apply (write_ref_ok _ _ _ parts) in H8 as [m8 ->]; [| done].
  apply bind_ok in H as (w9 & [] & H9 & H).
  change (path_div (path_div (mkPath abs dparts) ".git") "config")
    with (mkPath abs (gparts ++ ["config"])) in H9.
  apply Path_write_text_ok in H9 as [m9 ->]; [| done].
  change (path_div (path_div (mkPath abs dparts) ".git") "objects/info/promisor")
    with (mkPath abs (gparts ++ (["objects"; "info"] ++ ["promisor"]))) in H.
  rewrite app_assoc in H.
  apply Path_write_text_ok in H as [m10 ->]; [| done].
  cbn [w_cwd set_fs] in *. rewrite Hcwd in *.
  rewrite <- (app_assoc gparts ["objects"; "info"] ["promisor"]).
  rewrite !resolve_app, Hgit
    by (intros Hin; repeat (apply elem_of_cons in Hin as [Hin | Hin]; [discriminate |]);
        by apply elem_of_nil in Hin).
  unfold content_at. cbn [w_fs set_fs py_str]. rewrite <- !app_assoc.
  repeat split.
  - rewrite !lookup_insert_ne by distinct_locs. by rewrite lookup_insert_eq.
  - rewrite !lookup_insert_ne by distinct_locs. by rewrite lookup_insert_eq.
  - rewrite !lookup_insert_ne by distinct_locs. by rewrite lookup_insert_eq.
  - rewrite !lookup_insert_ne by distinct_locs. by rewrite lookup_insert_eq.
Qed.

(** ** The working directory never changes *)

Lemma same_cwd_refl w : same_cwd w w.
Proof. done. Qed.

Lemma same_cwd_trans w1 w2 w3 : same_cwd w1 w2 -> same_cwd w2 w3 -> same_cwd w1 w3.
Proof. unfold same_cwd. congruence. Qed.

Lemma grows_same_cwd {A} (m : M A) : preserves grows m -> preserves same_cwd m.
Proof. intros H w w' r E. by apply H, grows_cwd in E. Qed.

Lemma http_same_cwd url accept token : preserves same_cwd (_http url accept token).
Proof.
  intros w w' r H. pose proof (http_logs url accept token w) as Hl.
  rewrite H in Hl. simpl in Hl. by subst w'.
Qed.

Lemma modify_same_cwd f :
  (forall w, w_cwd (f w) = w_cwd w) -> preserves same_cwd (modify f).
Proof. intros Hf w w' r [= <- _]. apply Hf. Qed.

Lemma rich_print_stderr_same_cwd text : preserves same_cwd (rich_print_stderr text).
Proof.
  intros w w' r H. unfold rich_print_stderr in H.
  destruct (w_markup w text); by inversion H.
Qed.

Lemma clear_tree_same_cwd dst : preserves same_cwd (clear_tree dst).
Proof.
  intros w w' r H. unfold clear_tree in H.
  destruct (OS.stat w dst) as [e | [l [| c m]]]; by inversion H.
Qed.

Ltac cwd_step :=
  first
    [ apply (preserves_bind same_cwd same_cwd_trans); [| intros ?]
    | apply (preserves_try_except same_cwd same_cwd_trans); [| intros ?]
    | apply (preserves_ret same_cwd same_cwd_refl)
    | apply (preserves_raise same_cwd same_cwd_refl)
    | apply (preserves_lift_result same_cwd same_cwd_refl)
    | apply (preserves_get_world same_cwd same_cwd_refl)
    | apply http_same_cwd
    | apply clear_tree_same_cwd
    | apply modify_same_cwd; reflexivity
    | apply rich_print_stderr_same_cwd
    | apply grows_same_cwd, rich_print_grows
    | apply grows_same_cwd, Path_mkdir_grows ].

Lemma guess_default_sha_html_same_cwd owner repo hint :
  preserves same_cwd (_guess_default_sha_html owner repo hint).
Proof.
  unfold _guess_default_sha_html.
  repeat (apply (preserves_first_branch same_cwd same_cwd_refl same_cwd_trans);
          [intros b; unfold probe_commits, probe_tree, scrape, _read; repeat cwd_step |]).
  cwd_step.
Qed.

Lemma resolve_ref_same_cwd owner repo : preserves same_cwd (resolve_ref owner repo).
Proof.
  unfold resolve_ref, resolve_api, _json. cwd_step; [cwd_step |].
  cwd_step; [repeat cwd_step |].
  cwd_step; [apply guess_default_sha_html_same_cwd | repeat cwd_step].
Qed.

Lemma download_snapshot_same_cwd dst owner repo ref_sha branch_name :
  preserves same_cwd (_download_snapshot dst owner repo ref_sha branch_name).
Proof.
  intros w w' r H. rewrite download_snapshot_unfold in H. revert w w' r H.
  generalize (@nil string) as errs. generalize six_tiers as ts.
  induction ts as [| t ts IH]; intros errs; simpl; [cwd_step |].
  apply (preserves_attempt same_cwd same_cwd_trans); [| intros es; exact (IH es)].
  intros w w' r H.
  pose proof (run_tier_effect dst owner repo ref_sha branch_name t w) as (_ & Hc & _).
  rewrite H in Hc. exact Hc.
Qed.

Lemma prepare_destination_result args w w' dst :
  prepare_destination args w = (w', inr dst) ->
  dst = parse_path (a_target args) /\ w_cwd w' = w_cwd w.
Proof.
  intros H. split.
  - unfold prepare_destination in H.
    apply bind_ok in H as (w1 & ? & _ & H).
    apply bind_ok in H as (w2 & ? & _ & H).
    apply bind_ok in H as (w3 & ? & _ & H). by inversion H.
  - revert H. generalize (inr dst : Exn + Path) as r. revert w w'.
    change (preserves same_cwd (prepare_destination args)).
    unfold prepare_destination. cwd_step; [cwd_step |].
    cwd_step; [| repeat cwd_step].
    destruct (OS.exists_ _ _); [destruct (negb _) |]; repeat cwd_step.
Qed.

Lemma report_failure_raises e w : exists w', report_failure e w = (w', inl (SystemExit (inr 2))).
Proof. eexists. reflexivity. Qed.

Lemma main_returns args w w' :
  main args w = (w', inr tt) ->
  exists w1,
    prepare_destination args w = (w1, inr (parse_path (a_target args)))
    /\ bootstrap (a_url args) (parse_path (a_target args)) w1 = (w', inr tt).
Proof.
  intros H. unfold main in H. apply bind_ok in H as (w1 & dst & Hp & H).
  destruct (prepare_destination_result _ _ _ _ Hp) as [-> _].
  exists w1. split; [done |]. unfold try_except in H.
  destruct (bootstrap _ _ w1) as [w2 [e | []]]; [| done].
  destruct (is_Exception e); [| done].
  destruct (report_failure_raises e w2) as [w3 Hr]. congruence.
Qed.

Lemma rich_print_ok text w w' : rich_print text w = (w', inr tt) -> w' = w.
Proof. unfold rich_print. destruct (w_markup w text); by intros [= <-]. Qed.

Lemma write_git_skeleton_strings dst url vb vs w w' :
  _write_git_skeleton dst url vb vs w = (w', inr tt) ->
  exists b s, vb = PyStr b /\ vs = PyStr s.
Proof.
  intros H. unfold _write_git_skeleton in H.
  do 5 (apply bind_ok in H as (? & [] & _ & H)).
  apply bind_ok in H as (w6 & [] & H6 & _). unfold write_ref in H6.
  apply bind_ok in H6 as (? & p & Hp & H6).
  apply bind_ok in H6 as (? & t & Ht & _).
  destruct vb as [b | |]; try done. destruct vs as [s | |]; try done. eauto.
Qed.

(** C8, as stated, fails for a branch name that climbs out of
    [refs/heads]: the run below ends normally with the branch
    [../../HEAD], and [.git/HEAD] then holds the commit id, written there
    as the branch reference, not the symbolic reference. *)
Lemma head_overwritten_by_branch_ref :
  let w := Sample.w_api "../../HEAD" in
  let w' := fst (main Sample.clone_widget w) in
  run Sample.clone_widget w = (w', 0)
  /\ resolved_by_run Sample.clone_widget w = Some (PyStr "../../HEAD", PyStr Sample.sha)
  /\ content_at w' ["home"; "u"; "widget"; ".git"; "HEAD"] = Some (Sample.sha +:+ nl).
Proof. vm_compute. repeat split; reflexivity. Qed.

(** C8, amended.  After a run that ends normally with resolved branch [b]
    and commit id [s], where [b] is a relative path without [..]
    segments, [.git/HEAD] holds exactly [ref: refs/heads/b] and a line
    break, and [.git/refs/heads/b], [.git/refs/remotes/origin/b] and
    [.git/refs/remotes/upstream/b] each hold exactly [s] and a line
    break.  The exit status of such a run is 0. *)
Theorem successful_run_writes_refs (args : Args) (w w' : World)
    (b s : string) (parts : list string) :
  main args w = (w', inr tt) ->
  resolved_by_run args w = Some (PyStr b, PyStr s) ->
  branch_segments b = Some parts ->
  let git := resolve (w_cwd w) (parse_path (a_target args)) ++ [".git"] in
  run args w = (w', 0)
  /\ content_at w' (git ++ ["HEAD"]) = Some ("ref: refs/heads/" +:+ b +:+ nl)
  /\ content_at w' (git ++ ["refs"; "heads"] ++ parts) = Some (s +:+ nl)
  /\ content_at w' (git ++ ["refs"; "remotes"; "origin"] ++ parts) = Some (s +:+ nl)
  /\ content_at w' (git ++ ["refs"; "remotes"; "upstream"] ++ parts) = Some (s +:+ nl).
Proof.
  intros Hmain Hres Hb git.
  split; [unfold run; by rewrite Hmain |].
  apply main_returns in Hmain as (w1 & Hprep & Hboot).
  unfold resolved_by_run in Hres. rewrite Hprep in Hres.
  apply prepare_destination_result in Hprep as [_ Hcwd1].
  unfold bootstrap in Hboot.
  apply bind_ok in Hboot as (? & [owner repo] & Ho & Hboot).
  inversion Ho; subst. clear Ho. rewrite H1 in Hres.
  apply bind_ok in Hboot as (w1' & [] & Hprint & Hboot).
  unfold bind at 1 in Hres. rewrite Hprint in Hres.
  apply rich_print_ok in Hprint. subst w1'.
  apply bind_ok in Hboot as (w2 & [vb vs] & Hr & Hboot).
  rewrite Hr in Hres. inversion Hres; subst. clear Hres.
  apply bind_ok in Hboot as (w3 & [] & Hd & Hskel).
  apply resolve_ref_same_cwd in Hr. apply download_snapshot_same_cwd in Hd.
  assert (Hcwd : w_cwd w3 = w_cwd w) by (unfold same_cwd in *; congruence).
  pose proof (write_git_skeleton_refs _ _ _ _ _ _ _ Hb Hskel) as Hrefs.
  cbv zeta in Hrefs. rewrite Hcwd in Hrefs. exact Hrefs.
Qed.

Lemma successful_run_writes_refs_witness :
  let w := Sample.w_api "main" in
  let w' := fst (main Sample.clone_widget w) in
  let git := ["home"; "u"; "widget"; ".git"] in
  content_at w' (git ++ ["HEAD"]) = Some ("ref: refs/heads/main" +:+ nl)
  /\ content_at w' (git ++ ["refs"; "heads"; "main"]) = Some (Sample.sha +:+ nl)
  /\ content_at w' (git ++ ["refs"; "remotes"; "origin"; "main"]) = Some (Sample.sha +:+ nl)
  /\ content_at w' (git ++ ["refs"; "remotes"; "upstream"; "main"]) = Some (Sample.sha +:+ nl).
Proof.
  intros w w' git.
  apply (successful_run_writes_refs Sample.clone_widget w w' "main" Sample.sha ["main"]);
    vm_compute; reflexivity.
Defined.

(** ** Exit status *)

Lemma prepare_refuses_existing args w :
  OS.exists_ w (parse_path (a_target args)) = true -> a_force args = false ->
  let text := "[yellow](!)[/yellow] ディレクトリが既に存在しています: "
                +:+ path_str (parse_path (a_target args)) in
  prepare_destination args w
  = match w_markup w text with
    | None => (log_stderr text w, inl (SystemExit (inr 1)))
    | Some msg => (w, inl (LibraryError msg))
    end.
Proof.
  intros He Hf text. unfold prepare_destination, bind, get_world, rich_print_stderr.
  rewrite He, Hf. fold text. cbn [negb]. by destruct (w_markup w text).
Qed.

(** What [run] makes of a refused destination *)
Lemma run_refuses_existing args w :
  OS.exists_ w (parse_path (a_target args)) = true -> a_force args = false ->
  let text := "[yellow](!)[/yellow] ディレクトリが既に存在しています: "
                +:+ path_str (parse_path (a_target args)) in
  run args w
  = match w_markup w text with
    | None => (log_stderr text w, 1)
    | Some msg => (log_stderr ("Traceback (most recent call last): " +:+ msg) w, 1)
    end.
Proof.
  intros He Hf text. unfold run, main, bind.
  rewrite (prepare_refuses_existing args w He Hf). fold text.
  by destruct (w_markup w text).
Qed.


(** The line of the refusal passes through the [print] of [rich]: for a
    destination named [a[/b]] the closing tag has no opening tag, the
    print raises [MarkupError] and the run ends with a traceback instead
    of the line, still with status 1 and nothing else changed. *)
Example refused_destination_with_markup :
  let args := mkArgs "https://github.com/acme/widget" "a[/b]" false in
  let w := Sample.w_bracket in
  OS.exists_ w (parse_path "a[/b]") = true
  /\ run args w
     = (log_stderr ("Traceback (most recent call last): "
                      +:+ "closing tag '[/b]' at position 40 doesn't match any open tag") w,
        1).
Proof. vm_compute. split; reflexivity. Qed.


(** ** What the guard [_is_within] gives *)

Lemma prefix_cons a s b t :
  String.prefix (String a s) (String b t) = true <-> a = b /\ String.prefix s t = true.
Proof.
  simpl. destruct (ascii_dec a b) as [-> | Hne].
  - tauto.
  - split; [done | by intros [? _]].
Qed.

(** A segment followed by a slash is a prefix of a segment followed by a
    tail that is empty or starts with a slash only if the two segments
    are the same. *)
Lemma prefix_segment a b X Y :
  PyStr.contains "/" a = false -> PyStr.contains "/" b = false ->
  (Y = EmptyString \/ exists Y', Y = String "/" Y') ->
  String.prefix (a +:+ String "/" X) (b +:+ Y) = true ->
  a = b /\ exists Y', Y = String "/" Y' /\ String.prefix X Y' = true.
Proof.
  revert b. induction a as [| c a IH]; intros b Ha Hb HY H.
  - rewrite str_app_nil in H. destruct b as [| c' b].
    + rewrite str_app_nil in H. split; [done |].
      destruct HY as [-> | [Y' ->]]; [done |].
      apply prefix_cons in H as [_ H]. eauto.
    + rewrite str_app_cons in H. apply prefix_cons in H as [<- _].
      simpl in Hb. done.
  - simpl in Ha. destruct (Ascii.eqb_spec c "/") as [-> | Hc]; [done |]. simpl in Ha.
    rewrite str_app_cons in H. destruct b as [| c' b].
    + rewrite str_app_nil in H. destruct HY as [-> | [Y' ->]]; [done |].
      apply prefix_cons in H as [-> _]. done.
    + rewrite str_app_cons in H. apply prefix_cons in H as [<- H].
      simpl in Hb. destruct (Ascii.eqb_spec c "/") as [-> | _]; [done |]. simpl in Hb.
      destruct (IH b Ha Hb HY H) as [-> HY']. done.
Qed.

Lemma join_cons x l :
  PyStr.join "/" (x :: l)
  = x +:+ match l with [] => EmptyString | _ => String "/" (PyStr.join "/" l) end.
Proof.
  unfold PyStr.join. destruct l as [| y l]; simpl.
  - by rewrite str_app_nil_r.
  - reflexivity.
Qed.

Lemma strictly_under_app B rest : rest <> [] -> strictly_under B (B ++ rest) = true.
Proof.
  intros Hne. unfold strictly_under. apply andb_true_intro. split.
  - apply Nat.ltb_lt. rewrite length_app. destruct rest; [done | simpl; lia].
  - apply bool_decide_eq_true. by rewrite firstn_app, Nat.sub_diag, firstn_all, app_nil_r.
Qed.

Lemma strictly_under_inv B l :
  strictly_under B l = true -> exists rest, rest <> [] /\ l = B ++ rest.
Proof.
  unfold strictly_under. intros [Hlen Heq]%andb_prop.
  apply Nat.ltb_lt in Hlen. apply bool_decide_eq_true in Heq.
  exists (List.skipn (List.length B) l). split.
  - intros Hn. apply (f_equal List.length) in Hn. rewrite length_skipn in Hn. simpl in Hn. lia.
  - rewrite <- Heq at 1. symmetry. apply firstn_skipn.
Qed.

Lemma join_prefix_under B L :
  Forall (fun x => seg_ok x = true) B -> Forall (fun x => seg_ok x = true) L ->
  String.prefix (PyStr.join "/" B +:+ "/") (PyStr.join "/" L) = true ->
  exists rest, rest <> [] /\ L = B ++ rest.
Proof.
  intros HB. revert L. induction HB as [| b B Hb HB IH]; intros L HL H.
  - exfalso. destruct HL as [| x L Hx HL]; [done |].
    rewrite join_cons in H. unfold seg_ok in Hx. apply andb_prop in Hx as [Hn Hs].
    destruct x as [| c x]; [done |]. rewrite str_app_cons in H.
    change (PyStr.join "/" [] +:+ "/") with (String "/" EmptyString) in H.
    apply prefix_cons in H as [<- _]. simpl in Hs. done.
  - destruct HL as [| x L Hx HL].
    { rewrite join_cons in H. destruct b; [| done]. by destruct B. }
    rewrite !join_cons in H.
    unfold seg_ok in Hb, Hx. apply andb_prop in Hb as [_ Hb], Hx as [_ Hx].
    apply negb_true_iff in Hb, Hx.
    assert (Hshape : b +:+ match B with [] => EmptyString
                                   | _ => String "/" (PyStr.join "/" B) end +:+ "/"
                     = b +:+ String "/" (match B with [] => EmptyString
                                                 | _ => PyStr.join "/" B +:+ "/" end)).
    { destruct B; [done | by rewrite str_app_cons]. }
    rewrite str_app_assoc, Hshape in H.
    apply prefix_segment in H as (<- & Y' & HY & Hp); [| done | done |].
    + destruct L as [| y L]; [done |]. inversion HY; subst. clear HY.
      destruct B as [| b' B].
      * exists (y :: L). done.
      * destruct (IH (y :: L) HL Hp) as (rest & Hne & ->).
        exists rest. done.
    + destruct L; [by left | right; eauto].
Qed.

Lemma is_within_plain cwd base target :
  has_nul base = false -> has_nul target = false ->
  _is_within cwd base target
  = PyStr.startswith (loc_str (resolve cwd base) +:+ "/") (loc_str (resolve cwd target)).
Proof. intros Hb Ht. unfold _is_within, Path_resolve. by rewrite Hb, Ht. Qed.

Lemma is_within_no_nul cwd base target :
  _is_within cwd base target = true -> has_nul base = false /\ has_nul target = false.
Proof.
  unfold _is_within, Path_resolve.
  destruct (has_nul base); [done |]. by destruct (has_nul target).
Qed.

Lemma is_within_strictly_under cwd base target :
  Forall (fun x => seg_ok x = true) (resolve cwd base) ->
  Forall (fun x => seg_ok x = true) (resolve cwd target) ->
  _is_within cwd base target = true ->
  strictly_under (resolve cwd base) (resolve cwd target) = true.
Proof.
  intros HB HL H. destruct (is_within_no_nul _ _ _ H) as [Hnb Hnt].
  rewrite is_within_plain in H by done. unfold PyStr.startswith, loc_str in H.
  rewrite !str_app_cons, !str_app_nil in H. apply prefix_cons in H as [_ H].
  destruct (join_prefix_under _ _ HB HL H) as (rest & Hne & ->).
  by apply strictly_under_app.
Qed.

(** ** Segments of resolved paths *)

Lemma Forall_removelast {A} (P : A -> Prop) (l : list A) :
  Forall P l -> Forall P (removelast l).
Proof.
  induction 1 as [| x l Hx Hl IH]; simpl; [constructor |].
  destruct l; [constructor | by constructor].
Qed.

Lemma parse_path_segs s : Forall (fun x => seg_ok x = true) (p_parts (parse_path s)).
Proof.
  unfold parse_path. simpl. apply Forall_forall. intros x Hx.
  apply list_elem_of_In, filter_In in Hx as [Hx Hk].
  pose proof (split_no_sep "/" s) as Hs. rewrite Forall_forall in Hs.
  apply list_elem_of_In, Hs in Hx.
  unfold keep_part in Hk. apply andb_prop in Hk as [Hk _].
  unfold seg_ok, PyStr.nonempty. by rewrite Hk, Hx.
Qed.

Lemma path_div_segs dst rel :
  Forall (fun x => seg_ok x = true) (p_parts dst) ->
  Forall (fun x => seg_ok x = true) (p_parts (path_div dst rel)).
Proof.
  intros Hd. unfold path_div, path_join.
  destruct (p_abs (parse_path rel)); [apply parse_path_segs |].
  simpl. apply Forall_app. split; [done | apply parse_path_segs].
Qed.

Lemma fold_loc_step_ok parts cur :
  loc_ok cur -> Forall (fun x => seg_ok x = true) parts ->
  loc_ok (fold_left loc_step parts cur).
Proof.
  revert cur. induction parts as [| x parts IH]; intros cur Hc Hp; simpl; [done |].
  inversion Hp; subst. apply IH; [| done].
  unfold loc_step. destruct (decide (x = "..")).
  - by apply Forall_removelast.
  - apply Forall_app. split; [done |]. by repeat constructor.
Qed.

Lemma resolve_ok cwd p :
  loc_ok cwd -> Forall (fun x => seg_ok x = true) (p_parts p) -> loc_ok (resolve cwd p).
Proof.
  intros Hc Hp. unfold resolve. apply fold_loc_step_ok; [| done].
  destruct (p_abs p); [constructor | done].
Qed.

Lemma loc_ok_segs l : loc_ok l -> Forall (fun x => seg_ok x = true) l.
Proof. intros H. eapply Forall_impl; [exact H |]. simpl. tauto. Qed.

Lemma loc_ok_no_dots l : loc_ok l -> ".." ∉ l.
Proof.
  intros H Hin. unfold loc_ok in H. rewrite Forall_forall in H.
  by destruct (H _ Hin).
Qed.

Lemma fold_loc_step_plain parts cur :
  ".." ∉ parts -> fold_left loc_step parts cur = cur ++ parts.
Proof.
  revert cur. induction parts as [| x parts IH]; intros cur Hn; simpl.
  - by rewrite app_nil_r.
  - apply not_elem_of_cons in Hn as [Hx Hn]. rewrite IH by done.
    unfold loc_step. destruct (decide (x = "..")); [congruence |].
    by rewrite <- app_assoc.
Qed.

(** Resolving a resolved location gives it back. *)
Lemma resolve_loc cwd l : ".." ∉ l -> resolve cwd (mkPath true l) = l.
Proof. intros H. unfold resolve. simpl. by rewrite fold_loc_step_plain. Qed.

(** ** Where file-system calls act *)

Lemma split_last_Some parts init name :
  OS.split_last parts = Some (init, name) -> parts = init ++ [name].
Proof.
  unfold OS.split_last. destruct (List.rev parts) as [| x r] eqn:E; [done |].
  intros [= <- <-]. apply (f_equal (@List.rev string)) in E.
  rewrite rev_involutive in E. by rewrite E.
Qed.

Lemma split_last_None parts : OS.split_last parts = None -> parts = [].
Proof.
  unfold OS.split_last. destruct (List.rev parts) as [| x r] eqn:E; [| done].
  intros _. apply (f_equal (@List.rev string)) in E. by rewrite rev_involutive in E.
Qed.

Lemma open_wb_loc p w w' h :
  OS.open_wb p w = (w', inr h) ->
  h = resolve (w_cwd w) p /\ strictly_under [] h = true.
Proof.
  unfold OS.open_wb.
  destruct (OS.split_last (p_parts p)) as [[init name] |] eqn:Hs; [| done].
  apply split_last_Some in Hs.
  destruct (OS.walk (w_fs w) (OS.start w p) init) as [e | d] eqn:Hw; [done |].
  apply walk_resolve in Hw.
  destruct (decide (name = "..")); [done |].
  assert (d ++ [name] = resolve (w_cwd w) p) as Hloc.
  { unfold resolve. rewrite Hs, fold_left_app. simpl. unfold loc_step at 1.
    destruct (decide (name = "..")); [done |]. unfold OS.start in Hw. by rewrite Hw. }
  assert (strictly_under [] (d ++ [name]) = true)
    by (apply (strictly_under_app [] (d ++ [name])); by destruct d).
  destruct (node_at (w_fs w) (d ++ [name])) as [[| c m] |]; [done | |];
    intros [= _ <-]; by rewrite <- Hloc.
Qed.

(** [open] changes the file system at the location it gives, if at all. *)
Lemma open_wb_elsewhere p w w' r l :
  OS.open_wb p w = (w', r) -> l <> resolve (w_cwd w) p ->
  w_fs w' !! l = w_fs w !! l.
Proof.
  intros H Hl. destruct r as [e | h].
  - unfold OS.open_wb in H.
    destruct (OS.split_last (p_parts p)) as [[init name] |]; [| by inversion H].
    destruct (OS.walk (w_fs w) (OS.start w p) init) as [e' | d]; [by inversion H |].
    destruct (decide (name = "..")); [by inversion H |].
    destruct (node_at (w_fs w) (d ++ [name])) as [[| c m] |]; by inversion H.
  - destruct (open_wb_loc _ _ _ _ H) as [Hh _].
    unfold OS.open_wb in H.
    destruct (OS.split_last (p_parts p)) as [[init name] |]; [| done].
    destruct (OS.walk (w_fs w) (OS.start w p) init) as [e' | d]; [done |].
    destruct (decide (name = "..")); [done |].
    destruct (node_at (w_fs w) (d ++ [name])) as [[| c m] |]; [done | |];
      inversion H; subst w' h; simpl; rewrite lookup_insert_ne; congruence.
Qed.

Lemma write_elsewhere h data w w' r l :
  OS.write h data w = (w', r) -> l <> h -> w_fs w' !! l = w_fs w !! l.
Proof.
  unfold OS.write. intros H Hl.
  destruct (w_fs w !! h) as [[| c m] |]; inversion H; subst; try done.
  simpl. by rewrite lookup_insert_ne.
Qed.

Lemma stat_loc w p l n :
  OS.stat w p = inr (l, n) -> p_parts p <> [] -> l = resolve (w_cwd w) p.
Proof.
  unfold OS.stat.
  destruct (OS.split_last (p_parts p)) as [[init name] |] eqn:Hs;
    [| by apply split_last_None in Hs].
  apply split_last_Some in Hs.
  destruct (OS.walk (w_fs w) (OS.start w p) init) as [e | d] eqn:Hw; [done |].
  apply walk_resolve in Hw. intros H _.
  unfold resolve. rewrite Hs, fold_left_app. simpl. unfold loc_step at 1.
  unfold OS.start in Hw.
  destruct (decide (name = "..")).
  - inversion H; subst. done.
  - destruct (node_at (w_fs w) (d ++ [name])); inversion H; subst. done.
Qed.

Lemma chmod_elsewhere p mode w w' r l :
  OS.chmod p mode w = (w', r) -> p_parts p <> [] -> l <> resolve (w_cwd w) p ->
  w_fs w' !! l = w_fs w !! l.
Proof.
  unfold OS.chmod. intros H Hp Hl.
  destruct (OS.stat w p) as [e | [l' [| c m]]] eqn:Hs; inversion H; subst; try done.
  apply stat_loc in Hs; [| done]. subst l'. simpl. by rewrite lookup_insert_ne.
Qed.

(** [os.mkdir] leaves every location as it was or puts a directory where
    nothing was. *)
Lemma mkdir_new_dir p w w' r l :
  OS.mkdir p w = (w', r) -> same_or_new_dir (w_fs w) (w_fs w') l.
Proof.
  unfold OS.mkdir, same_or_new_dir. intros H.
  destruct (OS.split_last (p_parts p)) as [[init name] |]; [| inversion H; auto].
  destruct (OS.walk (w_fs w) (OS.start w p) init) as [e | d]; [inversion H; auto |].
  destruct (decide (name = "..")); [inversion H; auto |].
  rewrite node_at_nonroot in H.
  destruct (w_fs w !! (d ++ [name])) eqn:E; inversion H; subst; [auto |]. simpl.
  destruct (decide (l = d ++ [name])) as [-> | Hne].
  - right. by rewrite lookup_insert_eq.
  - left. by rewrite lookup_insert_ne.
Qed.

(** ** [Path.mkdir] keeps what [os.mkdir] keeps *)

Section MkdirPreserves.

Variable R : World -> World -> Prop.
Hypothesis R_refl : forall w, R w w.
Hypothesis R_trans : forall w1 w2 w3, R w1 w2 -> R w2 w3 -> R w1 w3.

Lemma mkdir_except_OSError_preserves exist_ok self e :
  preserves R (mkdir_except_OSError exist_ok self e).
Proof.
  intros w w' r H. unfold mkdir_except_OSError in H.
  destruct (is_OSError e); [destruct (_ || _) |]; inversion H; subst; apply R_refl.
Qed.

Lemma Path_mkdir_flat_preserves exist_ok self :
  preserves R (OS.mkdir self) -> preserves R (Path_mkdir_flat exist_ok self).
Proof.
  intros R_mkdir w w' r H. unfold Path_mkdir_flat in H.
  destruct (OS.mkdir self w) as [w1 [e | []]] eqn:E1; apply R_mkdir in E1.
  - destruct e; try (inversion H; subst; done);
      (eapply R_trans; [exact E1 | by eapply mkdir_except_OSError_preserves]).
  - inversion H; subst. done.
Qed.

Lemma Path_mkdir_rev_preserves parents exist_ok abs rparts :
  (forall p, preserves R (OS.mkdir p)) ->
  preserves R (Path_mkdir_rev parents exist_ok abs rparts).
Proof.
  intros R_mkdir. revert parents exist_ok.
  induction rparts as [| x rp IH]; intros parents exist_ok w w' r H;
    rewrite Path_mkdir_rev_unfold in H; cbv zeta in H;
    destruct (OS.mkdir _ w) as [w1 [e | []]] eqn:E1; apply R_mkdir in E1;
    try (inversion H; subst; done).
  - destruct e; try (inversion H; subst; done);
      (eapply R_trans; [exact E1 | by eapply mkdir_except_OSError_preserves]).
  - destruct e;
      try (eapply R_trans; [exact E1 | by eapply mkdir_except_OSError_preserves]).
    destruct parents; [| inversion H; subst; done].
    eapply R_trans; [exact E1 |].
    eapply (preserves_bind R R_trans); [apply IH | | exact H].
    intros ?. apply Path_mkdir_flat_preserves, R_mkdir.
Qed.

Lemma preserves_bind_dep {A B} (m : M A) (k : A -> M B) :
  preserves R m ->
  (forall w w1 a w2 r, m w = (w1, inr a) -> k a w1 = (w2, r) -> R w1 w2) ->
  preserves R (bind m k).
Proof.
  intros Hm Hk w w' r H. unfold bind in H.
  destruct (m w) as [w1 [e | a]] eqn:E.
  - inversion H; subst. eapply Hm; eauto.
  - eapply R_trans; [eapply Hm; eauto | eapply Hk; eauto].
Qed.

End MkdirPreserves.

(** ** Tar extraction: outside the destination only directories appear *)

Lemma same_or_new_dir_refl fs l : same_or_new_dir fs fs l.
Proof. by left. Qed.

Lemma same_or_new_dir_trans fs1 fs2 fs3 l :
  same_or_new_dir fs1 fs2 l -> same_or_new_dir fs2 fs3 l -> same_or_new_dir fs1 fs3 l.
Proof.
  unfold same_or_new_dir. intros [H12 | [H1 H2]] [H23 | [H2' H3]].
  - left. congruence.
  - right. split; congruence.
  - right. split; congruence.
  - congruence.
Qed.

Section TarContained.

Variables (cwd0 B : Loc).

Local Abbreviation R := (outside_dirs_only cwd0 B).

Lemma outside_dirs_only_refl w : R w w.
Proof. intros Hc. split; [done |]. intros l _. apply same_or_new_dir_refl. Qed.

Lemma outside_dirs_only_trans w1 w2 w3 : R w1 w2 -> R w2 w3 -> R w1 w3.
Proof.
  intros H12 H23 Hc. destruct (H12 Hc) as [Hc2 Ha]. destruct (H23 Hc2) as [Hc3 Hb].
  split; [done |]. intros l Hl. eapply same_or_new_dir_trans; eauto.
Qed.

Lemma mkdir_outside p : preserves R (OS.mkdir p).
Proof.
  intros w w' r H Hc. split.
  - apply mkdir_grows, grows_cwd in H. congruence.
  - intros l _. by eapply mkdir_new_dir.
Qed.

Lemma Path_mkdir_outside parents exist_ok p : preserves R (Path_mkdir parents exist_ok p).
Proof.
  apply Path_mkdir_rev_preserves;
    [apply outside_dirs_only_refl | apply outside_dirs_only_trans | apply mkdir_outside].
Qed.

Lemma open_wb_outside p :
  strictly_under B (resolve cwd0 p) = true -> preserves R (OS.open_wb p).
Proof.
  intros Hu w w' r H Hc. split.
  - apply open_wb_grows, grows_cwd in H. congruence.
  - intros l Hl. left. eapply open_wb_elsewhere; [exact H |]. congruence.
Qed.

Lemma write_outside h data :
  strictly_under B h = true -> preserves R (OS.write h data).
Proof.
  intros Hu w w' r H Hc. split.
  - apply write_grows, grows_cwd in H. congruence.
  - intros l Hl. left. eapply write_elsewhere; [exact H |]. congruence.
Qed.

Lemma chmod_outside p mode :
  strictly_under B (resolve cwd0 p) = true -> preserves R (OS.chmod p mode).
Proof.
  intros Hu w w' r H Hc. split.
  - apply chmod_grows, grows_cwd in H. congruence.
  - intros l Hl. left. destruct (decide (p_parts p = [])) as [He | Hne].
    + unfold OS.chmod, OS.stat in H. rewrite He in H. simpl in H. by inversion H.
    + eapply chmod_elsewhere; [exact H | done |]. congruence.
Qed.

End TarContained.

Lemma extract_tar_member_outside cwd0 prefix dst m :
  loc_ok cwd0 -> Forall (fun x => seg_ok x = true) (p_parts dst) ->
  preserves (outside_dirs_only cwd0 (resolve cwd0 dst)) (extract_tar_member prefix dst m).
Proof.
  set (B := resolve cwd0 dst). set (R := outside_dirs_only cwd0 B).
  intros Hcwd Hdst w w' r H Hc. revert Hc. change (R w w').
  unfold extract_tar_member in H.
  destruct (tar_out prefix dst m) as [out |] eqn:Hout;
    [| injection H as <- <-; apply (outside_dirs_only_refl cwd0 B)].
  unfold bind at 1, get_world in H.
  destruct (decide (w_cwd w = cwd0)) as [Hc | Hc]; [| by intros ?].
  rewrite Hc in H.
  destruct (_is_within cwd0 dst out) eqn:Hin; simpl in H;
    [| injection H as <- <-; apply (outside_dirs_only_refl cwd0 B)].
  assert (Hunder : strictly_under B (resolve cwd0 out) = true).
  { apply tar_out_strips in Hout as (rel & _ & _ & ->). unfold B.
    apply is_within_strictly_under; [| | done]; apply loc_ok_segs, resolve_ok; try done.
    by apply path_div_segs. }
  destruct (Tar.issym m || Tar.islnk m);
    [injection H as <- <-; apply (outside_dirs_only_refl cwd0 B) |].
  destruct (Tar.isdir m); [by eapply (Path_mkdir_outside cwd0 B) |].
  destruct (Tar.isfile m); [| injection H as <- <-; apply (outside_dirs_only_refl cwd0 B)].
  revert w w' r H Hc.
  assert (G : preserves R
                (Path_mkdir true true (path_parent out);;;
                 match Tar.extractfile m with
                 | Some src =>
                     f <- OS.open_wb out;;
                     data <- lift_result src;;
                     OS.write f data;;;
                     try_except (OS.chmod out (Z.land (tm_mode m) 511)) (fun _ => ret tt)
                 | None => ret tt
                 end)); [| intros w w' r H _; by eapply G].
  apply (preserves_bind R (outside_dirs_only_trans cwd0 B)); [apply (Path_mkdir_outside cwd0 B) |].
  intros _. destruct (Tar.extractfile m) as [src |];
    [| apply preserves_ret, (outside_dirs_only_refl cwd0 B)].
  apply (preserves_bind_dep R (outside_dirs_only_trans cwd0 B)); [by apply open_wb_outside |].
  intros w w1 h w2 r Hopen Hrest Hc1.
  assert (Hc0 : w_cwd w = cwd0).
  { apply open_wb_grows, grows_cwd in Hopen. congruence. }
  destruct (open_wb_loc _ _ _ _ Hopen) as [Hh _]. rewrite Hc0 in Hh. subst h.
  revert Hc1. change (R w1 w2). clear Hopen. revert w1 w2 r Hrest.
  change (preserves R
            (data <- lift_result src;;
             OS.write (resolve cwd0 out) data;;;
             try_except (OS.chmod out (Z.land (tm_mode m) 511)) (fun _ => ret tt))).
  apply (preserves_bind R (outside_dirs_only_trans cwd0 B));
    [apply preserves_lift_result, (outside_dirs_only_refl cwd0 B) |].
  intros data. apply (preserves_bind R (outside_dirs_only_trans cwd0 B));
    [by apply write_outside |].
  intros _. apply (preserves_try_except R (outside_dirs_only_trans cwd0 B));
    [by apply chmod_outside |].
  intros _. apply preserves_ret, (outside_dirs_only_refl cwd0 B).
Qed.


(** Whatever a tar archive holds, outside the destination no existing
    entry is changed and no file is written; directories may appear. *)
Lemma tar_extraction_outside tf dst w w' r l :
  loc_ok (w_cwd w) -> Forall (fun x => seg_ok x = true) (p_parts dst) ->
  _extract_tar_to tf dst w = (w', r) ->
  strictly_under (resolve (w_cwd w) dst) l = false ->
  same_or_new_dir (w_fs w) (w_fs w') l.
Proof.
  intros Hcwd Hdst H Hl. unfold _extract_tar_to in H.
  destruct (tar_prefix tf) as [prefix |]; [| inversion H; subst; by left].
  assert (G : preserves (outside_dirs_only (w_cwd w) (resolve (w_cwd w) dst))
                (for_each tf (extract_tar_member prefix dst))).
  { apply preserves_for_each;
      [apply outside_dirs_only_refl | apply outside_dirs_only_trans |].
    intros m. by apply extract_tar_member_outside. }
  destruct (G _ _ _ H eq_refl) as [_ Hout]. by apply Hout.
Qed.

(** ** Well-formed file systems *)

Lemma node_at_insert_ne (fs : FS) k n l :
  l <> k -> node_at (<[k := n]> fs) l = node_at fs l.
Proof. intros H. unfold node_at. destruct l; [done |]. by rewrite lookup_insert_ne. Qed.

Lemma snoc_neq_self {A} (l : list A) x : l <> l ++ [x].
Proof.
  intros H. apply (f_equal List.length) in H. rewrite length_app in H. simpl in H. lia.
Qed.

Lemma fs_wf_insert_new (fs : FS) d x n :
  fs_wf fs -> node_at fs d = Some Dir -> fs !! (d ++ [x]) = None ->
  fs_wf (<[d ++ [x] := n]> fs).
Proof.
  intros Hwf Hd Hnone l y n' H.
  destruct (decide (l ++ [y] = d ++ [x])) as [Heq | Hne].
  - apply app_inj_tail in Heq as [-> ->].
    rewrite node_at_insert_ne; [done | apply snoc_neq_self].
  - rewrite lookup_insert_ne in H by done.
    pose proof (Hwf _ _ _ H) as Hl.
    rewrite node_at_insert_ne; [done |].
    intros ->. rewrite node_at_nonroot in Hl. congruence.
Qed.

Lemma fs_wf_insert_file (fs : FS) k c m c' m' :
  fs_wf fs -> fs !! k = Some (File c m) -> fs_wf (<[k := File c' m']> fs).
Proof.
  intros Hwf Hk l y n' H.
  assert (Hold : exists n0, fs !! (l ++ [y]) = Some n0).
  { destruct (decide (l ++ [y] = k)) as [<- | Hne]; [eauto |].
    rewrite lookup_insert_ne in H by done. eauto. }
  destruct Hold as [n0 Hold]. pose proof (Hwf _ _ _ Hold) as Hl.
  destruct l as [| z l]; [done |].
  rewrite node_at_insert_ne; [done |]. intros <-. simpl in Hl. congruence.
Qed.

(** In a well-formed file system every location above an entry is a
    directory. *)
Lemma fs_wf_above (fs : FS) l more n :
  fs_wf fs -> more <> [] -> node_at fs (l ++ more) = Some n -> node_at fs l = Some Dir.
Proof.
  intros Hwf. revert n. induction more as [| x more IH] using rev_ind; intros n Hne H;
    [done |].
  rewrite app_assoc, node_at_nonroot in H. apply Hwf in H.
  destruct more as [| y more']; [by rewrite app_nil_r in H |].
  by eapply IH.
Qed.

Lemma walk_plain fs cur parts d :
  ".." ∉ parts -> OS.walk fs cur parts = inr d ->
  d = cur ++ parts /\ (parts <> [] -> node_at fs d = Some Dir).
Proof.
  revert cur. induction parts as [| x parts IH]; intros cur Hn; simpl.
  - intros [= <-]. by rewrite app_nil_r.
  - apply not_elem_of_cons in Hn as [Hx Hn].
    destruct (decide (x = "..")); [done |].
    destruct (node_at fs (cur ++ [x])) as [[| c m] |] eqn:E; [| done | done].
    intros H. destruct (IH _ Hn H) as [-> Hd]. split; [by rewrite <- app_assoc |].
    intros _. destruct parts as [| y parts]; [by rewrite app_nil_r | by apply Hd].
Qed.

Lemma walk_existing fs cur parts :
  fs_wf fs -> ".." ∉ parts -> node_at fs (cur ++ parts) = Some Dir ->
  OS.walk fs cur parts = inr (cur ++ parts).
Proof.
  intros Hwf. revert cur. induction parts as [| x parts IH]; intros cur Hn H; simpl.
  - by rewrite app_nil_r.
  - apply not_elem_of_cons in Hn as [Hx Hn].
    destruct (decide (x = "..")); [done |].
    change (x :: parts) with ([x] ++ parts) in H. rewrite app_assoc in H.
    assert (Hd : node_at fs (cur ++ [x]) = Some Dir).
    { destruct parts as [| y parts].
      - by rewrite app_nil_r in H.
      - by eapply (fs_wf_above fs (cur ++ [x]) (y :: parts)). }
    rewrite Hd. rewrite (IH (cur ++ [x]) Hn H). by rewrite <- app_assoc.
Qed.

(** ** Calls on resolved paths *)

Lemma mkdir_abs_effect P w w' r :
  ".." ∉ P -> OS.mkdir (mkPath true P) w = (w', r) ->
  w' = w
  \/ (exists init x,
        P = init ++ [x] /\ w_fs w !! P = None /\ node_at (w_fs w) init = Some Dir
        /\ w' = set_fs (<[P := Dir]> (w_fs w)) w).
Proof.
  intros Hn H. unfold OS.mkdir in H. cbn [p_parts p_abs OS.start] in H.
  destruct (OS.split_last P) as [[init name] |] eqn:Hs; [| left; by inversion H].
  apply split_last_Some in Hs. subst P.
  apply not_elem_of_app in Hn as [Hinit Hname].
  destruct (OS.walk (w_fs w) [] init) as [e | d] eqn:Hw; [left; by inversion H |].
  destruct (walk_plain _ _ _ _ Hinit Hw) as [Hd Hdir]. simpl in Hd. subst d.
  destruct (decide (name = "..")); [left; by inversion H |].
  rewrite node_at_nonroot in H.
  destruct (w_fs w !! (init ++ [name])) eqn:E; [left; by inversion H |].
  right. exists init, name. repeat split; try done.
  - destruct init; [done | by apply Hdir].
  - by inversion H.
Qed.

Lemma mkdir_abs_existing P w n :
  fs_wf (w_fs w) -> ".." ∉ P -> node_at (w_fs w) P = Some n ->
  OS.mkdir (mkPath true P) w = (w, inl (FileExistsError "File exists")).
Proof.
  intros Hwf Hn HP. unfold OS.mkdir. cbn [p_parts p_abs OS.start].
  destruct (OS.split_last P) as [[init name] |] eqn:Hs; [| done].
  apply split_last_Some in Hs. subst P.
  apply not_elem_of_app in Hn as [Hinit Hname].
  assert (Hd : node_at (w_fs w) init = Some Dir).
  { rewrite node_at_nonroot in HP. by apply Hwf in HP. }
  rewrite (walk_existing (w_fs w) [] init Hwf Hinit Hd). simpl.
  destruct (decide (name = "..")); [done |]. by rewrite HP.
Qed.

Lemma open_wb_abs_effect L w w' r :
  ".." ∉ L -> OS.open_wb (mkPath true L) w = (w', r) ->
  w' = w
  \/ (exists init x m,
        L = init ++ [x] /\ node_at (w_fs w) init = Some Dir
        /\ (w_fs w !! L = None \/ exists c m0, w_fs w !! L = Some (File c m0))
        /\ w' = set_fs (<[L := File EmptyString m]> (w_fs w)) w).
Proof.
  intros Hn H. unfold OS.open_wb in H. cbn [p_parts p_abs OS.start] in H.
  destruct (OS.split_last L) as [[init name] |] eqn:Hs; [| left; by inversion H].
  apply split_last_Some in Hs. subst L.
  apply not_elem_of_app in Hn as [Hinit Hname].
  destruct (OS.walk (w_fs w) [] init) as [e | d] eqn:Hw; [left; by inversion H |].
  destruct (walk_plain _ _ _ _ Hinit Hw) as [Hd Hdir]. simpl in Hd. subst d.
  destruct (decide (name = "..")); [left; by inversion H |].
  rewrite node_at_nonroot in H.
  assert (Hparent : node_at (w_fs w) init = Some Dir).
  { destruct init; [done | by apply Hdir]. }
  destruct (w_fs w !! (init ++ [name])) as [[| c m0] |] eqn:E.
  - left. by inversion H.
  - right. exists init, name, m0. repeat split; try done; [eauto | by inversion H].
  - right. eexists init, name, _. repeat split; try done; [eauto | by inversion H].
Qed.

(** ** Zip extraction: nothing changes outside the destination *)

Section ZipContained.

Variables (cwd0 B : Loc).
Hypothesis B_plain : ".." ∉ B.

Local Abbreviation R := (outside_unchanged cwd0 B).

Lemma outside_unchanged_refl w : R w w.
Proof. intros Hc Hwf HB. done. Qed.

Lemma outside_unchanged_trans w1 w2 w3 : R w1 w2 -> R w2 w3 -> R w1 w3.
Proof.
  intros H12 H23 Hc Hwf HB.
  destruct (H12 Hc Hwf HB) as (Hc2 & Hwf2 & HB2 & Ha).
  destruct (H23 Hc2 Hwf2 HB2) as (Hc3 & Hwf3 & HB3 & Hb).
  repeat split; try done. intros l Hl. rewrite Hb, Ha; done.
Qed.

(** Putting an entry strictly below [B], in a directory, where nothing or
    a file of the same kind was *)
Lemma insert_below (w : World) init x n :
  strictly_under B (init ++ [x]) = true ->
  node_at (w_fs w) init = Some Dir ->
  (w_fs w !! (init ++ [x]) = None
   \/ exists c m c' m', w_fs w !! (init ++ [x]) = Some (File c m) /\ n = File c' m') ->
  R w (set_fs (<[init ++ [x] := n]> (w_fs w)) w).
Proof.
  intros Hu Hd Hold Hc Hwf HB. cbn [w_cwd w_fs set_fs].
  split; [done |]. split.
  - destruct Hold as [Hnone | (c & m & c' & m' & Hf & ->)].
    + by apply fs_wf_insert_new.
    + by eapply fs_wf_insert_file.
  - split.
    + rewrite node_at_insert_ne; [done |]. intros ->.
      unfold strictly_under in Hu. apply andb_prop in Hu as [Hu _].
      apply Nat.ltb_lt in Hu. lia.
    + intros l Hl. rewrite lookup_insert_ne; [done |]. intros <-. congruence.
Qed.

Lemma mkdir_below rest :
  ".." ∉ rest -> rest <> [] -> preserves R (OS.mkdir (mkPath true (B ++ rest))).
Proof.
  intros Hn Hne w w' r H.
  assert (Hplain : ".." ∉ B ++ rest) by (by apply not_elem_of_app).
  destruct (mkdir_abs_effect _ _ _ _ Hplain H) as [-> | (init & x & HP & Hnone & Hd & ->)].
  - apply outside_unchanged_refl.
  - rewrite HP in *. apply insert_below; [| done | by left].
    rewrite <- HP. by apply strictly_under_app.
Qed.

Lemma mkdir_at_B w w' r :
  OS.mkdir (mkPath true B) w = (w', r) ->
  w_cwd w = cwd0 -> fs_wf (w_fs w) -> node_at (w_fs w) B = Some Dir ->
  w' = w /\ r = inl (FileExistsError "File exists").
Proof.
  intros H Hc Hwf HB. rewrite (mkdir_abs_existing B w Dir Hwf B_plain HB) in H.
  by inversion H.
Qed.

(** Creating a resolved path at or below [B], with its parents *)
Lemma Path_mkdir_below parents exist_ok rest :
  ".." ∉ rest ->
  preserves R (Path_mkdir_rev parents exist_ok true (List.rev (B ++ rest))).
Proof.
  revert parents exist_ok.
  induction rest as [| x rest IH] using rev_ind; intros parents exist_ok Hn w w' r H.
  - rewrite app_nil_r in H. rewrite Path_mkdir_rev_unfold in H. cbv zeta in H.
    rewrite rev_involutive in H. intros Hc Hwf HB.
    destruct (OS.mkdir (mkPath true B) w) as [w1 [e | []]] eqn:E;
      destruct (mkdir_at_B _ _ _ E Hc Hwf HB) as [-> He]; [| done].
    inversion He; subst e. unfold mkdir_except_OSError in H. simpl in H.
    destruct (negb exist_ok || negb (OS.is_dir w (mkPath true B)));
      inversion H; subst; done.
  - apply not_elem_of_app in Hn as [Hrest Hx].
    assert (Hrev : List.rev (B ++ rest ++ [x]) = x :: List.rev (B ++ rest)).
    { rewrite app_assoc, rev_app_distr. reflexivity. }
    rewrite Hrev in H. rewrite Path_mkdir_rev_unfold in H. cbv zeta in H.
    rewrite <- Hrev, rev_involutive in H.
    assert (Hmk : preserves R (OS.mkdir (mkPath true (B ++ rest ++ [x])))).
    { apply mkdir_below; [by apply not_elem_of_app | by destruct rest]. }
    destruct (OS.mkdir _ w) as [w1 [e | []]] eqn:E1; apply Hmk in E1;
      [| by inversion H; subst].
    destruct e;
      try (eapply outside_unchanged_trans;
           [exact E1 | by eapply (mkdir_except_OSError_preserves R outside_unchanged_refl)]).
    destruct parents; [| by inversion H; subst].
    eapply outside_unchanged_trans; [exact E1 |].
    eapply (preserves_bind R outside_unchanged_trans); [by apply IH | | exact H].
    intros ?. by apply (Path_mkdir_flat_preserves R outside_unchanged_refl outside_unchanged_trans).
Qed.

Lemma open_wb_below rest :
  ".." ∉ rest -> rest <> [] -> preserves R (OS.open_wb (mkPath true (B ++ rest))).
Proof.
  intros Hn Hne w w' r H.
  assert (Hplain : ".." ∉ B ++ rest) by (by apply not_elem_of_app).
  destruct (open_wb_abs_effect _ _ _ _ Hplain H)
    as [-> | (init & x & m & HP & Hd & Hold & ->)].
  - apply outside_unchanged_refl.
  - rewrite HP in *. apply insert_below; [| done |].
    + rewrite <- HP. by apply strictly_under_app.
    + destruct Hold as [? | (c & m0 & ?)]; [by left | right; eauto 6].
Qed.

Lemma write_below rest data :
  rest <> [] -> preserves R (OS.write (B ++ rest) data).
Proof.
  intros Hne w w' r H. unfold OS.write in H.
  destruct (w_fs w !! (B ++ rest)) as [[| c m] |] eqn:E;
    try (inversion H; subst; apply outside_unchanged_refl).
  inversion H; subst. clear H.
  destruct (exists_last Hne) as (rinit & x & ->).
  intros Hc Hwf HB. rewrite app_assoc in *.
  apply insert_below; try done.
  - rewrite <- app_assoc. apply strictly_under_app. by destruct rinit.
  - by apply Hwf in E.
  - right. eauto 6.
Qed.

Lemma chmod_below rest mode :
  ".." ∉ rest -> rest <> [] -> preserves R (OS.chmod (mkPath true (B ++ rest)) mode).
Proof.
  intros Hn Hne w w' r H. unfold OS.chmod in H.
  destruct (OS.stat w _) as [e | [l [| c m]]] eqn:Hs;
    try (inversion H; subst; apply outside_unchanged_refl).
  inversion H; subst. clear H.
  pose proof (stat_lookup _ _ _ _ _ Hs) as Hl.
  apply stat_loc in Hs; [| simpl; by destruct B, rest].
  rewrite resolve_loc in Hs by (by apply not_elem_of_app). subst l.
  destruct (exists_last Hne) as (rinit & x & ->).
  intros Hc Hwf HB. rewrite app_assoc in *.
  apply insert_below; try done.
  - rewrite <- app_assoc. apply strictly_under_app. by destruct rinit.
  - by apply Hwf in Hl.
  - right. eauto 6.
Qed.

End ZipContained.

Lemma not_elem_of_removelast {A} (x : A) (l : list A) : x ∉ l -> x ∉ removelast l.
Proof.
  intros Hn Hin. apply Hn. clear Hn.
  induction l as [| y l IH]; [done |]. simpl in Hin.
  destruct l as [| z l]; [by apply elem_of_nil in Hin |].
  apply elem_of_cons in Hin as [-> | Hin]; [left | right; by apply IH].
Qed.

Lemma extract_zip_entry_outside cwd0 zf prefix dst name :
  loc_ok cwd0 -> Forall (fun x => seg_ok x = true) (p_parts dst) ->
  preserves (outside_unchanged cwd0 (resolve cwd0 dst))
    (extract_zip_entry zf prefix dst name).
Proof.
  set (B := resolve cwd0 dst). set (R := outside_unchanged cwd0 B).
  intros Hcwd Hdst w w' r H.
  assert (HBok : loc_ok B) by (by apply resolve_ok).
  assert (HBplain : ".." ∉ B) by (by apply loc_ok_no_dots).
  unfold extract_zip_entry in H.
  destruct (zip_rel prefix name) as [rel |] eqn:Hrel;
    [| injection H as <- <-; apply (outside_unchanged_refl cwd0 B)].
  unfold bind at 1, get_world in H.
  destruct (decide (w_cwd w = cwd0)) as [Hc | Hc]; [| by intros ?].
  rewrite Hc in H.
  unfold bind at 1 in H. unfold lift_result, Path_resolve in H.
  destruct (has_nul (path_div dst rel));
    [injection H as <- <-; apply (outside_unchanged_refl cwd0 B) |].
  set (L := resolve cwd0 (path_div dst rel)) in *.
  assert (HLok : loc_ok L) by (apply resolve_ok; [done | by apply path_div_segs]).
  assert (HLplain : ".." ∉ L) by (by apply loc_ok_no_dots).
  destruct (_is_within cwd0 dst (mkPath true L)) eqn:Hin; simpl in H;
    [| injection H as <- <-; apply (outside_unchanged_refl cwd0 B)].
  assert (Hunder : strictly_under B L = true).
  { pose proof (is_within_strictly_under cwd0 dst (mkPath true L)) as Hs.
    rewrite (resolve_loc cwd0 L HLplain) in Hs.
    apply Hs; [by apply loc_ok_segs | by apply loc_ok_segs | done]. }
  apply strictly_under_inv in Hunder as (rest & Hne & HL).
  assert (Hrest : ".." ∉ rest).
  { intros Hx. apply HLplain. rewrite HL. apply elem_of_app. by right. }
  clearbody L. subst L.
  destruct (PyStr.endswith "/" name).
  { by eapply (Path_mkdir_below cwd0 B HBplain true true rest). }
  revert w w' r H Hc.
  assert (G : preserves R
    (Path_mkdir true true (path_parent (mkPath true (B ++ rest)));;;
     match Zip.getinfo zf name with
     | Some info =>
         match z_data info with
         | ZipOpenFails e => raise e
         | ZipReadFails e => OS.open_wb (mkPath true (B ++ rest));;; raise e
         | ZipBytes data => f <- OS.open_wb (mkPath true (B ++ rest));; OS.write f data
         end;;;
         (let perm := Z.land (Z.shiftr (z_external_attr info) 16) 511 in
          if Z.eqb perm 0 then ret tt
          else try_except (OS.chmod (mkPath true (B ++ rest)) perm) (fun _ => ret tt))
     | None => raise (KeyError name)
     end)); [| intros w w' r H _; by eapply G].
  apply (preserves_bind R (outside_unchanged_trans cwd0 B)).
  { unfold Path_mkdir, path_parent. cbn [p_abs p_parts].
    rewrite removelast_app by done.
    apply (Path_mkdir_below cwd0 B HBplain). by apply not_elem_of_removelast. }
  intros _. destruct (Zip.getinfo zf name) as [info |];
    [| apply preserves_raise, (outside_unchanged_refl cwd0 B)].
  apply (preserves_bind R (outside_unchanged_trans cwd0 B)).
  - destruct (z_data info) as [e | e | data].
    + apply preserves_raise, (outside_unchanged_refl cwd0 B).
    + apply (preserves_bind R (outside_unchanged_trans cwd0 B));
        [by apply open_wb_below |].
      intros _. apply preserves_raise, (outside_unchanged_refl cwd0 B).
    + apply (preserves_bind_dep R (outside_unchanged_trans cwd0 B));
        [by apply open_wb_below |].
      intros w w1 h w2 r Hopen Hw.
      destruct (open_wb_loc _ _ _ _ Hopen) as [Hh _].
      rewrite resolve_loc in Hh by (by apply not_elem_of_app). subst h.
      by eapply write_below.
  - intros _. cbv zeta. destruct (Z.eqb _ 0);
      [apply preserves_ret, (outside_unchanged_refl cwd0 B) |].
    apply (preserves_try_except R (outside_unchanged_trans cwd0 B));
      [by apply chmod_below |].
    intros _. apply preserves_ret, (outside_unchanged_refl cwd0 B).
Qed.

(** Whatever a zip archive holds, extraction into an existing directory
    of a well-formed file system changes nothing outside that directory. *)
Lemma zip_extraction_outside zf dst w w' r l :
  loc_ok (w_cwd w) -> Forall (fun x => seg_ok x = true) (p_parts dst) ->
  fs_wf (w_fs w) -> node_at (w_fs w) (resolve (w_cwd w) dst) = Some Dir ->
  _extract_zip_to zf dst w = (w', r) ->
  strictly_under (resolve (w_cwd w) dst) l = false ->
  w_fs w' !! l = w_fs w !! l.
Proof.
  intros Hcwd Hdst Hwf HB H Hl. unfold _extract_zip_to in H.
  assert (G : preserves (outside_unchanged (w_cwd w) (resolve (w_cwd w) dst))
                (for_each (Zip.namelist zf)
                   (extract_zip_entry zf (zip_prefix (Zip.namelist zf)) dst))).
  { apply preserves_for_each;
      [apply outside_unchanged_refl | apply outside_unchanged_trans |].
    intros name. by apply extract_zip_entry_outside. }
  destruct (G _ _ _ H eq_refl Hwf HB) as (_ & _ & _ & Hout). by apply Hout.
Qed.

(* ================================================================== *)
(** * Further properties of the code *)

(** ** The guard *)

Lemma join_app_nonempty l1 l2 :
  l1 <> [] -> l2 <> [] ->
  PyStr.join "/" (l1 ++ l2) = PyStr.join "/" l1 +:+ "/" +:+ PyStr.join "/" l2.
Proof.
  intros H1 H2. induction l1 as [| x l1 IH]; [done |].
  destruct l1 as [| y l1].
  - simpl app. rewrite join_cons. destruct l2; [done |].
    rewrite (join_cons x []), str_app_nil_r. reflexivity.
  - change ((x :: y :: l1) ++ l2) with (x :: (y :: l1) ++ l2).
    rewrite (join_cons x ((y :: l1) ++ l2)), (join_cons x (y :: l1)).
    simpl app at 1. rewrite IH by done.
    rewrite str_app_assoc. f_equal.
Qed.

Lemma is_within_root cwd base target :
  Forall (fun x => seg_ok x = true) (resolve cwd target) ->
  resolve cwd base = [] -> _is_within cwd base target = false.
Proof.
  intros HL HB.
  destruct (has_nul base) eqn:Hnb; [unfold _is_within, Path_resolve; by rewrite Hnb |].
  destruct (has_nul target) eqn:Hnt;
    [unfold _is_within, Path_resolve; by rewrite Hnb, Hnt |].
  rewrite is_within_plain by done. unfold PyStr.startswith, loc_str. rewrite HB.
  change (PyStr.join "/" []) with EmptyString.
  rewrite !str_app_cons, !str_app_nil.
  destruct (String.prefix _ _) eqn:E; [| done].
  apply prefix_cons in E as [_ E].
  destruct HL as [| x L Hx HL]; [done |].
  rewrite join_cons in E. unfold seg_ok in Hx. apply andb_prop in Hx as [Hn Hs].
  destruct x as [| c x]; [done |]. rewrite str_app_cons in E.
  apply prefix_cons in E as [<- _]. simpl in Hs. done.
Qed.

(** X1.  For paths whose resolved forms are made of proper segments,
    [_is_within] holds exactly when neither path holds a NUL (with one,
    [resolve] raises and the [except] branch answers [False]), the base
    is not the root directory and the target lies strictly below the
    base: the base itself, anything beside it and, when the base is the
    root, everything, are refused. *)
Theorem is_within_iff_strictly_below cwd base target :
  Forall (fun x => seg_ok x = true) (resolve cwd base) ->
  Forall (fun x => seg_ok x = true) (resolve cwd target) ->
  _is_within cwd base target = true
  <-> has_nul base = false /\ has_nul target = false
      /\ resolve cwd base <> []
      /\ strictly_under (resolve cwd base) (resolve cwd target) = true.
Proof.
  intros HB HL. split.
  - intros H. destruct (is_within_no_nul _ _ _ H) as [Hnb Hnt].
    split; [done |]. split; [done |]. split.
    + intros Hroot. by rewrite (is_within_root cwd base target HL Hroot) in H.
    + by apply is_within_strictly_under.
  - intros (Hnb & Hnt & Hne & Hu).
    apply strictly_under_inv in Hu as (rest & Hrest & Heq).
    rewrite is_within_plain by done.
    unfold loc_str. rewrite Heq, join_app_nonempty by done.
    rewrite <- !str_app_assoc. apply startswith_refl_app.
Qed.

Lemma is_within_iff_strictly_below_witness :
  _is_within ["home"; "u"] (parse_path "widget") (parse_path "widget/src/../a.txt") = true
  <-> has_nul (parse_path "widget") = false
      /\ has_nul (parse_path "widget/src/../a.txt") = false
      /\ resolve ["home"; "u"] (parse_path "widget") <> []
      /\ strictly_under (resolve ["home"; "u"] (parse_path "widget"))
           (resolve ["home"; "u"] (parse_path "widget/src/../a.txt")) = true.
Proof.
  apply (is_within_iff_strictly_below ["home"; "u"] (parse_path "widget")
           (parse_path "widget/src/../a.txt"));
    vm_compute; repeat constructor.
Defined.

(** ** Extraction *)

(** X2.  Whatever a tar archive holds, extracting it into a destination
    given on the command line changes no existing entry and writes no
    file outside the destination: at a location that is not strictly
    below it, the entry is what it was, or a directory where nothing was. *)
Theorem tar_writes_no_file_outside (tf : list TarInfo) (target : string)
    (w : World) (l : Loc) :
  loc_ok (w_cwd w) ->
  strictly_under (resolve (w_cwd w) (parse_path target)) l = false ->
  same_or_new_dir (w_fs w) (w_fs (fst (_extract_tar_to tf (parse_path target) w))) l.
Proof.
  intros Hcwd Hl.
  destruct (_extract_tar_to tf (parse_path target) w) as [w' r] eqn:E.
  eapply tar_extraction_outside; eauto. apply parse_path_segs.
Qed.

Lemma tar_writes_no_file_outside_witness :
  let w := Sample.w_offline in
  let w' := fst (_extract_tar_to Sample.tar_detour (parse_path "widget") w) in
  same_or_new_dir (w_fs w) (w_fs w') ["home"; "u"; "evil"]
  /\ same_or_new_dir (w_fs w) (w_fs w') ["home"; "u"].
Proof.
  intros w w'. split.
  - apply (tar_writes_no_file_outside Sample.tar_detour "widget" w ["home"; "u"; "evil"]);
      [repeat constructor; discriminate | vm_compute; reflexivity].
  - apply (tar_writes_no_file_outside Sample.tar_detour "widget" w ["home"; "u"]);
      [repeat constructor; discriminate | vm_compute; reflexivity].
Defined.

(** X3.  Whatever a zip archive holds, extracting it into an existing
    directory of a well-formed file system changes nothing at any location
    that is not strictly below that directory. *)
Theorem zip_changes_nothing_outside (zf : list ZipInfo) (target : string)
    (w : World) (l : Loc) :
  loc_ok (w_cwd w) -> fs_wf (w_fs w) ->
  node_at (w_fs w) (resolve (w_cwd w) (parse_path target)) = Some Dir ->
  strictly_under (resolve (w_cwd w) (parse_path target)) l = false ->
  w_fs (fst (_extract_zip_to zf (parse_path target) w)) !! l = w_fs w !! l.
Proof.
  intros Hcwd Hwf Hdir Hl.
  destruct (_extract_zip_to zf (parse_path target) w) as [w' r] eqn:E.
  eapply zip_extraction_outside; eauto. apply parse_path_segs.
Qed.

Lemma fs_wf_b_sound fs : fs_wf_b fs = true -> fs_wf fs.
Proof.
  unfold fs_wf_b. intros H%bool_decide_eq_true l x n Hl.
  apply H in Hl. by rewrite removelast_last in Hl.
Qed.

Lemma zip_changes_nothing_outside_witness :
  let w := Sample.w_offline in
  let w' := fst (_extract_zip_to Sample.zip_with_link (parse_path "widget") w) in
  w_fs w' !! ["home"; "u"; "link"] = w_fs w !! ["home"; "u"; "link"]
  /\ w_fs w' !! ["etc"; "passwd"] = w_fs w !! ["etc"; "passwd"].
Proof.
  intros w w'. split.
  - apply (zip_changes_nothing_outside Sample.zip_with_link "widget" w ["home"; "u"; "link"]);
      [repeat constructor; discriminate | apply fs_wf_b_sound; vm_compute; reflexivity
      | vm_compute; reflexivity | vm_compute; reflexivity].
  - apply (zip_changes_nothing_outside Sample.zip_with_link "widget" w ["etc"; "passwd"]);
      [repeat constructor; discriminate | apply fs_wf_b_sound; vm_compute; reflexivity
      | vm_compute; reflexivity | vm_compute; reflexivity].
Defined.

(** X4.  Extraction only adds: every entry that exists before is still
    there afterwards with its kind, whether extraction ends normally or
    raises, and it sends no request and prints nothing. *)
Theorem extraction_only_adds (tf : list TarInfo) (zf : list ZipInfo) (dst : Path)
    (w : World) :
  grows w (fst (_extract_tar_to tf dst w))
  /\ grows w (fst (_extract_zip_to zf dst w)).
Proof.
  split.
  - destruct (_extract_tar_to tf dst w) as [w' r] eqn:E. by eapply _extract_tar_to_grows.
  - destruct (_extract_zip_to zf dst w) as [w' r] eqn:E. by eapply _extract_zip_to_grows.
Qed.

Lemma tar_member_ineffective prefix dst m w :
  tar_effective m = false -> extract_tar_member prefix dst m w = (w, inr tt).
Proof.
  unfold tar_effective. intros [Hd Hf]%orb_false_elim. unfold extract_tar_member.
  destruct (tar_out prefix dst m) as [out |]; [| done].
  unfold bind, get_world. destruct (negb _); [done |].
  destruct (_ || _); [done |]. by rewrite Hd, Hf.
Qed.

Lemma tar_prefix_effective tf : tar_prefix (List.filter tar_effective tf) = tar_prefix tf.
Proof.
  induction tf as [| m tf IH]; [done |]. simpl.
  unfold tar_effective at 1. destruct (Tar.isdir m) eqn:Hd; simpl.
  - by rewrite Hd.
  - destruct (Tar.isfile m); simpl; [by rewrite Hd | done].
Qed.

(** X5.  Only directories and regular files of a tar archive have any
    effect: extracting the archive without its other members (links,
    devices, fifos) gives the same world and the same outcome. *)
Theorem tar_other_members_have_no_effect (tf : list TarInfo) (dst : Path) (w : World) :
  _extract_tar_to (List.filter tar_effective tf) dst w = _extract_tar_to tf dst w.
Proof.
  unfold _extract_tar_to. rewrite tar_prefix_effective.
  destruct (tar_prefix tf) as [prefix |]; [| done].
  revert w. induction tf as [| m tf IH]; intros w; [done |]. simpl.
  destruct (tar_effective m) eqn:He; simpl.
  - unfold bind. destruct (extract_tar_member prefix dst m w) as [w1 [e | []]]; [done |].
    apply IH.
  - unfold bind. rewrite (tar_member_ineffective prefix dst m w He). apply IH.
Qed.

(** ** Locator *)


(** ** Calls and requests of the cascade *)

Lemma made_calls_nil w : made_calls [] w w.
Proof. unfold made_calls. simpl. by rewrite !app_nil_r. Qed.

Lemma made_calls_same w w' :
  w_requests w' = w_requests w -> w_sent w' = w_sent w -> made_calls [] w w'.
Proof. intros Hr Hs. unfold made_calls. simpl. by rewrite Hr, Hs, !app_nil_r. Qed.

Lemma made_calls_app c1 c2 w1 w2 w3 :
  made_calls c1 w1 w2 -> made_calls c2 w2 w3 -> made_calls (c1 ++ c2) w1 w3.
Proof.
  intros [Hr1 Hs1] [Hr2 Hs2]. unfold made_calls.
  rewrite Hr2, Hr1, Hs2, Hs1, map_app, flat_map_app. by rewrite !app_assoc.
Qed.

(** One call: the request, with the redirections [urlopen] followed. *)
Lemma made_calls_log rq w :
  made_calls [(rq, w_redirects w (List.length (w_requests w)) rq)] w (log_request rq w).
Proof. unfold made_calls, log_request, wire, chain_requests. simpl. by rewrite app_nil_r. Qed.

Lemma grows_made_calls w w' : grows w w' -> made_calls [] w w'.
Proof.
  intros (_ & _ & _ & _ & (Hr & Hs) & _). unfold made_calls. simpl.
  by rewrite !app_nil_r.
Qed.

Lemma run_tier_calls dst owner repo ref_sha branch_name t w :
  made_calls [(tier_request owner repo ref_sha branch_name t,
               w_redirects w (List.length (w_requests w))
                 (tier_request owner repo ref_sha branch_name t))]
    w (fst (run_tier dst owner repo ref_sha branch_name t w)).
Proof.
  pose proof (run_tier_effect dst owner repo ref_sha branch_name t w) as (Hr & _).
  pose proof (run_tier_sent dst owner repo ref_sha branch_name t w) as (Hs & _).
  unfold made_calls, chain_requests. simpl. rewrite Hr, Hs. unfold wire.
  by rewrite app_nil_r.
Qed.

Lemma try_tiers_calls dst owner repo ref_sha branch_name ts errs w :
  exists chains,
    (List.length chains <= List.length ts)%nat
    /\ (ts <> [] -> (1 <= List.length chains)%nat)
    /\ map fst chains
       = map (tier_request owner repo ref_sha branch_name) (take (List.length chains) ts)
    /\ made_calls chains w (fst (try_tiers dst owner repo ref_sha branch_name ts errs w)).
Proof.
  revert errs w. induction ts as [| t ts IH]; intros errs w.
  - exists []. simpl. split; [lia |]. split; [done |]. split; [done |].
    apply made_calls_nil.
  - simpl. unfold attempt.
    pose proof (run_tier_calls dst owner repo ref_sha branch_name t w) as Hc.
    set (c := (tier_request owner repo ref_sha branch_name t,
               w_redirects w (List.length (w_requests w))
                 (tier_request owner repo ref_sha branch_name t))) in *.
    destruct (run_tier dst owner repo ref_sha branch_name t w) as [w1 [e | []]];
      simpl in Hc.
    + destruct (is_Exception e).
      * destruct (IH (errs ++ [tier_label t +:+ ": " +:+ str_exn e]) w1)
          as (chains & Hn & _ & Hm & Hcalls).
        exists (c :: chains). simpl. split; [lia |]. split; [lia |].
        split; [by rewrite Hm |].
        exact (made_calls_app [c] chains _ _ _ Hc Hcalls).
      * exists [c]. simpl. split; [lia |]. split; [lia |].
        split; [done |]. exact Hc.
    + exists [c]. simpl. split; [lia |]. split; [lia |].
      split; [done |]. exact Hc.
Qed.


(** ** Calls and requests of a whole run *)

Lemma sends_ok_refl token w : sends_ok token w w.
Proof.
  intros H. split; [done |]. exists []. split; [apply made_calls_nil | constructor].
Qed.

Lemma sends_ok_trans token w1 w2 w3 :
  sends_ok token w1 w2 -> sends_ok token w2 w3 -> sends_ok token w1 w3.
Proof.
  intros H12 H23 H. destruct (H12 H) as (H2 & c1 & E1 & F1).
  destruct (H23 H2) as (H3 & c2 & E2 & F2). split; [done |].
  exists (c1 ++ c2). split; [by eapply made_calls_app | by apply Forall_app].
Qed.

Lemma grows_sends_ok {A} token (m : M A) :
  preserves grows m -> preserves (sends_ok token) m.
Proof.
  intros Hm w w' r E Ht. apply Hm in E.
  pose proof (grows_made_calls _ _ E) as Hc.
  destruct E as (_ & _ & Htok & _).
  split; [congruence |]. exists []. split; [exact Hc | constructor].
Qed.

Lemma http_sends_ok token url accept token' :
  header token' = None
  \/ (header token' = header token
      /\ PyStr.startswith "https://api.github.com/repos/" url = true) ->
  preserves (sends_ok token) (_http url accept token').
Proof.
  intros Hok w w' r H Ht. pose proof (http_logs url accept token' w) as Hl.
  rewrite H in Hl. simpl in Hl. subst w'. split; [done |].
  eexists [_]. split; [apply made_calls_log |]. apply Forall_singleton. by split.
Qed.

Lemma stderr_sends_ok token text : preserves (sends_ok token) (rich_print_stderr text).
Proof.
  intros w w' r H. unfold rich_print_stderr in H.
  destruct (w_markup w text); inversion H; subst; try apply sends_ok_refl.
  intros Ht. split; [done |]. exists []. split; [by apply made_calls_same | constructor].
Qed.

Lemma modify_sends_ok token f :
  (forall w, w_token (f w) = w_token w /\ w_requests (f w) = w_requests w
             /\ w_sent (f w) = w_sent w) ->
  preserves (sends_ok token) (modify f).
Proof.
  intros Hf w w' r [= <- _] Ht. destruct (Hf w) as (Hk & Hr & Hs).
  split; [congruence |]. exists []. split; [| constructor].
  unfold made_calls. simpl. by rewrite Hr, Hs, !app_nil_r.
Qed.

Lemma clear_tree_sends_ok token dst : preserves (sends_ok token) (clear_tree dst).
Proof.
  intros w w' r H. unfold clear_tree in H.
  destruct (OS.stat w dst) as [e | [l [| c m]]]; inversion H; subst;
    try apply sends_ok_refl.
  intros Ht. split; [done |]. exists []. split; [by apply made_calls_same | constructor].
Qed.

Ltac sends_step token :=
  first
    [ apply (preserves_bind (sends_ok token) (sends_ok_trans token)); [| intros ?]
    | apply (preserves_try_except (sends_ok token) (sends_ok_trans token)); [| intros ?]
    | apply (preserves_ret (sends_ok token) (sends_ok_refl token))
    | apply (preserves_raise (sends_ok token) (sends_ok_refl token))
    | apply (preserves_lift_result (sends_ok token) (sends_ok_refl token))
    | apply (preserves_get_world (sends_ok token) (sends_ok_refl token))
    | apply http_sends_ok; left; reflexivity
    | apply clear_tree_sends_ok
    | apply stderr_sends_ok
    | apply modify_sends_ok; intros ?; repeat split; reflexivity
    | apply grows_sends_ok, rich_print_grows
    | apply grows_sends_ok, Path_mkdir_grows
    | apply grows_sends_ok, Path_write_text_grows ].

Lemma guess_default_sha_html_sends_ok token owner repo hint :
  preserves (sends_ok token) (_guess_default_sha_html owner repo hint).
Proof.
  unfold _guess_default_sha_html.
  repeat (apply (preserves_first_branch _ (sends_ok_refl token) (sends_ok_trans token));
          [intros b; unfold probe_commits, probe_tree, scrape, _read;
           repeat sends_step token |]).
  sends_step token.
Qed.

Lemma resolve_api_sends_ok token owner repo :
  preserves (sends_ok token) (resolve_api owner repo token).
Proof.
  unfold resolve_api, _json.
  sends_step token.
  { sends_step token; [| sends_step token].
    apply http_sends_ok. right. split; [done |].
    rewrite ?str_app_assoc. by rewrite startswith_refl_app. }
  sends_step token; [sends_step token |].
  sends_step token.
  { sends_step token; [| sends_step token].
    apply http_sends_ok. right. split; [done |].
    rewrite ?str_app_assoc. by rewrite startswith_refl_app. }
  repeat sends_step token.
Qed.

Lemma resolve_ref_sends_ok token owner repo :
  preserves (sends_ok token) (resolve_ref owner repo).
Proof.
  intros w w' r H Ht. unfold resolve_ref in H. unfold bind at 1, get_world in H.
  cbn beta iota in H. rewrite Ht in H. revert H Ht. revert w w' r.
  match goal with
  | |- forall w w' r, ?m w = (w', r) -> _ => change (preserves (sends_ok token) m)
  end.
  sends_step token; [apply resolve_api_sends_ok |].
  sends_step token; [apply guess_default_sha_html_sends_ok | repeat sends_step token].
Qed.

Lemma download_snapshot_sends_ok token dst owner repo ref_sha branch_name :
  preserves (sends_ok token) (_download_snapshot dst owner repo ref_sha branch_name).
Proof.
  intros w w' r H. rewrite download_snapshot_unfold in H. revert w w' r H.
  generalize (@nil string) as errs. generalize six_tiers as ts.
  induction ts as [| t ts IH]; intros errs; simpl; [sends_step token |].
  apply (preserves_attempt _ (sends_ok_trans token)); [| intros es; exact (IH es)].
  intros w w' r H Ht.
  pose proof (run_tier_effect dst owner repo ref_sha branch_name t w)
    as (_ & _ & _ & Hk & _).
  pose proof (run_tier_calls dst owner repo ref_sha branch_name t w) as Hc.
  rewrite H in Hk, Hc. simpl in Hk, Hc. split; [congruence |].
  eexists [_]. split; [exact Hc |]. apply Forall_singleton. split; [done | by left].
Qed.

Lemma write_ref_grows base vb vs : preserves grows (write_ref base vb vs).
Proof.
  unfold write_ref. grows_step; [grows_step |]. grows_step; [grows_step |].
  apply Path_write_text_grows.
Qed.

Lemma write_git_skeleton_grows dst url vb vs :
  preserves grows (_write_git_skeleton dst url vb vs).
Proof.
  unfold _write_git_skeleton. cbv zeta.
  repeat (grows_step;
          [first [apply Path_mkdir_grows | apply Path_write_text_grows
                 | apply write_ref_grows] |]).
  apply Path_write_text_grows.
Qed.

Lemma bootstrap_sends_ok token url dst : preserves (sends_ok token) (bootstrap url dst).
Proof.
  unfold bootstrap.
  apply (preserves_bind _ (sends_ok_trans token)); [sends_step token |].
  intros [owner repo].
  apply (preserves_bind _ (sends_ok_trans token)); [sends_step token |]. intros _.
  apply (preserves_bind _ (sends_ok_trans token)); [apply resolve_ref_sends_ok |].
  intros [vb vs].
  apply (preserves_bind _ (sends_ok_trans token)); [apply download_snapshot_sends_ok |].
  intros _. apply grows_sends_ok, write_git_skeleton_grows.
Qed.

Lemma main_sends_ok token args : preserves (sends_ok token) (main args).
Proof.
  unfold main, prepare_destination, report_failure.
  sends_step token.
  - sends_step token; [sends_step token |].
    sends_step token; [| repeat sends_step token].
    destruct (OS.exists_ _ _); [destruct (negb _) |]; repeat sends_step token.
  - sends_step token; [apply bootstrap_sends_ok | repeat sends_step token].
Qed.


(** ** What a run removes *)

Lemma same_kind_refl n : same_kind n n = true.
Proof. by destruct n. Qed.

Lemma keeps_refl cwd0 P w : keeps cwd0 P w w.
Proof.
  intros H. split; [done |]. intros l n _ Hl. exists n. split; [done | apply same_kind_refl].
Qed.

Lemma keeps_trans cwd0 P w1 w2 w3 :
  keeps cwd0 P w1 w2 -> keeps cwd0 P w2 w3 -> keeps cwd0 P w1 w3.
Proof.
  intros H12 H23 H. destruct (H12 H) as [H2 K12]. destruct (H23 H2) as [H3 K23].
  split; [done |]. intros l n HP Hl.
  destruct (K12 l n HP Hl) as (n2 & Hl2 & S12).
  destruct (K23 l n2 HP Hl2) as (n3 & Hl3 & S23).
  exists n3. split; [done |]. by eapply same_kind_trans.
Qed.

Lemma grows_keeps {A} cwd0 P (m : M A) : preserves grows m -> preserves (keeps cwd0 P) m.
Proof.
  intros Hm w w' r E Hc. apply Hm in E as (Hcwd & _ & _ & _ & _ & _ & Hle).
  split; [congruence |]. intros l n _ Hl. by apply Hle.
Qed.

Lemma http_keeps cwd0 P url accept token : preserves (keeps cwd0 P) (_http url accept token).
Proof.
  intros w w' r H. pose proof (http_logs url accept token w) as Hl.
  rewrite H in Hl. simpl in Hl. subst w'. intros Hc. split; [done |].
  intros l n _ Hl. exists n. split; [done | apply same_kind_refl].
Qed.

Lemma modify_keeps cwd0 P f :
  (forall w, w_cwd (f w) = w_cwd w /\ w_fs (f w) = w_fs w) ->
  preserves (keeps cwd0 P) (modify f).
Proof.
  intros Hf w w' r [= <- _] Hc. destruct (Hf w) as [Hk Hr].
  split; [congruence |]. intros l n _ Hl. exists n. rewrite Hr.
  split; [done | apply same_kind_refl].
Qed.

Lemma stderr_keeps cwd0 P text : preserves (keeps cwd0 P) (rich_print_stderr text).
Proof.
  intros w w' r H. unfold rich_print_stderr in H.
  destruct (w_markup w text); inversion H; subst; try apply keeps_refl.
  intros Hc. split; [done |]. intros l n _ Hl. exists n.
  split; [done | apply same_kind_refl].
Qed.

Lemma stat_resolve w p l n : OS.stat w p = inr (l, n) -> l = resolve (w_cwd w) p.
Proof.
  destruct (decide (p_parts p = [])) as [E | E]; [| intros H; by eapply stat_loc].
  unfold OS.stat, resolve, OS.start. rewrite E. simpl. by intros [= <- _].
Qed.

Lemma clear_tree_keeps cwd0 P dst :
  (forall l, P l = true -> strictly_under (resolve cwd0 dst) l = false) ->
  preserves (keeps cwd0 P) (clear_tree dst).
Proof.
  intros HP w w' r H Hc. unfold clear_tree in H.
  destruct (OS.stat w dst) as [e | [l0 [| c m]]] eqn:Hs; inversion H; subst w' r;
    try (by apply keeps_refl).
  apply stat_resolve in Hs. rewrite Hc in Hs. subst l0.
  split; [done |]. intros l n Hl Hn. exists n. split; [| apply same_kind_refl].
  simpl. apply HP in Hl.
  apply map_lookup_filter_Some. split; [| done].
  apply map_lookup_filter_Some. split; [done |]. simpl. by rewrite Hl.
Qed.

Ltac keeps_step :=
  first
    [ apply (preserves_bind _ (keeps_trans _ _)); [| intros ?]
    | apply (preserves_try_except _ (keeps_trans _ _)); [| intros ?]
    | apply (preserves_ret _ (keeps_refl _ _))
    | apply (preserves_raise _ (keeps_refl _ _))
    | apply (preserves_lift_result _ (keeps_refl _ _))
    | apply (preserves_get_world _ (keeps_refl _ _))
    | apply http_keeps
    | apply modify_keeps; intros ?; split; reflexivity
    | apply stderr_keeps
    | apply grows_keeps, rich_print_grows
    | apply grows_keeps, Path_mkdir_grows ].

Lemma guess_default_sha_html_keeps cwd0 P owner repo hint :
  preserves (keeps cwd0 P) (_guess_default_sha_html owner repo hint).
Proof.
  unfold _guess_default_sha_html.
  repeat (apply (preserves_first_branch _ (keeps_refl _ _) (keeps_trans _ _));
          [intros b; unfold probe_commits, probe_tree, scrape, _read; repeat keeps_step |]).
  keeps_step.
Qed.

Lemma resolve_ref_keeps cwd0 P owner repo : preserves (keeps cwd0 P) (resolve_ref owner repo).
Proof.
  unfold resolve_ref, resolve_api, _json. keeps_step; [keeps_step |].
  keeps_step; [repeat keeps_step |].
  keeps_step; [apply guess_default_sha_html_keeps | repeat keeps_step].
Qed.

Lemma download_snapshot_keeps cwd0 P dst owner repo ref_sha branch_name :
  preserves (keeps cwd0 P) (_download_snapshot dst owner repo ref_sha branch_name).
Proof.
  intros w w' r H. rewrite download_snapshot_unfold in H. revert w w' r H.
  generalize (@nil string) as errs. generalize six_tiers as ts.
  induction ts as [| t ts IH]; intros errs; simpl; [keeps_step |].
  apply (preserves_attempt _ (keeps_trans _ _)); [| intros es; exact (IH es)].
  intros w w' r H Hc.
  pose proof (run_tier_effect dst owner repo ref_sha branch_name t w)
    as (_ & Hk & _ & _ & _ & _ & Hle).
  rewrite H in Hk, Hle. simpl in Hk, Hle. split; [congruence |].
  intros l n _ Hl. by apply Hle.
Qed.

Lemma bootstrap_keeps cwd0 P url dst : preserves (keeps cwd0 P) (bootstrap url dst).
Proof.
  unfold bootstrap.
  apply (preserves_bind _ (keeps_trans _ _)); [keeps_step |]. intros [owner repo].
  apply (preserves_bind _ (keeps_trans _ _)); [keeps_step |]. intros _.
  apply (preserves_bind _ (keeps_trans _ _)); [apply resolve_ref_keeps |].
  intros [vb vs].
  apply (preserves_bind _ (keeps_trans _ _)); [apply download_snapshot_keeps |].
  intros _. apply grows_keeps, write_git_skeleton_grows.
Qed.

Lemma main_keeps cwd0 P args :
  (a_force args = true ->
   forall l, P l = true -> strictly_under (resolve cwd0 (parse_path (a_target args))) l = false) ->
  preserves (keeps cwd0 P) (main args).
Proof.
  intros HP. unfold main, prepare_destination, report_failure.
  keeps_step.
  - keeps_step; [keeps_step |].
    keeps_step; [| repeat keeps_step].
    destruct (OS.exists_ _ _); [destruct (a_force args); simpl |]; repeat keeps_step.
    by apply clear_tree_keeps, HP.
  - keeps_step; [apply bootstrap_keeps | repeat keeps_step].
Qed.

(** X9.  What a run can remove.  Without [--force] no entry of the file
    system is removed or changes its kind (a file stays a file, a
    directory a directory), however the run ends; with [--force] this
    holds of every entry that is not strictly below the destination. *)
Theorem run_removes_only_below_forced_destination (args : Args) (w : World)
    (l : Loc) (n : Node) :
  w_fs w !! l = Some n ->
  a_force args = false
  \/ strictly_under (resolve (w_cwd w) (parse_path (a_target args))) l = false ->
  exists n', w_fs (fst (run args w)) !! l = Some n' /\ same_kind n n' = true.
Proof.
  intros Hl Hside.
  set (P := fun k : Loc =>
              negb (a_force args)
              || negb (strictly_under (resolve (w_cwd w) (parse_path (a_target args))) k)).
  assert (HP : P l = true).
  { unfold P. destruct Hside as [-> | ->]; [done | by rewrite orb_true_r]. }
  assert (Hmain : preserves (keeps (w_cwd w) P) (main args)).
  { apply main_keeps. intros F k Hk. unfold P in Hk. rewrite F in Hk. simpl in Hk.
    by apply negb_true_iff in Hk. }
  unfold run. destruct (main args w) as [w' r] eqn:E.
  apply Hmain in E. destruct (E eq_refl) as [_ K].
  destruct (K l n HP Hl) as (n' & Hn' & Hs). exists n'. split; [| done].
  destruct r as [e | []]; [destruct e as [?|?|?|?|?|?|?|?|?|?|[?|?]] |]; exact Hn'.
Qed.

Lemma run_removes_only_below_forced_destination_witness :
  exists n',
    w_fs (fst (run {| a_url := "https://github.com/acme/widget"; a_target := "widget";
                      a_force := true |}
                 (Sample.world Sample.home_with_file Sample.net_down)))
      !! ["home"; "u"; "widget"] = Some n'
    /\ same_kind Dir n' = true.
Proof.
  apply (run_removes_only_below_forced_destination
           {| a_url := "https://github.com/acme/widget"; a_target := "widget";
              a_force := true |}
           (Sample.world Sample.home_with_file Sample.net_down)
           ["home"; "u"; "widget"] Dir).
  - vm_compute. reflexivity.
  - right. vm_compute. reflexivity.
Defined.

(** ** Git skeleton: configuration *)

Lemma write_ref_strings base vb vs w w' :
  write_ref base vb vs w = (w', inr tt) -> exists b s, vb = PyStr b /\ vs = PyStr s.
Proof.
  intros H. unfold write_ref in H.
  apply bind_ok in H as (w1 & p & Hp & H).
  apply bind_ok in H as (w2 & t & Ht & _).
  unfold lift_result, path_div_val in Hp. unfold lift_result, py_add_str in Ht.
  destruct vb as [b | |]; [| done | done]. destruct vs as [s | |]; [| done | done].
  by exists b, s.
Qed.

(** X10.  When [_write_git_skeleton] ends normally, whatever the branch
    name, [.git/config] holds the configuration text built from the URL
    and the branch, and [.git/objects/info/promisor] the word [promisor]
    and a line break; and the branch and the commit id were strings: with
    any other value the skeleton is not completed. *)
Theorem skeleton_config_and_promisor (dst : Path) (url : string) (vb vs : PyVal)
    (w w' : World) :
  _write_git_skeleton dst url vb vs w = (w', inr tt) ->
  let git := resolve (w_cwd w) dst ++ [".git"] in
  content_at w' (git ++ ["config"]) = Some (git_config url vb)
  /\ content_at w' (git ++ ["objects"; "info"; "promisor"]) = Some ("promisor" +:+ nl)
  /\ exists b s, vb = PyStr b /\ vs = PyStr s.
Proof.
  intros H git. unfold _write_git_skeleton in H.
  apply bind_ok in H as (w1 & [] & H1 & H). apply Path_mkdir_ok_cwd in H1.
  apply bind_ok in H as (w2 & [] & H2 & H). apply Path_mkdir_ok_cwd in H2.
  apply bind_ok in H as (w3 & [] & H3 & H). apply Path_mkdir_ok_cwd in H3.
  apply bind_ok in H as (w4 & [] & H4 & H). apply Path_mkdir_ok_cwd in H4.
  apply bind_ok in H as (w5 & [] & H5 & H). apply Path_write_text_grows, grows_cwd in H5.
  apply bind_ok in H as (w6 & [] & H6 & H).
  pose proof (write_ref_strings _ _ _ _ _ H6) as Hstr.
  apply write_ref_grows, grows_cwd in H6.
  apply bind_ok in H as (w7 & [] & H7 & H). apply write_ref_grows, grows_cwd in H7.
  apply bind_ok in H as (w8 & [] & H8 & H). apply write_ref_grows, grows_cwd in H8.
  assert (Hcwd : w_cwd w8 = w_cwd w) by congruence.
  clear H1 H2 H3 H4 H5 H6 H7 H8 w1 w2 w3 w4 w5 w6 w7.
  destruct dst as [abs dparts].
  set (gparts := dparts ++ [".git"]) in *.
  assert (Hgit : resolve (w_cwd w) (mkPath abs gparts) = git).
  { unfold gparts, git. apply resolve_app. by intros ?%list_elem_of_singleton. }
  apply bind_ok in H as (w9 & [] & H9 & H).
  change (path_div (path_div (mkPath abs dparts) ".git") "config")
    with (mkPath abs (gparts ++ ["config"])) in H9.
  apply Path_write_text_ok in H9 as [m9 ->]; [| done].
  change (path_div (path_div (mkPath abs dparts) ".git") "objects/info/promisor")
    with (mkPath abs (gparts ++ (["objects"; "info"] ++ ["promisor"]))) in H.
  rewrite app_assoc in H.
  apply Path_write_text_ok in H as [m10 ->]; [| done].
  cbn [w_cwd set_fs] in *. rewrite Hcwd in *.
  rewrite <- (app_assoc gparts ["objects"; "info"] ["promisor"]).
  rewrite !resolve_app, Hgit
    by (intros Hin; repeat (apply elem_of_cons in Hin as [Hin | Hin]; [discriminate |]);
        by apply elem_of_nil in Hin).
  unfold content_at. cbn [w_fs set_fs]. split; [| split; [| exact Hstr]].
  - rewrite lookup_insert_ne by distinct_locs. by rewrite lookup_insert_eq.
  - by rewrite lookup_insert_eq.
Qed.

Lemma skeleton_config_and_promisor_witness :
  let w := Sample.world Sample.home_fs Sample.net_down in
  let vb := PyStr "trunk" in
  let w' := fst (_write_git_skeleton Sample.widget "https://github.com/acme/widget"
                   vb (PyStr Sample.sha) w) in
  let git := ["home"; "u"; "widget"; ".git"] in
  content_at w' (git ++ ["config"])
  = Some (git_config "https://github.com/acme/widget" vb)
  /\ content_at w' (git ++ ["objects"; "info"; "promisor"]) = Some ("promisor" +:+ nl)
  /\ exists b s, vb = PyStr b /\ PyStr Sample.sha = PyStr s.
Proof.
  intros w vb w' git.
  apply (skeleton_config_and_promisor Sample.widget "https://github.com/acme/widget"
           vb (PyStr Sample.sha) w w').
  vm_compute. reflexivity.
Defined.

(** ** What extraction writes *)

(** Putting a file where no directory was does not change where a walk
    that succeeded leads. *)
Lemma walk_insert_file (fs : FS) L c m cur parts d :
  fs !! L <> Some Dir -> OS.walk fs cur parts = inr d ->
  OS.walk (<[L := File c m]> fs) cur parts = inr d.
Proof.
  intros HL. revert cur. induction parts as [| x parts IH]; intros cur; simpl; [done |].
  destruct (decide (x = "..")); [apply IH |].
  destruct (node_at fs (cur ++ [x])) as [[| c0 m0] |] eqn:E; [| done | done].
  rewrite node_at_insert_ne.
  - rewrite E. apply IH.
  - intros Heq. rewrite node_at_nonroot, Heq in E. by rewrite E in HL.
Qed.

(** A file opened, written and given a mode: all three succeed and leave
    the data and the mode at the location the path resolves to. *)
Lemma write_file_effect p data mode w w1 h w2 r2 w3 r3 :
  OS.open_wb p w = (w1, inr h) ->
  OS.write h data w1 = (w2, r2) ->
  OS.chmod p mode w2 = (w3, r3) ->
  h = resolve (w_cwd w) p /\ r2 = inr tt /\ r3 = inr tt
  /\ w3 = set_fs (<[h := File data mode]> (w_fs w)) w.
Proof.
  intros Ho Hw Hc. destruct (open_wb_loc _ _ _ _ Ho) as [Hh _]. split; [done |]. clear Hh.
  unfold OS.open_wb in Ho.
  destruct (OS.split_last (p_parts p)) as [[init name] |] eqn:Hs; [| done].
  destruct (OS.walk (w_fs w) (OS.start w p) init) as [e | d] eqn:Hwalk; [done |].
  destruct (decide (name = "..")) as [| Hname]; [done |].
  rewrite node_at_nonroot in Ho.
  assert (exists m0, w_fs w !! (d ++ [name]) <> Some Dir
                     /\ w1 = set_fs (<[d ++ [name] := File EmptyString m0]> (w_fs w)) w
                     /\ h = d ++ [name]) as (m0 & Hnd & -> & ->).
  { destruct (w_fs w !! (d ++ [name])) as [[| c m0] |]; [done | |];
      inversion Ho; subst; eexists; by repeat split. }
  unfold OS.write in Hw. cbn [w_fs set_fs] in Hw. rewrite lookup_insert_eq in Hw.
  inversion Hw; subst w2 r2. clear Hw. split; [done |].
  unfold OS.chmod, OS.stat in Hc. cbn [w_fs set_fs] in Hc. rewrite Hs in Hc.
  rewrite insert_insert_eq in Hc.
  change (OS.start (set_fs _ (set_fs _ w)) p) with (OS.start w p) in Hc.
  rewrite (walk_insert_file _ _ _ _ _ _ _ Hnd Hwalk) in Hc.
  destruct (decide (name = "..")); [done |].
  rewrite node_at_nonroot, lookup_insert_eq in Hc.
  inversion Hc; subst w3 r3. split; [done |].
  unfold set_fs. cbn. by rewrite insert_insert_eq.
Qed.

Lemma isfile_only m :
  Tar.isfile m = true -> Tar.issym m = false /\ Tar.islnk m = false /\ Tar.isdir m = false.
Proof. unfold Tar.isfile, Tar.issym, Tar.islnk, Tar.isdir. by destruct (tm_type m). Qed.

(** X11.  A regular member of a tar archive whose path lies below the
    destination and whose data can be read: when the loop body ends
    normally, the file at the resolved path holds exactly the member's
    data, and its mode is the member's mode cut to the permission bits
    ([& 0o777]). *)
Theorem tar_file_member_written (prefix : string) (dst out : Path) (m : TarInfo)
    (data : string) (w w' : World) :
  tar_out prefix dst m = Some out ->
  _is_within (w_cwd w) dst out = true ->
  Tar.isfile m = true ->
  tm_data m = inr data ->
  extract_tar_member prefix dst m w = (w', inr tt) ->
  w_fs w' !! resolve (w_cwd w) out = Some (File data (Z.land (tm_mode m) 511)).
Proof.
  intros Hout Hin Hfile Hdata H.
  destruct (isfile_only m Hfile) as (Hsym & Hlnk & Hdir).
  unfold extract_tar_member in H. rewrite Hout in H.
  unfold bind at 1, get_world in H. cbn beta iota in H.
  rewrite Hin, Hsym, Hlnk, Hdir, Hfile in H. cbn [negb orb] in H.
  unfold Tar.extractfile in H. rewrite Hfile, Hdata in H.
  apply bind_ok in H as (w0 & [] & Hmk & H). apply Path_mkdir_ok_cwd in Hmk.
  apply bind_ok in H as (w1 & h & Hopen & H).
  apply bind_ok in H as (w1' & d & [= <- <-] & H).
  apply bind_ok in H as (w2 & [] & Hwrite & H).
  unfold try_except in H.
  destruct (OS.chmod out (Z.land (tm_mode m) 511) w2) as [w3 r3] eqn:Hchmod.
  destruct (write_file_effect _ _ _ _ _ _ _ _ _ _ Hopen Hwrite Hchmod)
    as (-> & _ & -> & ->).
  inversion H; subst w'. cbn [w_fs set_fs]. rewrite Hmk. by rewrite lookup_insert_eq.
Qed.

Lemma tar_file_member_written_witness :
  let w := Sample.world Sample.home_fs Sample.net_down in
  let m := mkTarInfo "widget-deadbee/src/a.txt" REGTYPE 33261 (inr "hello") in
  w_fs (fst (extract_tar_member "widget-deadbee/" Sample.widget m w))
    !! ["home"; "u"; "widget"; "src"; "a.txt"]
  = Some (File "hello" 493).
Proof.
  intros w m.
  apply (tar_file_member_written "widget-deadbee/" Sample.widget
           (path_div Sample.widget "src/a.txt") m "hello" w
           (fst (extract_tar_member "widget-deadbee/" Sample.widget m w)));
    vm_compute; reflexivity.
Defined.

Lemma open_write_effect p data w w1 h w2 r2 :
  OS.open_wb p w = (w1, inr h) ->
  OS.write h data w1 = (w2, r2) ->
  exists m, w2 = set_fs (<[h := File data m]> (w_fs w)) w.
Proof.
  intros Ho Hw. unfold OS.open_wb in Ho.
  destruct (OS.split_last (p_parts p)) as [[init name] |]; [| done].
  destruct (OS.walk (w_fs w) (OS.start w p) init) as [e | d]; [done |].
  destruct (decide (name = "..")); [done |].
  assert (exists m0, w1 = set_fs (<[h := File EmptyString m0]> (w_fs w)) w) as (m0 & ->).
  { destruct (node_at (w_fs w) (d ++ [name])) as [[| c m0] |]; [done | |];
      inversion Ho; subst; by eexists. }
  unfold OS.write in Hw. cbn [w_fs set_fs] in Hw. rewrite lookup_insert_eq in Hw.
  inversion Hw; subst w2 r2. exists m0. unfold set_fs. cbn. by rewrite insert_insert_eq.
Qed.

(** X12.  A file entry of a zip archive whose path lies below the
    destination: when the loop body ends normally, the file at the
    resolved path holds the data of the entry that [getinfo] gives for
    the name (the last one of that name in the archive), and its mode is
    the permission bits of that entry's attributes when these are not
    zero. *)
Theorem zip_entry_written (zf : list ZipInfo) (prefix target name rel : string)
    (info : ZipInfo) (data : string) (w w' : World) :
  loc_ok (w_cwd w) ->
  zip_rel prefix name = Some rel ->
  PyStr.endswith "/" name = false ->
  Zip.getinfo zf name = Some info ->
  z_data info = ZipBytes data ->
  let dst := parse_path target in
  let L := resolve (w_cwd w) (path_div dst rel) in
  let perm := Z.land (Z.shiftr (z_external_attr info) 16) 511 in
  _is_within (w_cwd w) dst (mkPath true L) = true ->
  extract_zip_entry zf prefix dst name w = (w', inr tt) ->
  exists m, w_fs w' !! L = Some (File data m) /\ (perm <> 0 -> m = perm).
Proof.
  intros Hcwd Hrel Hend Hinfo Hdata dst L perm Hin H.
  assert (HLplain : ".." ∉ L).
  { apply loc_ok_no_dots, resolve_ok; [done |]. apply path_div_segs, parse_path_segs. }
  unfold extract_zip_entry in H. rewrite Hrel in H.
  unfold bind at 1, get_world in H. cbn beta iota zeta in H.
  unfold bind at 1 in H. unfold lift_result, Path_resolve in H.
  destruct (has_nul (path_div dst rel)); [done |].
  fold L in H. rewrite Hin, Hend in H. cbn [negb] in H.
  apply bind_ok in H as (w0 & [] & Hmk & H).
  pose proof (Path_mkdir_ok_cwd _ _ _ _ _ _ Hmk) as Hc0.
  rewrite Hinfo, Hdata in H.
  apply bind_ok in H as (w2 & [] & Hwritten & H).
  apply bind_ok in Hwritten as (w1 & h & Hopen & Hwrite).
  fold perm in H.
  assert (Hh : h = L).
  { destruct (open_wb_loc _ _ _ _ Hopen) as [Hh _]. by rewrite resolve_loc in Hh. }
  destruct (Z.eqb_spec perm 0) as [Hz | Hnz].
  - inversion H; subst w'.
    destruct (open_write_effect _ _ _ _ _ _ _ Hopen Hwrite) as [m ->].
    exists m. cbn [w_fs set_fs]. rewrite Hh, lookup_insert_eq. by split.
  - unfold try_except in H.
    destruct (OS.chmod (mkPath true L) perm w2) as [w3 r3] eqn:Hchmod.
    destruct (write_file_effect _ _ _ _ _ _ _ _ _ _ Hopen Hwrite Hchmod)
      as (_ & _ & -> & ->).
    inversion H; subst w'. exists perm. cbn [w_fs set_fs].
    rewrite Hh, lookup_insert_eq. by split.
Qed.

Lemma zip_entry_written_witness :
  let old := mkZipInfo "widget-main/run.sh" 0 (ZipBytes "old") in
  let new := mkZipInfo "widget-main/run.sh" (Z.shiftl 33261 16) (ZipBytes "new") in
  let w := Sample.world Sample.home_fs Sample.net_down in
  exists m,
    w_fs (fst (extract_zip_entry [old; new] "widget-main/" (parse_path "widget")
                 "widget-main/run.sh" w))
      !! ["home"; "u"; "widget"; "run.sh"] = Some (File "new" m)
    /\ (Z.land (Z.shiftr (z_external_attr new) 16) 511 <> 0
        -> m = Z.land (Z.shiftr (z_external_attr new) 16) 511).
Proof.
  intros old new w.
  apply (zip_entry_written [old; new] "widget-main/" "widget" "widget-main/run.sh"
           "run.sh" new "new" w
           (fst (extract_zip_entry [old; new] "widget-main/" (parse_path "widget")
                   "widget-main/run.sh" w))).
  - repeat constructor; vm_compute; congruence.
  - vm_compute. reflexivity.
  - vm_compute. reflexivity.
  - vm_compute. reflexivity.
  - reflexivity.
  - vm_compute. reflexivity.
  - vm_compute. reflexivity.
Defined.

(** ** Requests of the HTML tier *)

Lemma probe_page_world owner repo pg w :
  fst (probe_page owner repo pg w) = log_request (page_request owner repo pg) w.
Proof.
  pose proof (http_logs (page_url owner repo pg) None None w) as Hl.
  destruct pg as [b | b]; simpl in *;
    unfold probe_commits, probe_tree, try_except, scrape, _read, bind;
    destruct (_http _ None None w) as [w1 [e | body]]; simpl in *; subst w1;
    try done; by destruct (is_Exception e).
Qed.

Lemma first_page_requests owner repo pgs w :
  exists n,
    (n <= List.length pgs)%nat /\ (pgs <> [] -> (1 <= n)%nat)
    /\ w_requests (fst (first_page owner repo pgs w))
       = w_requests w ++ map (page_request owner repo) (take n pgs)
    /\ w_fs (fst (first_page owner repo pgs w)) = w_fs w
    /\ w_stderr (fst (first_page owner repo pgs w)) = w_stderr w
    /\ forall b sha, snd (first_page owner repo pgs w) = inr (b, sha) ->
         exists pg, pgs !! (n - 1)%nat = Some pg /\ (1 <= n)%nat /\ page_branch pg = b.
Proof.
  revert w. induction pgs as [| pg pgs IH]; intros w.
  - exists 0%nat. simpl. rewrite app_nil_r. repeat split; try done; lia.
  - simpl. unfold bind. pose proof (probe_page_world owner repo pg w) as Hw.
    destruct (probe_page owner repo pg w) as [w1 [e | [sha |]]]; simpl in Hw; subst w1.
    + exists 1%nat. simpl. rewrite ?take_0. repeat split; try done; lia.
    + exists 1%nat. simpl. rewrite ?take_0. repeat split; try done; try lia.
      intros b sha' [= <- <-]. by exists pg.
    + destruct (IH (log_request (page_request owner repo pg) w))
        as (n & Hn & _ & Hr & Hf & He & Hres).
      exists (S n). simpl. rewrite Hr, Hf, He. simpl. rewrite <- app_assoc.
      repeat split; try done; try lia.
      intros b sha Hb. destruct (Hres b sha Hb) as (pg' & Hpg & H1 & Hbr).
      exists pg'. repeat split; try done; [| lia].
      destruct n as [| n]; [lia |]. simpl in *. by rewrite Nat.sub_0_r in Hpg.
Qed.


(** ** Tiers that do not get as far as unpacking *)

Lemma run_tier_closed dst owner repo ref_sha branch_name t w :
  tier_opens owner repo ref_sha branch_name t w = false ->
  exists e,
    run_tier dst owner repo ref_sha branch_name t w
    = (log_request (tier_request owner repo ref_sha branch_name t) w, inl e).
Proof.
  unfold tier_opens, run_tier, tier_request.
  destruct t as [[] [] a]; cbn [t_format t_mode];
    unfold _download_tar_stream, fetch_bytes, _read, bind, _http, lift_result;
    cbn [header];
    destruct (w_net w _ _) as [e | b]; try (intros _; by eexists);
    try (destruct (body_is_empty b); simpl; [intros _; by eexists |]).
  - destruct (body_tar_stream b) as [e | tf]; [intros _; by eexists |].
    intros H. apply bool_decide_eq_false in H.
    unfold _extract_tar_to. destruct (tar_prefix tf); [by destruct H | by eexists].
  - destruct (body_tar b) as [e | tf]; [intros _; by eexists |].
    intros H. apply bool_decide_eq_false in H.
    unfold _extract_tar_to. destruct (tar_prefix tf); [by destruct H | by eexists].
  - destruct (body_zip b) as [e | zf]; [intros _; by eexists | done].
  - destruct (body_zip b) as [e | zf]; [intros _; by eexists | done].
Qed.

Lemma try_tiers_closed dst owner repo ref_sha branch_name (net : nat -> Request -> Response)
    ts errs w :
  (forall t w1, t ∈ ts -> w_net w1 = net ->
                tier_opens owner repo ref_sha branch_name t w1 = false) ->
  w_net w = net ->
  w_fs (fst (try_tiers dst owner repo ref_sha branch_name ts errs w)) = w_fs w
  /\ exists e, snd (try_tiers dst owner repo ref_sha branch_name ts errs w) = inl e.
Proof.
  revert errs w. induction ts as [| t ts IH]; intros errs w Hclosed Hnet; simpl.
  - split; [done | by eexists].
  - unfold attempt.
    destruct (run_tier_closed dst owner repo ref_sha branch_name t w) as [e ->].
    { apply Hclosed; [left | done]. }
    destruct (is_Exception e); [| split; [done | by eexists]].
    destruct (IH (errs ++ [tier_label t +:+ ": " +:+ str_exn e])
                (log_request (tier_request owner repo ref_sha branch_name t) w))
      as [Hfs He]; [| exact Hnet | split; [exact Hfs | exact He]].
    intros t' w1 Hin. apply Hclosed. by right.
Qed.



(** ** The reference a run resolves *)

Lemma resolve_api_result owner repo token w w' vb vs :
  resolve_api owner repo token w = (w', inr (vb, vs)) ->
  py_truthy vb = true /\ py_sliceable vs = inr tt.
Proof.
  intros H. unfold resolve_api in H.
  apply bind_ok in H as (w1 & meta & _ & H).
  apply bind_ok in H as (w2 & v & _ & H).
  apply bind_ok in H as (w3 & tip & _ & H).
  apply bind_ok in H as (w4 & head_sha & _ & H).
  apply bind_ok in H as (w5 & shown & Hs & H).
  apply bind_ok in H as (w6 & [] & _ & H).
  injection H as _ <- <-. split.
  - destruct (py_truthy v) eqn:E; [exact E | reflexivity].
  - unfold lift_result in Hs. by destruct head_sha.
Qed.

(** X15.  The branch and the commit id that [bootstrap] resolves.  The
    branch is never an empty or false value (a missing or empty
    [default_branch] of the API becomes [master]), and the commit id is a
    value that can be sliced.  Either the API tier gave both, or the API
    tier raised an [Exception] and the HTML tier gave the branch [main]
    or [master] with an id of 7 to 40 hexadecimal characters. *)
Theorem resolved_reference_shape (owner repo : string) (w w' : World) (vb vs : PyVal) :
  resolve_ref owner repo w = (w', inr (vb, vs)) ->
  py_truthy vb = true
  /\ py_sliceable vs = inr tt
  /\ (snd (resolve_api owner repo (w_token w) w) = inr (vb, vs)
      \/ (exists e, snd (resolve_api owner repo (w_token w) w) = inl e
                    /\ is_Exception e = true)
         /\ exists b sha,
             vb = PyStr b /\ vs = PyStr sha /\ (b = "main" \/ b = "master")
             /\ hex_string sha /\ (7 <= String.length sha <= 40)%nat).
Proof.
  intros H. unfold resolve_ref in H. unfold bind at 1, get_world in H.
  cbn beta iota in H. unfold try_except in H.
  destruct (resolve_api owner repo (w_token w) w) as [w1 [e | [vb' vs']]] eqn:E.
  - destruct (is_Exception e) eqn:He; [| done].
    apply bind_ok in H as (w2 & [b sha] & Hg & H).
    apply bind_ok in H as (w3 & [] & _ & H). injection H as _ <- <-.
    rewrite guess_default_sha_html_pages in Hg.
    apply first_page_result in Hg as (pg & wa & wb & Hin & -> & Hp).
    destruct (probe_page_shape _ _ _ _ _ _ Hp) as [Hh Hl].
    assert (Hbranch : page_branch pg = "main" \/ page_branch pg = "master").
    { unfold pages_in_order, candidates in Hin. simpl in Hin.
      repeat (apply elem_of_cons in Hin as [-> | Hin]; [simpl; tauto |]).
      by apply elem_of_nil in Hin. }
    assert (Hlen : (7 <= String.length sha <= 40)%nat) by (destruct pg; lia).
    split; [by destruct Hbranch as [-> | ->] |]. split; [done |].
    right. split; [by exists e |]. by exists (page_branch pg), sha.
  - injection H as <- <- <-.
    destruct (resolve_api_result _ _ _ _ _ _ _ E) as [Ht Hs]. by repeat split; [| | left].
Qed.

Lemma resolved_reference_shape_witness :
  let w := Sample.world Sample.home_fs Sample.net_pages in
  let vb := PyStr "master" in
  let vs := PyStr Sample.sha_master in
  py_truthy vb = true
  /\ py_sliceable vs = inr tt
  /\ (snd (resolve_api "acme" "widget" (w_token w) w) = inr (vb, vs)
      \/ (exists e, snd (resolve_api "acme" "widget" (w_token w) w) = inl e
                    /\ is_Exception e = true)
         /\ exists b sha,
             vb = PyStr b /\ vs = PyStr sha /\ (b = "main" \/ b = "master")
             /\ hex_string sha /\ (7 <= String.length sha <= 40)%nat).
Proof.
  intros w vb vs.
  apply (resolved_reference_shape "acme" "widget" w (fst (resolve_ref "acme" "widget" w))
           vb vs).
  vm_compute. reflexivity.
Defined.

(** ** The destination after a run *)

Lemma walk_fs_le (fs fs' : FS) cur parts d :
  fs_le fs fs' -> OS.walk fs cur parts = inr d -> OS.walk fs' cur parts = inr d.
Proof.
  intros Hle. revert cur. induction parts as [| x parts IH]; intros cur; simpl; [done |].
  destruct (decide (x = "..")); [apply IH |].
  rewrite !node_at_nonroot.
  destruct (fs !! (cur ++ [x])) as [[| c m] |] eqn:E; [| done | done].
  destruct (Hle _ _ E) as (n' & -> & Hk). destruct n'; [apply IH | done].
Qed.

Lemma stat_dir_kept w w' p l :
  w_cwd w' = w_cwd w -> fs_le (w_fs w) (w_fs w') ->
  OS.stat w p = inr (l, Dir) -> OS.stat w' p = inr (l, Dir).
Proof.
  intros Hc Hle. unfold OS.stat, OS.start. rewrite Hc.
  destruct (OS.split_last (p_parts p)) as [[init name] |]; [| done].
  destruct (OS.walk (w_fs w) _ init) as [e | d] eqn:Hw; [done |].
  rewrite (walk_fs_le _ _ _ _ _ Hle Hw).
  destruct (decide (name = "..")); [done |].
  rewrite !node_at_nonroot.
  destruct (w_fs w !! (d ++ [name])) as [nd |] eqn:E; [| done].
  intros [= <- ->]. destruct (Hle _ _ E) as (n' & -> & Hk). by destruct n'.
Qed.

Lemma is_dir_kept w w' p :
  w_cwd w' = w_cwd w -> fs_le (w_fs w) (w_fs w') ->
  OS.is_dir w p = true -> OS.is_dir w' p = true.
Proof.
  intros Hc Hle. unfold OS.is_dir.
  destruct (OS.stat w p) as [e | [l [| c m]]] eqn:E; [done | | done].
  by rewrite (stat_dir_kept _ _ _ _ Hc Hle E).
Qed.

Lemma mkdir_ok_is_dir p w w' : OS.mkdir p w = (w', inr tt) -> OS.is_dir w' p = true.
Proof.
  unfold OS.mkdir.
  destruct (OS.split_last (p_parts p)) as [[init name] |] eqn:Hs; [| done].
  destruct (OS.walk (w_fs w) (OS.start w p) init) as [e | d] eqn:Hw; [done |].
  destruct (decide (name = "..")) as [| Hn]; [done |].
  rewrite node_at_nonroot.
  destruct (w_fs w !! (d ++ [name])) eqn:E; [done |].
  intros [= <-]. unfold OS.is_dir, OS.stat. cbn [w_fs set_fs]. rewrite Hs.
  change (OS.start (set_fs _ w) p) with (OS.start w p).
  rewrite (walk_fs_le _ _ _ _ _ (fs_le_insert_new _ _ Dir E) Hw).
  destruct (decide (name = "..")); [done |].
  by rewrite node_at_nonroot, lookup_insert_eq.
Qed.

Lemma mkdir_except_OSError_is_dir self e w w' :
  mkdir_except_OSError true self e w = (w', inr tt) -> OS.is_dir w' self = true.
Proof.
  unfold mkdir_except_OSError. destruct (is_OSError e); [| done].
  destruct (OS.is_dir w self) eqn:E; simpl; [| done]. by intros [= <-].
Qed.

Lemma Path_mkdir_flat_is_dir self w w' :
  Path_mkdir_flat true self w = (w', inr tt) -> OS.is_dir w' self = true.
Proof.
  unfold Path_mkdir_flat.
  destruct (OS.mkdir self w) as [w1 [e | []]] eqn:E.
  - destruct e; try done; apply mkdir_except_OSError_is_dir.
  - intros [= <-]. exact (mkdir_ok_is_dir _ _ _ E).
Qed.

(** [mkdir(parents=..., exist_ok=True)] that ends normally leaves a
    directory at its path. *)
Lemma Path_mkdir_is_dir parents p w w' :
  Path_mkdir parents true p w = (w', inr tt) -> OS.is_dir w' p = true.
Proof.
  unfold Path_mkdir. rewrite Path_mkdir_rev_unfold. cbv zeta.
  rewrite rev_involutive. replace (mkPath (p_abs p) (p_parts p)) with p by (by destruct p).
  destruct (OS.mkdir p w) as [w1 [e | []]] eqn:E.
  - destruct e; try apply mkdir_except_OSError_is_dir.
    destruct (List.rev (p_parts p)) as [| x rparent]; [done |].
    destruct parents; [| done].
    intros H. apply bind_ok in H as (w2 & [] & _ & H).
    exact (Path_mkdir_flat_is_dir _ _ _ H).
  - intros [= <-]. exact (mkdir_ok_is_dir _ _ _ E).
Qed.

Lemma clone_keeps cwd0 P url dst :
  preserves (keeps cwd0 P) (try_except (bootstrap url dst) report_failure).
Proof.
  unfold report_failure.
  keeps_step; [apply bootstrap_keeps | repeat keeps_step].
Qed.

(** X16.  Whenever the beginning of [main] succeeds (the destination was
    absent, or emptied under [--force], and could be created), the
    destination is a directory when the run ends, whether the clone
    succeeded or failed: nothing cleans up after a failure.  So a second
    run for the same destination without [--force] is refused with
    status 1, whatever its URL. *)
Theorem destination_left_behind (args : Args) (w w1 : World) (dst : Path) :
  prepare_destination args w = (w1, inr dst) ->
  let wr := fst (run args w) in
  OS.is_dir wr (parse_path (a_target args)) = true
  /\ forall url, snd (run (mkArgs url (a_target args) false) wr) = 1.
Proof.
  intros Hp wr.
  assert (Hdir : OS.is_dir wr (parse_path (a_target args)) = true).
  { destruct (prepare_destination_result _ _ _ _ Hp) as [-> _].
    assert (H1 : OS.is_dir w1 (parse_path (a_target args)) = true).
    { unfold prepare_destination in Hp.
      apply bind_ok in Hp as (wa & ? & _ & Hp).
      apply bind_ok in Hp as (wb & [] & _ & Hp).
      apply bind_ok in Hp as (wc & [] & Hmk & Hp).
      injection Hp as <-. by eapply Path_mkdir_is_dir. }
    unfold wr, run, main. unfold bind at 1. rewrite Hp.
    destruct (try_except _ _ w1) as [w' r] eqn:E.
    apply (clone_keeps (w_cwd w1) (fun _ => true)) in E.
    destruct (E eq_refl) as [Hc Hk].
    assert (H' : OS.is_dir w' (parse_path (a_target args)) = true).
    { eapply is_dir_kept; [exact Hc | | exact H1]. intros l n Hl. by apply Hk. }
    destruct r as [e | []]; [destruct e as [?|?|?|?|?|?|?|?|?|?|[?|?]] |]; exact H'. }
  split; [exact Hdir |]. intros url.
  assert (He : OS.exists_ wr (parse_path (a_target args)) = true).
  { unfold OS.is_dir in Hdir. unfold OS.exists_. by destruct (OS.stat wr _). }
  pose proof (run_refuses_existing (mkArgs url (a_target args) false) wr He eq_refl)
    as Hrun.
  cbv zeta in Hrun. rewrite Hrun. by destruct (w_markup wr _).
Qed.

Lemma destination_left_behind_witness :
  let args := mkArgs "https://github.com/acme/widget" "fresh" false in
  let wr := fst (run args Sample.w_offline) in
  OS.is_dir wr (parse_path (a_target args)) = true
  /\ forall url, snd (run (mkArgs url (a_target args) false) wr) = 1.
Proof.
  intros args wr.
  apply (destination_left_behind args Sample.w_offline
           (fst (prepare_destination args Sample.w_offline)) (parse_path "fresh")).
  vm_compute. reflexivity.
Defined.

(** ** Branch names with a slash *)

Lemma mkdir_elsewhere p w w' r l :
  OS.mkdir p w = (w', r) -> l <> resolve (w_cwd w) p -> w_fs w' !! l = w_fs w !! l.
Proof.
  unfold OS.mkdir. intros H Hl.
  destruct (OS.split_last (p_parts p)) as [[init name] |] eqn:Hs; [| by inversion H].
  apply split_last_Some in Hs.
  destruct (OS.walk (w_fs w) (OS.start w p) init) as [e | d] eqn:Hw; [by inversion H |].
  apply walk_resolve in Hw.
  destruct (decide (name = "..")); [by inversion H |].
  assert (d ++ [name] = resolve (w_cwd w) p) as Hloc.
  { unfold resolve. rewrite Hs, fold_left_app. simpl. unfold loc_step at 1.
    destruct (decide (name = "..")); [done |]. unfold OS.start in Hw. by rewrite Hw. }
  destruct (node_at (w_fs w) (d ++ [name])); inversion H; subst; [done |].
  simpl. rewrite lookup_insert_ne; congruence.
Qed.

Lemma mkdir_except_OSError_world exist_ok self e w w' r :
  mkdir_except_OSError exist_ok self e w = (w', r) -> w' = w.
Proof.
  unfold mkdir_except_OSError.
  destruct (is_OSError e); [destruct (_ || _) |]; by intros [= <- _].
Qed.

Lemma Path_mkdir_flat_elsewhere exist_ok self w w' r l :
  Path_mkdir_flat exist_ok self w = (w', r) -> l <> resolve (w_cwd w) self ->
  w_fs w' !! l = w_fs w !! l.
Proof.
  unfold Path_mkdir_flat. intros H Hl.
  destruct (OS.mkdir self w) as [w1 [e | []]] eqn:E;
    pose proof (mkdir_elsewhere _ _ _ _ _ E Hl) as H1.
  - destruct e; try (by inversion H; subst);
      apply mkdir_except_OSError_world in H; by subst.
  - by inversion H; subst.
Qed.

(** [Path.mkdir] changes the file system only where its path or one of
    its ancestors resolves to. *)
Lemma Path_mkdir_rev_elsewhere parents exist_ok abs rparts w w' r l :
  (forall k, l <> resolve (w_cwd w) (mkPath abs (List.rev (drop k rparts)))) ->
  Path_mkdir_rev parents exist_ok abs rparts w = (w', r) ->
  w_fs w' !! l = w_fs w !! l.
Proof.
  revert parents exist_ok w w' r.
  induction rparts as [| x rp IH]; intros parents exist_ok w w' r Hl H;
    rewrite Path_mkdir_rev_unfold in H; cbv zeta in H;
    destruct (OS.mkdir _ w) as [w1 [e | []]] eqn:E1;
    pose proof (mkdir_elsewhere _ _ _ _ _ E1 (Hl 0%nat)) as H1;
    pose proof (grows_cwd _ _ (mkdir_grows _ _ _ _ E1)) as Hc1;
    try (by inversion H; subst).
  - destruct e; try (by inversion H; subst);
      apply mkdir_except_OSError_world in H; by subst.
  - destruct e;
      try (apply mkdir_except_OSError_world in H; by subst).
    destruct parents; [| by inversion H; subst].
    unfold bind in H.
    destruct (Path_mkdir_rev true true abs rp w1) as [w2 [e | []]] eqn:E2.
    + inversion H; subst. rewrite <- H1. eapply IH; [| exact E2].
      intros k. rewrite Hc1. exact (Hl (S k)).
    + pose proof (grows_cwd _ _ (Path_mkdir_rev_grows _ _ _ _ _ _ _ E2)) as Hc2.
      rewrite <- H1. transitivity (w_fs w2 !! l).
      * eapply Path_mkdir_flat_elsewhere; [exact H |]. rewrite Hc2, Hc1. exact (Hl 0%nat).
      * eapply IH; [| exact E2]. intros k. rewrite Hc1. exact (Hl (S k)).
Qed.

Lemma Path_write_text_elsewhere p data enc w w' r l :
  Path_write_text p data enc w = (w', r) -> l <> resolve (w_cwd w) p ->
  w_fs w' !! l = w_fs w !! l.
Proof.
  unfold Path_write_text, bind. intros H Hl.
  destruct (has_nul p); [by inversion H; subst |].
  destruct (OS.open_wb p w) as [w1 [e | h]] eqn:Ho;
    pose proof (open_wb_elsewhere _ _ _ _ _ Ho Hl) as H1.
  - by inversion H; subst.
  - destruct (open_wb_loc _ _ _ _ Ho) as [Hh _].
    assert (Hw : forall w2 r2, OS.write h data w1 = (w2, r2) -> w_fs w2 !! l = w_fs w !! l).
    { intros w2 r2 Hw. rewrite <- H1. eapply write_elsewhere; [exact Hw | congruence]. }
    destruct enc; [by eapply Hw |].
    destruct (is_ascii_str data); [by eapply Hw | by inversion H; subst].
Qed.

Lemma walk_missing (fs : FS) cur pre x post :
  ".." ∉ pre -> x <> ".." -> fs !! (cur ++ pre ++ [x]) = None ->
  exists e, OS.walk fs cur (pre ++ x :: post) = inl e.
Proof.
  revert cur. induction pre as [| a pre IH]; intros cur Hpre Hx Hnone; simpl.
  - destruct (decide (x = "..")); [done |]. rewrite node_at_nonroot.
    simpl in Hnone. rewrite Hnone. by eexists.
  - apply not_elem_of_cons in Hpre as [Ha Hpre].
    destruct (decide (a = "..")); [done |].
    destruct (node_at fs (cur ++ [a])) as [[| c m] |]; [| by eexists | by eexists].
    apply IH; [done | done |]. by rewrite <- app_assoc.
Qed.

Lemma open_wb_missing_parent (abs : bool) (pre : Loc) (x : string) (more : Loc) (w : World) :
  ".." ∉ pre -> x <> ".." -> more <> [] ->
  w_fs w !! ((if abs then [] else w_cwd w) ++ pre ++ [x]) = None ->
  exists e, OS.open_wb (mkPath abs (pre ++ x :: more)) w = (w, inl e).
Proof.
  intros Hpre Hx Hmore Hnone.
  destruct (exists_last Hmore) as (mi & name & ->).
  unfold OS.open_wb, OS.start. cbn [p_parts p_abs].
  replace (pre ++ x :: mi ++ [name]) with ((pre ++ x :: mi) ++ [name])
    by (by rewrite <- app_assoc).
  rewrite split_last_snoc.
  destruct (walk_missing (w_fs w) (if abs then [] else w_cwd w) pre x mi Hpre Hx Hnone)
    as [e ->].
  by exists e.
Qed.

Lemma drop_rev_prefix {A : Type} (k : nat) (l : list A) : exists n, List.rev (drop k (List.rev l)) = take n l.
Proof.
  exists (List.length l - k)%nat.
  change (drop k (List.rev l)) with (List.skipn k (List.rev l)).
  by rewrite List.skipn_rev, rev_involutive.
Qed.

Lemma Path_mkdir_elsewhere parents exist_ok (abs : bool) (parts : Loc) (w w' : World) r
    (l : Loc) :
  ".." ∉ parts ->
  (forall n, l <> (if abs then [] else w_cwd w) ++ take n parts) ->
  Path_mkdir parents exist_ok (mkPath abs parts) w = (w', r) ->
  w_fs w' !! l = w_fs w !! l.
Proof.
  intros Hdots Hl H. unfold Path_mkdir in H. cbn [p_abs p_parts] in H.
  eapply Path_mkdir_rev_elsewhere; [| exact H].
  intros k. destruct (drop_rev_prefix k parts) as [n ->].
  unfold resolve. cbn [p_abs p_parts]. rewrite fold_loc_step_plain; [apply Hl |].
  intros Hin. apply Hdots. rewrite <- (take_drop n parts). apply elem_of_app. by left.
Qed.

Lemma not_on_path (dparts suf tail : Loc) (n : nat) :
  (forall m, tail <> take m suf) -> (List.length suf <= List.length tail)%nat ->
  dparts ++ tail <> take n (dparts ++ suf).
Proof.
  intros Hsuf Hlen Heq. rewrite take_app in Heq.
  destruct (decide (n <= List.length dparts)%nat) as [Hn | Hn].
  - apply (f_equal List.length) in Heq. rewrite !length_app, !length_take in Heq.
    assert (0 < List.length tail)%nat; [| lia].
    destruct tail; [| simpl; lia]. by destruct (Hsuf 0%nat).
  - rewrite take_ge in Heq by lia. apply app_inv_head in Heq. by apply (Hsuf _ Heq).
Qed.

Lemma bind_raises {A B} (m : M A) (k : A -> M B) w :
  (forall w1 a, m w = (w1, inr a) -> exists w' e, k a w1 = (w', inl e)) ->
  exists w' e, bind m k w = (w', inl e).
Proof.
  intros H. unfold bind. destruct (m w) as [w1 [e | a]]; [by eexists _, _ |]. by apply H.
Qed.

(** X17.  A branch name with a slash whose first segment has no directory
    under [.git/refs/heads] makes [_write_git_skeleton] raise: the
    directories of the skeleton and [HEAD] are written, but the reference
    file cannot be opened, since nothing creates the directories the
    branch name asks for.  (The destination is given without [..].) *)
Theorem skeleton_fails_for_nested_branch (dst : Path) (url b s x y : string)
    (rest : list string) (w : World) :
  ".." ∉ p_parts dst ->
  branch_segments b = Some (x :: y :: rest) ->
  w_fs w !! (resolve (w_cwd w) dst ++ [".git"; "refs"; "heads"; x]) = None ->
  exists w' e, _write_git_skeleton dst url (PyStr b) (PyStr s) w = (w', inl e).
Proof.
  destruct dst as [abs dparts]. cbn [p_parts]. intros Hdots Hb Hnone.
  set (start := if abs then [] else w_cwd w).
  assert (Hres : resolve (w_cwd w) (mkPath abs dparts) = start ++ dparts)
    by (unfold resolve; cbn [p_abs p_parts]; by apply fold_loc_step_plain).
  rewrite Hres in Hnone. rewrite <- app_assoc in Hnone.
  set (T := start ++ dparts ++ [".git"; "refs"; "heads"; x]) in *.
  assert (Hmk : forall suf w0 w1 r,
             w_cwd w0 = w_cwd w -> ".." ∉ suf ->
             (forall m, [".git"; "refs"; "heads"; x] <> take m suf) ->
             (List.length suf <= 4)%nat ->
             Path_mkdir true true (mkPath abs (dparts ++ suf)) w0 = (w1, r) ->
             w_cwd w1 = w_cwd w /\ w_fs w1 !! T = w_fs w0 !! T).
  { intros suf w0 w1 r Hc Hsd Hsuf Hlen H. split.
    - rewrite <- Hc. by eapply Path_mkdir_ok_cwd.
    - eapply Path_mkdir_elsewhere; [| | exact H].
      + intros [? | ?]%elem_of_app; [by apply Hdots | by apply Hsd].
      + intros n. rewrite Hc. fold start. unfold T. intros Heq.
        apply app_inv_head in Heq. revert Heq. by apply not_on_path. }
  assert (Hplain : forall suf : Loc, Forall (fun z => z <> "..") suf -> ".." ∉ suf).
  { intros suf HF Hin. rewrite Forall_forall in HF. by apply (HF _ Hin). }
  unfold _write_git_skeleton. cbv zeta.
  apply bind_raises. intros w1 [] H1.
  change (path_div (path_div (mkPath abs dparts) ".git") "refs/heads")
    with (mkPath abs ((dparts ++ [".git"]) ++ ["refs"; "heads"])) in *.
  rewrite <- (app_assoc dparts [".git"]) in *.
  change ([".git"] ++ ["refs"; "heads"]) with [".git"; "refs"; "heads"] in *.
  eapply (Hmk _ w) in H1 as [Hc1 Hf1]; [| done | | | simpl; lia];
    [| apply Hplain; by repeat constructor
     | intros m; do 4 (destruct m as [| m]; [done |]); done].
  apply bind_raises. intros w2 [] H2.
  change (path_div (path_div (mkPath abs dparts) ".git") "refs/remotes/origin")
    with (mkPath abs ((dparts ++ [".git"]) ++ ["refs"; "remotes"; "origin"])) in *.
  rewrite <- (app_assoc dparts [".git"]) in *.
  change ([".git"] ++ ["refs"; "remotes"; "origin"]) with [".git"; "refs"; "remotes"; "origin"] in *.
  eapply (Hmk _ w1) in H2 as [Hc2 Hf2]; [| done | | | simpl; lia];
    [| apply Hplain; by repeat constructor
     | intros m; do 5 (destruct m as [| m]; [done |]); done].
  apply bind_raises. intros w3 [] H3.
  change (path_div (path_div (mkPath abs dparts) ".git") "refs/remotes/upstream")
    with (mkPath abs ((dparts ++ [".git"]) ++ ["refs"; "remotes"; "upstream"])) in *.
  rewrite <- (app_assoc dparts [".git"]) in *.
  change ([".git"] ++ ["refs"; "remotes"; "upstream"]) with [".git"; "refs"; "remotes"; "upstream"] in *.
  eapply (Hmk _ w2) in H3 as [Hc3 Hf3]; [| done | | | simpl; lia];
    [| apply Hplain; by repeat constructor
     | intros m; do 5 (destruct m as [| m]; [done |]); done].
  apply bind_raises. intros w4 [] H4.
  change (path_div (path_div (mkPath abs dparts) ".git") "objects/info")
    with (mkPath abs ((dparts ++ [".git"]) ++ ["objects"; "info"])) in *.
  rewrite <- (app_assoc dparts [".git"]) in *.
  change ([".git"] ++ ["objects"; "info"]) with [".git"; "objects"; "info"] in *.
  eapply (Hmk _ w3) in H4 as [Hc4 Hf4]; [| done | | | simpl; lia];
    [| apply Hplain; by repeat constructor
     | intros m; do 4 (destruct m as [| m]; [done |]); done].
  apply bind_raises. intros w5 [] H5.
  change (path_div (path_div (mkPath abs dparts) ".git") "HEAD")
    with (mkPath abs ((dparts ++ [".git"]) ++ ["HEAD"])) in *.
  rewrite <- (app_assoc dparts [".git"]) in *.
  change ([".git"] ++ ["HEAD"]) with [".git"; "HEAD"] in *.
  pose proof (grows_cwd _ _ (Path_write_text_grows _ _ _ _ _ _ H5)) as Hc5.
  apply (Path_write_text_elsewhere _ _ _ _ _ _ T) in H5 as Hf5.
  2:{ unfold resolve. cbn [p_abs p_parts]. rewrite Hc4. fold start.
      rewrite fold_loc_step_plain.
      - unfold T. intros Heq. apply app_inv_head, app_inv_head in Heq. discriminate.
      - intros [? | ?]%elem_of_app; [by apply Hdots |].
        revert H. apply Hplain. by repeat constructor. }
  assert (HT : w_fs w5 !! T = None) by congruence.
  assert (Hc : w_cwd w5 = w_cwd w) by congruence.
  clear Hf1 Hc1 Hf2 Hc2 Hf3 Hc3 Hf4 Hc4 Hf5 Hc5 Hmk.
  destruct (branch_segments_path (mkPath abs (dparts ++ [".git"; "refs"; "heads"]))
              b _ Hb) as (Hpath & _ & Hbd).
  cbn [p_abs p_parts] in Hpath.
  apply not_elem_of_cons in Hbd as [Hx Hbd].
  destruct (open_wb_missing_parent abs (dparts ++ [".git"; "refs"; "heads"]) x (y :: rest) w5)
    as [e He]; [| congruence | done | |].
  - intros [? | ?]%elem_of_app; [by apply Hdots |].
    revert H. apply Hplain. by repeat constructor.
  - rewrite Hc. fold start. rewrite <- app_assoc. exact HT.
  - unfold bind at 1. unfold write_ref, path_div_val, py_add_str.
    unfold bind at 1. unfold lift_result at 1. cbn beta iota.
    unfold bind at 1. unfold lift_result at 1. cbn beta iota.
    rewrite Hpath. unfold Path_write_text.
    destruct (has_nul _); [by eexists _, _ |].
    unfold bind at 1. rewrite He. by eexists _, _.
Qed.

Lemma skeleton_fails_for_nested_branch_witness :
  exists w' e,
    _write_git_skeleton Sample.widget "https://github.com/acme/widget"
      (PyStr "release/1.x") (PyStr Sample.sha)
      (Sample.world Sample.home_fs Sample.net_down)
    = (w', inl e).
Proof.
  apply (skeleton_fails_for_nested_branch Sample.widget "https://github.com/acme/widget"
           "release/1.x" Sample.sha "release" "1.x" []
           (Sample.world Sample.home_fs Sample.net_down)).
  - vm_compute. by intros ?%list_elem_of_singleton.
  - vm_compute. reflexivity.
  - vm_compute. reflexivity.
Defined.
